(** * matilda: a slippy-map tile downloader

    The repository holds three versions of one small library:

    - [src/index.js]: an early draft (tile arithmetic, [bboxToBounds] and the
      seeding of the coordinates; [getTiles] stops after the seeding);
    - the sequential version: [getTiles] walks the tiles one after the other
      through the callback [tileGetCallback];
    - the cluster version: a master process owns the cursor ([getNextJob]) and
      hands one job at a time to each of [numCPUs] forked workers.

    This development embeds the three versions and proves properties of them.
    Part I holds the model, Part II the proofs.

    The sequential version is the file listed as [src/unnamed/part_000], the
    cluster version the one listed as [src/unnamed/part_001].

    How the code is read:

    - tile indices, zoom levels and counters are JavaScript numbers that hold
      integers and are modelled as [Z]; the walk over the tiles is stated for
      any pair of conversions [lngToTile], [latToTile] that return integers,
      so what is proved of it does not depend on how the geographic
      arithmetic rounds. The conversions themselves are given twice: in exact
      real arithmetic, and [lngToTile] also on binary64 numbers;
    - the file system is the list of the paths that were created, the two
      things the code cannot decide (does [fs.mkdirSync] throw, is a request
      fulfilled) are functions of an environment [Env];
    - the closure variables of [getTiles] are a record that the functions take
      and return; a job carries the value [coords] has when it is sent;
    - a run of the cluster version is driven by a schedule, the list of the
      workers in the order in which their reports reach the master;
    - console output is not modelled.

    What the model leaves out, and where it matters:

    - the job of a worker runs as one step when its report is delivered. In
      the program a worker starts on its job when it receives it, so the
      requests of different workers overlap and come before the reports;
    - the file of a tile counts as written when [getTile] calls its callback,
      and no write fails. The program calls the callback right after it has
      started the write, and the stream it writes to has no handler for
      errors;
    - the promise chain of [getTile] calls the callback in [finally],
      fulfilled or rejected, and has no [catch]. [Sequential] and [Cluster]
      go on after a rejected request, which is what the program does in a
      runtime that only warns of a rejection nothing handles. [Host] gives
      what the cluster version does in a runtime that raises such a
      rejection; the sequential version ends there with its process. *)

From Stdlib Require Import ZArith List String Ascii Bool Lia DecimalString DecimalZ Sorted.
From Stdlib Require Import Reals Lra.
From Stdlib Require Import Floats.
Import ListNotations.

Local Open Scope Z_scope.

(* ================================================================== *)
(** * Part I: the model *)
(* ================================================================== *)

(** ** Data model *)

(** [Coords]: a tile address [{ z, x, y }]. The fields are JavaScript numbers
    that hold integers; they are modelled as [Z]. *)
Record Coords : Type := mkCoords { cz : Z; cx : Z; cy : Z }.

(** [Bounds]: the tile rectangle of a bounding box at one zoom level. *)
Record Bounds : Type := mkBounds { north : Z; west : Z; south : Z; east : Z }.

(** The bounding box array: the four numbers [bbox[0]] .. [bbox[3]], documented
    as [[south, west, north, east]] in degrees. *)
Record BBox (num : Type) : Type :=
  mkBBox { bbox0 : num; bbox1 : num; bbox2 : num; bbox3 : num }.
Arguments mkBBox {num} _ _ _ _.
Arguments bbox0 {num} _.
Arguments bbox1 {num} _.
Arguments bbox2 {num} _.
Arguments bbox3 {num} _.

(** [Options]: the input of [getTiles]. [zoom_min] and [zoom_max] are
    [options.zoom.min] and [options.zoom.max]; an absent [referrer] or [format]
    is [None]. *)
Record Options (num : Type) : Type := mkOptions {
  url : string;
  bbox : BBox num;
  output : string;
  zoom_min : Z;
  zoom_max : Z;
  referrer : option string;
  verbose : bool;
  format : option string
}.
Arguments mkOptions {num} _ _ _ _ _ _ _ _.
Arguments url {num} _.
Arguments bbox {num} _.
Arguments output {num} _.
Arguments zoom_min {num} _.
Arguments zoom_max {num} _.
Arguments referrer {num} _.
Arguments verbose {num} _.
Arguments format {num} _.

(** ** The tile arithmetic *)

(** The two conversions every version defines, as an interface: the walk over
    the tiles uses them only through [bboxToBounds], and what it does depends
    on the integers they return, not on how numbers are represented. *)
Class CoordinateMapper (num : Type) : Type := {
  lngToTile : num -> Z -> Z;
  latToTile : num -> Z -> Z
}.

(** The conversions in exact real arithmetic: every JavaScript operation is
    read as the operation on real numbers it rounds. [Int_part] is the floor
    ([Int_part r = up r - 1]), [powerRZ 2 zoom] is [Math.pow(2, zoom)] at an
    integer zoom level. *)
Module RealMath.
Local Open Scope R_scope.

Definition Math_floor (r : R) : Z := Int_part r.

Definition lngToTile (lng : R) (zoom : Z) : Z :=
  Math_floor ((lng + 180) / 360 * powerRZ 2 zoom).

Definition latToTile (lat : R) (zoom : Z) : Z :=
  let log := ln (tan (lat * PI / 180) + 1 / cos (lat * PI / 180)) in
  Math_floor ((1 - log / PI) / 2 * powerRZ 2 zoom).

#[global] Instance mapper : CoordinateMapper R :=
  Build_CoordinateMapper R lngToTile latToTile.

End RealMath.

(** [lngToTile] on IEEE 754 binary64 numbers, the numbers JavaScript computes
    with: [+], [/] and [*] are the kernel's correctly rounded operations. *)
Module Float64.

(** An integer below [2^53] in absolute value, as a binary64 number. *)
Definition of_int (n : Z) : float :=
  let m := PrimFloat.of_uint63 (Uint63.of_Z (Z.abs n)) in
  if n <? 0 then PrimFloat.opp m else m.

(** [Math.floor]: a finite number [(-1)^s * m * 2^e] with [e < 0] has the floor
    of [m / 2^(-e)] (with its sign) as its floor; every other number is an
    integer, a zero, an infinity or NaN and is returned as it is. *)
Definition Math_floor (f : float) : float :=
  match Prim2SF f with
  | S754_finite s m e =>
      if 0 <=? e then f
      else of_int (Z.shiftr (if s then Z.neg m else Z.pos m) (- e))
  | _ => f
  end.

(** [Math.pow(2, zoom)] at an integer [zoom]. *)
Definition Math_pow2 (zoom : Z) : float := Z.ldexp 1%float zoom.

Definition lngToTile (lng : float) (zoom : Z) : float :=
  Math_floor (PrimFloat.mul (PrimFloat.div (PrimFloat.add lng 180%float) 360%float)
                            (Math_pow2 zoom)).

End Float64.

(** ** Strings: [templateToUrl] *)

(** [String(n)] for a number that holds an integer: its decimal digits, with a
    leading minus sign when negative (JavaScript prints integers below [1e21]
    this way). *)
Definition Number_toString (n : Z) : string :=
  NilZero.string_of_int (Z.to_int n).

(** [s.slice(n)]: [s] without its first [n] characters. *)
Fixpoint string_drop (n : nat) (s : string) : string :=
  match n, s with
  | O, _ => s
  | S n', String _ s' => string_drop n' s'
  | S _, EmptyString => EmptyString
  end.

(** [s.replace(/pat/, rep)] for a regular expression without the [g] flag that
    matches the literal text [pat], and a replacement without [$]: the leftmost
    match is replaced, the rest of the string is copied. *)
Fixpoint replace_first (pat rep s : string) : string :=
  if String.prefix pat s then String.append rep (string_drop (String.length pat) s)
  else match s with
       | EmptyString => EmptyString
       | String c s' => String c (replace_first pat rep s')
       end.

(** The number of places of [s] where [pat] starts. *)
Fixpoint occurrences (pat s : string) : nat :=
  ((if String.prefix pat s then 1 else 0) +
   match s with
   | EmptyString => 0
   | String _ s' => occurrences pat s'
   end)%nat.

(** The three placeholders of a URL template. *)
Definition placeholder_x : string := "{x}".
Definition placeholder_y : string := "{y}".
Definition placeholder_z : string := "{z}".

(** [templateToUrl], the same in the sequential and in the cluster version
    (and the body of the draft's [getTile]). *)
Definition templateToUrl (url : string) (coords : Coords) : string :=
  let url := replace_first placeholder_x (Number_toString (cx coords)) url in
  let url := replace_first placeholder_y (Number_toString (cy coords)) url in
  let url := replace_first placeholder_z (Number_toString (cz coords)) url in
  url.

(** ** The file system and the network *)

(** The file system as the code sees it: the paths that were created. A path
    exists when it was created or when something was created under it (a file
    is only ever found inside directories that exist). *)
Definition FS : Type := list string.

(** What the code cannot decide: whether [fs.mkdirSync] throws for a path (and
    with which error code), and whether the request for a URL is fulfilled. *)
Record Env : Type := mkEnv {
  mkdirSync_throws : FS -> string -> option string;
  axios_fulfils : string -> bool
}.

Definition existsSync (fs : FS) (path : string) : bool :=
  existsb (fun p => String.eqb path p || String.prefix (String.append path "/") p) fs.

(** [createDir]: the returned boolean and the file system afterwards. An
    error with the code [EEXIST] says that the directory exists after all
    (another process created it in the meantime). *)
Definition createDir (env : Env) (fs : FS) (path : string) : bool * FS :=
  if negb (existsSync fs path) then
    match mkdirSync_throws env fs path with
    | None => (true, path :: fs)
    | Some code =>
        if negb (String.eqb code "EEXIST") then (false, fs) else (true, path :: fs)
    end
  else (true, fs).

(** The double quote character. *)
Definition dquote : string := String (ascii_of_nat 34) EmptyString.

(** [pathError]: the message of the [Error] it builds. *)
Definition pathError (path : string) : string :=
  String.append "Failed to create " (String.append dquote (String.append path dquote)).

(** [`${a}/${b}`]. *)
Definition join_path (a b : string) : string :=
  String.append a (String.append "/" b).

(** What one call of [getTile] does: the argument it passes to its callback
    ([None] for [null] or no argument, [Some m] for an [Error] with message
    [m]), the URLs it requests through axios, and the file system afterwards.
    Console output is not modelled. *)
Record TileOutcome : Type := mkOutcome {
  callback_err : option string;
  requested : list string;
  fs_after : FS
}.

(** The cursor of [getTiles]: the three variables [coords], [bounds] and
    [count] its inner function closes over and mutates. *)
Record Cursor : Type := mkCursor { coords : Coords; bounds : Bounds; count : Z }.

(** [first .. last] in ascending order, empty when [last < first]. *)
Definition Zrange (first last : Z) : list Z :=
  map (fun i => first + Z.of_nat i) (seq 0 (Z.to_nat (last - first + 1))).

Definition Zsum (l : list Z) : Z := fold_right Z.add 0 l.

(** ** [src/index.js], the draft *)

Module Index.
Section WithMapper.
Context {num : Type} {M : CoordinateMapper num}.

Definition bboxToBounds (bbox : BBox num) (zoom : Z) : Bounds :=
  let north := latToTile (bbox0 bbox) zoom in
  let west := lngToTile (bbox1 bbox) zoom in
  let south := latToTile (bbox2 bbox) zoom in
  let east := lngToTile (bbox3 bbox) zoom in
  mkBounds north west south east.

(** [getTiles] builds [coords] and returns: the value is the [coords] object
    as it stands at the end of the function. *)
Definition getTiles (options : Options num) : Coords :=
  let z := zoom_min options in
  let bounds := bboxToBounds (bbox options) z in
  let x := east bounds in
  let y := south bounds in
  mkCoords z x y.

End WithMapper.
End Index.

(** ** What the sequential and the cluster version share *)

Section WithMapper.
Context {num : Type} {M : CoordinateMapper num}.

(** [bboxToBounds], the same text in both versions. *)
Definition bboxToBounds (bbox : BBox num) (zoom : Z) : Bounds :=
  let south := latToTile (bbox0 bbox) zoom in
  let west := lngToTile (bbox1 bbox) zoom in
  let north := latToTile (bbox2 bbox) zoom in
  let east := lngToTile (bbox3 bbox) zoom in
  mkBounds north west south east.

(** The cursor [getTiles] starts from, the same text in both versions:
    [coords = { z: options.zoom.min, x: bounds.west, y: bounds.north }],
    [count = 0]. *)
Definition initial_cursor (options : Options num) : Cursor :=
  let z := zoom_min options in
  let bounds := bboxToBounds (bbox options) z in
  let x := west bounds in
  let y := north bounds in
  mkCursor (mkCoords z x y) bounds 0.

(** The number of tiles of the rectangle of one zoom level, and the closed
    form of the number of tiles of a run. *)
Definition tiles_at (options : Options num) (z : Z) : Z :=
  let b := bboxToBounds (bbox options) z in
  (east b - west b + 1) * (south b - north b + 1).

Definition closed_form (options : Options num) : Z :=
  Zsum (map (tiles_at options) (Zrange (zoom_min options) (zoom_max options))).

(** The tiles of a run in nested order: zoom levels ascending, in a zoom level
    the columns west to east, in a column the rows north to south. *)
Definition column (z x : Z) (b : Bounds) : list Coords :=
  map (fun y => mkCoords z x y) (Zrange (north b) (south b)).

Definition rectangle (z : Z) (b : Bounds) : list Coords :=
  flat_map (fun x => column z x b) (Zrange (west b) (east b)).

Definition nested_order (options : Options num) : list Coords :=
  flat_map (fun z => rectangle z (bboxToBounds (bbox options) z))
           (Zrange (zoom_min options) (zoom_max options)).

End WithMapper.

(** How many more cursor positions a walk visits (an upper bound for
    rectangles that are not well formed): the rest of the current column, the
    columns east of it, and one step per zoom level still to come. It is the
    fuel of the definitions below that follow the code until it stops. *)
Definition zoom_budget (b : Bounds) (c : Coords) : nat :=
  (Z.to_nat (south b - cy c) +
   Z.to_nat (east b - cx c) * (1 + Z.to_nat (south b - north b)))%nat.

Section WithMapper.
Context {num : Type} {M : CoordinateMapper num}.

Definition seed_budget (options : Options num) (z : Z) : nat :=
  let b := bboxToBounds (bbox options) z in
  S (zoom_budget b (mkCoords z (west b) (north b))).

Definition later_budget (options : Options num) (z : Z) : nat :=
  list_sum (map (seed_budget options) (Zrange (z + 1) (zoom_max options))).

Definition budget (options : Options num) (cur : Cursor) : nat :=
  (zoom_budget (bounds cur) (coords cur) + 1 +
   later_budget options (cz (coords cur)))%nat.

End WithMapper.

(** ** The sequential version *)

Module Sequential.

(** [getTile]: the tile always goes to [{output}/{z}/{x}/{y}.png]. *)
Definition getTile (env : Env) (fs : FS) (templateUrl output : string)
  (coords : Coords) : TileOutcome :=
  let url := templateToUrl templateUrl coords in
  let path := join_path output (Number_toString (cz coords)) in
  let (ok, fs) := createDir env fs path in
  if negb ok then mkOutcome (Some (pathError path)) [] fs else
  let path := join_path path (Number_toString (cx coords)) in
  let (ok, fs) := createDir env fs path in
  if negb ok then mkOutcome (Some (pathError path)) [] fs else
  let image := String.append (join_path path (Number_toString (cy coords))) ".png" in
  if existsSync fs image then mkOutcome None [] fs
  else mkOutcome None [url] (if axios_fulfils env url then image :: fs else fs).

(** What [tileGetCallback] ends with: it calls the caller's [callback] with
    the error, it calls [getTile] again on the moved cursor, or it returns at
    the end of the walk. *)
Inductive Continuation : Type :=
| CallCallback (err : string)
| CallGetTile (cur : Cursor)
| Return (cur : Cursor).

Section WithMapper.
Context {num : Type} {M : CoordinateMapper num}.

Definition tileGetCallback (options : Options num) (cur : Cursor)
  (err : option string) : Continuation :=
  match err with
  | Some e => CallCallback e
  | None =>
      let count := count cur + 1 in
      let bounds := bounds cur in
      let z := cz (coords cur) in
      let x := cx (coords cur) in
      let y := cy (coords cur) + 1 in
      if y <=? south bounds then CallGetTile (mkCursor (mkCoords z x y) bounds count)
      else
        let x := x + 1 in
        let y := north bounds in
        if x <=? east bounds then CallGetTile (mkCursor (mkCoords z x y) bounds count)
        else
          let z := z + 1 in
          let bounds := bboxToBounds (bbox options) z in
          let x := west bounds in
          let y := north bounds in
          if z <=? zoom_max options
          then CallGetTile (mkCursor (mkCoords z x y) bounds count)
          else Return (mkCursor (mkCoords z x y) bounds count)
  end.

(** The state of a run of [getTiles]: the cursor, the file system, the tiles
    [getTile] was called on and the URLs requested (oldest first), the
    arguments of the calls of the caller's [callback], and whether the run has
    come to its end. *)
Record Run : Type := mkRun {
  cursor : Cursor;
  files : FS;
  tiles : list Coords;
  requests : list string;
  returned : list (option string);
  ended : bool
}.

(** The chain [getTile -> tileGetCallback -> getTile -> ...], at most [fuel]
    calls of [getTile]. [getTile] builds the URL and the image path from
    [coords] when it is called, before [tileGetCallback] moves [coords]. *)
Fixpoint walk (fuel : nat) (env : Env) (options : Options num) (st : Run) : Run :=
  match fuel with
  | O => st
  | S fuel' =>
      let out := getTile env (files st) (url options) (output options)
                         (coords (cursor st)) in
      let tiles := tiles st ++ [coords (cursor st)] in
      let requests := requests st ++ requested out in
      match tileGetCallback options (cursor st) (callback_err out) with
      | CallCallback e =>
          mkRun (cursor st) (fs_after out) tiles requests
                (returned st ++ [Some e]) true
      | Return cur =>
          mkRun cur (fs_after out) tiles requests (returned st) true
      | CallGetTile cur =>
          walk fuel' env options
               (mkRun cur (fs_after out) tiles requests (returned st) false)
      end
  end.

Definition getTiles_fuel (fuel : nat) (env : Env) (options : Options num)
  (fs : FS) : Run :=
  let cur := initial_cursor options in
  let (ok, fs) := createDir env fs (output options) in
  if negb ok
  then mkRun cur fs [] [] [Some (pathError (output options))] true
  else walk fuel env options (mkRun cur fs [] [] [] false).

(** [getTiles]: the run followed to its end. *)
Definition getTiles (env : Env) (options : Options num) (fs : FS) : Run :=
  getTiles_fuel (budget options (initial_cursor options)) env options fs.

End WithMapper.
End Sequential.

(** ** The cluster version *)

Module Cluster.

(** [numCPUs = require("os").cpus().length || 1], from the number of entries
    of [os.cpus()]. *)
Definition numCPUs (os_cpus_length : nat) : nat :=
  match os_cpus_length with
  | O => 1%nat
  | S _ => os_cpus_length
  end.

Definition VALID_FORMATS : list string :=
  ["png"%string; "jpg"%string; "jpeg"%string].

(** [Job]: the message the master sends to a worker. [worker.send] serialises
    the message when it is called, so a job carries the value [coords] has at
    that moment. *)
Record Job : Type := mkJob {
  job_url : string;
  job_output : string;
  job_verbose : bool;
  job_referrer : option string;
  job_coords : Coords;
  job_format : string;
  job_worker : option nat
}.

(** The report a worker sends back: [{ url, success: !!err, err }]. *)
Record Message : Type := mkMessage {
  msg_url : string;
  msg_success : bool;
  msg_err : option string
}.

(** [getTile]: the tile goes to [{output}/{z}/{x}/{y}.{format}]; the referrer
    is sent as a header and does not decide what the function does. *)
Definition getTile (env : Env) (fs : FS) (templateUrl output : string)
  (coords : Coords) (referrer : option string) (format : string) : TileOutcome :=
  let url := templateToUrl templateUrl coords in
  let path := join_path output (Number_toString (cz coords)) in
  let (ok, fs) := createDir env fs path in
  if negb ok then mkOutcome (Some (pathError path)) [] fs else
  let path := join_path path (Number_toString (cx coords)) in
  let (ok, fs) := createDir env fs path in
  if negb ok then mkOutcome (Some (pathError path)) [] fs else
  let image :=
    String.append (join_path path (Number_toString (cy coords)))
                  (String.append "." format) in
  if existsSync fs image then mkOutcome None [] fs
  else mkOutcome None [url] (if axios_fulfils env url then image :: fs else fs).

(** The handler of a worker process: run [getTile] on the job, report. *)
Definition worker_onMessage (env : Env) (fs : FS) (msg : Job)
  : Message * TileOutcome :=
  let out := getTile env fs (job_url msg) (job_output msg) (job_coords msg)
                     (job_referrer msg) (job_format msg) in
  let err := callback_err out in
  (mkMessage (job_url msg) (match err with Some _ => true | None => false end) err,
   out).

(** The state of a run: the master's cursor and its counter [stopped], the
    ids of the forked workers, the job each busy worker holds, every
    [worker.send] so far (oldest first), whether the workers were killed, the
    arguments of the calls of the caller's [callback], the file system and
    the URLs requested so far. *)
Record System : Type := mkSystem {
  cursor : Cursor;
  stopped : nat;
  workers : list nat;
  pending : list (nat * Job);
  sent : list (nat * Job);
  killed : bool;
  returned : list (option string);
  files : FS;
  requests : list string
}.

Definition pending_job (w : nat) (p : list (nat * Job)) : option Job :=
  option_map snd (find (fun e => Nat.eqb (fst e) w) p).

Definition remove_pending (w : nat) (p : list (nat * Job)) : list (nat * Job) :=
  filter (fun e => negb (Nat.eqb (fst e) w)) p.

Section WithMapper.
Context {num : Type} {M : CoordinateMapper num}.

(** [format]: [options.format] when it is one of [VALID_FORMATS], else png. *)
Definition tile_format (options : Options num) : string :=
  match format options with
  | Some f => if existsb (String.eqb f) VALID_FORMATS then f else "png"%string
  | None => "png"%string
  end.

(** The object literal the code builds in four places. *)
Definition job_of (options : Options num) (coords : Coords)
  (worker : option nat) : Job :=
  mkJob (url options) (output options) (verbose options)
        (match referrer options with
         | Some r => if String.eqb r EmptyString then None else Some r
         | None => None
         end)
        coords (tile_format options) worker.

(** [getNextJob]: the job it returns ([None] when it returns nothing) and the
    cursor afterwards. *)
Definition getNextJob (options : Options num) (cur : Cursor)
  : option Job * Cursor :=
  if zoom_max options <? cz (coords cur) then (None, cur)
  else
    let count := count cur + 1 in
    let bounds := bounds cur in
    let z := cz (coords cur) in
    let x := cx (coords cur) in
    let y := cy (coords cur) + 1 in
    if y <=? south bounds
    then (Some (job_of options (mkCoords z x y) None),
          mkCursor (mkCoords z x y) bounds count)
    else
      let x := x + 1 in
      let y := north bounds in
      if x <=? east bounds
      then (Some (job_of options (mkCoords z x y) None),
            mkCursor (mkCoords z x y) bounds count)
      else
        let z := z + 1 in
        let bounds := bboxToBounds (bbox options) z in
        let x := west bounds in
        let y := north bounds in
        if z <=? zoom_max options
        then (Some (job_of options (mkCoords z x y) None),
              mkCursor (mkCoords z x y) bounds count)
        else (None, mkCursor (mkCoords z x y) bounds count).

(** [stopChildProcesses]: once it has been called [numCPUs] times the workers
    are killed and the caller's [callback] is called without an argument. *)
Definition stopChildProcesses (numCPUs : nat) (sys : System) : System :=
  let stopped := S (stopped sys) in
  if (stopped <? numCPUs)%nat
  then mkSystem (cursor sys) stopped (workers sys) (pending sys) (sent sys)
                (killed sys) (returned sys) (files sys) (requests sys)
  else mkSystem (cursor sys) stopped (workers sys) (pending sys) (sent sys)
                true (returned sys ++ [None]) (files sys) (requests sys).

(** The master's handler of a worker's report: whatever the report says (an
    error is printed), the next job is taken from [getNextJob] and sent to the
    worker that reported; when there is none, [stopChildProcesses]. *)
Definition master_onMessage (numCPUs : nat) (options : Options num)
  (worker : nat) (msg : Message) (sys : System) : System :=
  let (nextJob, cur) := getNextJob options (cursor sys) in
  match nextJob with
  | Some job =>
      mkSystem cur (stopped sys) (workers sys)
               ((worker, job) :: remove_pending worker (pending sys))
               (sent sys ++ [(worker, job)])
               (killed sys) (returned sys) (files sys) (requests sys)
  | None =>
      stopChildProcesses numCPUs
        (mkSystem cur (stopped sys) (workers sys)
                  (remove_pending worker (pending sys)) (sent sys)
                  (killed sys) (returned sys) (files sys) (requests sys))
  end.

(** [getTiles] in the master, up to the end of the loop that sends every
    forked worker its first job. The workers have the ids [1 .. numCPUs]. *)
Definition getTiles (env : Env) (numCPUs : nat) (options : Options num)
  (fs : FS) : System :=
  let cur := initial_cursor options in
  let (ok, fs) := createDir env fs (output options) in
  if negb ok
  then mkSystem cur 0 [] [] [] false [Some (pathError (output options))] fs []
  else
    let ids := seq 1 numCPUs in
    let jobs := map (fun id => (id, job_of options (coords cur) (Some id))) ids in
    mkSystem cur 0 ids jobs jobs false [] fs [].

(** One event of the run: worker [w] finishes the job it holds (its
    [getTile] runs on the file system as it is then) and the master handles
    the report. Nothing happens when [w] holds no job or was killed. *)
Definition deliver (env : Env) (numCPUs : nat) (options : Options num)
  (sys : System) (w : nat) : System :=
  if killed sys then sys
  else match pending_job w (pending sys) with
       | None => sys
       | Some job =>
           let (msg, out) := worker_onMessage env (files sys) job in
           master_onMessage numCPUs options w msg
             (mkSystem (cursor sys) (stopped sys) (workers sys) (pending sys)
                       (sent sys) (killed sys) (returned sys)
                       (fs_after out) (requests sys ++ requested out))
       end.

(** A run: [getTiles], then the reports in the order [schedule] gives. *)
Definition run (env : Env) (numCPUs : nat) (options : Options num) (fs : FS)
  (schedule : list nat) : System :=
  fold_left (deliver env numCPUs options) schedule
            (getTiles env numCPUs options fs).

(** The jobs [getNextJob] returns when it is called again and again, at most
    [fuel] times, and the cursor it ends with. *)
Fixpoint next_jobs (fuel : nat) (options : Options num) (cur : Cursor)
  : list Job * Cursor :=
  match fuel with
  | O => ([], cur)
  | S fuel' =>
      match getNextJob options cur with
      | (Some job, cur') =>
          let (jobs, last) := next_jobs fuel' options cur' in (job :: jobs, last)
      | (None, cur') => ([], cur')
      end
  end.

(** Every job of the iterator: the calls are repeated until one returns
    nothing. *)
Definition all_jobs (options : Options num) : list Job * Cursor :=
  let cur := initial_cursor options in
  next_jobs (budget options cur) options cur.

(** The addresses of a run in the order they are issued by the iterator: the
    seed, then the addresses of the jobs of [getNextJob]. *)
Definition addresses (options : Options num) : list Coords :=
  coords (initial_cursor options) :: map job_coords (fst (all_jobs options)).

End WithMapper.
End Cluster.

(** ** Notions the statements use *)

(** The invariant of a tile rectangle: rows grow southward, columns
    eastward. *)
Definition well_formed (b : Bounds) : Prop :=
  west b <= east b /\ north b <= south b.

(** The order of the addresses: by zoom level, then column, then row. *)
Definition lex_lt (a b : Coords) : Prop :=
  cz a < cz b \/
  (cz a = cz b /\ (cx a < cx b \/ (cx a = cx b /\ cy a < cy b))).

Section WithMapper.
Context {num : Type} {M : CoordinateMapper num}.

(** The rectangle of every zoom level of the run is well formed. *)
Definition well_formed_run (options : Options num) : Prop :=
  forall z, zoom_min options <= z <= zoom_max options ->
            well_formed (bboxToBounds (bbox options) z).

(** The cursor stands on a tile of the rectangle of its zoom level. *)
Definition on_tile (options : Options num) (cur : Cursor) : Prop :=
  bounds cur = bboxToBounds (bbox options) (cz (coords cur)) /\
  zoom_min options <= cz (coords cur) <= zoom_max options /\
  west (bounds cur) <= cx (coords cur) <= east (bounds cur) /\
  north (bounds cur) <= cy (coords cur) <= south (bounds cur).

(** The tiles that follow the cursor in nested order. *)
Definition rest_of (options : Options num) (cur : Cursor) : list Coords :=
  let c := coords cur in
  let b := bounds cur in
  map (fun y => mkCoords (cz c) (cx c) y) (Zrange (cy c + 1) (south b)) ++
  flat_map (fun x => column (cz c) x b) (Zrange (cx c + 1) (east b)) ++
  flat_map (fun z => rectangle z (bboxToBounds (bbox options) z))
           (Zrange (cz c + 1) (zoom_max options)).

(** The movement of the cursor that [getNextJob] and [tileGetCallback] have
    in common (the same lines in both): the moved cursor, and whether it
    stands on a tile to fetch. *)
Definition advance (options : Options num) (cur : Cursor) : bool * Cursor :=
  let count := count cur + 1 in
  let bounds := bounds cur in
  let z := cz (coords cur) in
  let x := cx (coords cur) in
  let y := cy (coords cur) + 1 in
  if y <=? south bounds then (true, mkCursor (mkCoords z x y) bounds count)
  else
    let x := x + 1 in
    let y := north bounds in
    if x <=? east bounds then (true, mkCursor (mkCoords z x y) bounds count)
    else
      let z := z + 1 in
      let bounds := bboxToBounds (bbox options) z in
      let x := west bounds in
      let y := north bounds in
      (z <=? zoom_max options, mkCursor (mkCoords z x y) bounds count).

(** How many jobs [getNextJob] still returns from a cursor. *)
Definition jobs_left (options : Options num) (cur : Cursor) : nat :=
  if zoom_max options <? cz (coords cur) then O
  else pred (budget options cur).

(** The first jobs of a cluster run: one per worker, each with the address the
    cursor starts from. *)
Definition first_jobs (options : Options num) (numCPUs : nat)
  : list (nat * Cluster.Job) :=
  map (fun id => (id, Cluster.job_of options (coords (initial_cursor options)) (Some id)))
      (seq 1 numCPUs).

(** What holds of the master's state all along a run that got past the
    creation of the output directory: what was sent is the first jobs followed
    by the jobs of some number of calls of [getNextJob], each worker holds at
    most one job, a worker either holds a job or was counted by
    [stopChildProcesses], and the workers are killed exactly when all were
    counted. *)
Record run_invariant (numCPUs : nat) (options : Options num)
  (sys : Cluster.System) : Prop := {
  inv_sent :
    exists (k : nat) (later : list (nat * Cluster.Job)),
      Cluster.sent sys = first_jobs options numCPUs ++ later /\
      map snd later = fst (Cluster.next_jobs k options (initial_cursor options)) /\
      Cluster.cursor sys = snd (Cluster.next_jobs k options (initial_cursor options));
  inv_pending : NoDup (map fst (Cluster.pending sys));
  inv_workers :
    (Cluster.stopped sys + List.length (Cluster.pending sys) = numCPUs)%nat;
  inv_killed :
    Cluster.killed sys = negb (Cluster.stopped sys <? numCPUs)%nat;
  inv_stopped :
    (1 <= Cluster.stopped sys)%nat ->
    zoom_max options < cz (coords (Cluster.cursor sys));
  inv_returned :
    Cluster.returned sys = if Cluster.killed sys then [None] else []
}.

(** What is left of a run: the jobs the iterator still returns and the jobs
    the workers hold. *)
Definition events_left (options : Options num) (sys : Cluster.System) : nat :=
  (jobs_left options (Cluster.cursor sys) + List.length (Cluster.pending sys))%nat.

(** An event that does something: the run is not over and the worker holds a
    job. A schedule is a list of such events. *)
Definition productive (sys : Cluster.System) (w : nat) : Prop :=
  Cluster.killed sys = false /\
  Cluster.pending_job w (Cluster.pending sys) <> None.

Fixpoint productive_schedule (env : Env) (numCPUs : nat) (options : Options num)
  (sys : Cluster.System) (schedule : list nat) : Prop :=
  match schedule with
  | [] => True
  | w :: rest =>
      productive sys w /\
      productive_schedule env numCPUs options
        (Cluster.deliver env numCPUs options sys w) rest
  end.

End WithMapper.

(** The directories of a tile, [{output}/{z}] and [{output}/{z}/{x}], and its
    destination, [{output}/{z}/{x}/{y}.{format}]. *)
Definition zoom_dir (output : string) (c : Coords) : string :=
  join_path output (Number_toString (cz c)).

Definition column_dir (output : string) (c : Coords) : string :=
  join_path (zoom_dir output c) (Number_toString (cx c)).

Definition tile_path (output : string) (c : Coords) (format : string) : string :=
  String.append (join_path (column_dir output c) (Number_toString (cy c)))
                (String.append "." format).

(** Two strings that differ in one of their first characters. *)
Ltac string_clash :=
  let H := fresh in
  intros ? H; injection H; intros; subst;
  first [contradiction | discriminate | congruence].

(** The placeholder [{l}] of a letter [l], and the characters of a printed
    integer. *)
Definition placeholder (l : ascii) : string :=
  String "{" (String l (String "}" EmptyString)).

Definition number_char (ch : ascii) : bool :=
  Ascii.eqb ch "-" ||
  ((48 <=? nat_of_ascii ch)%nat && (nat_of_ascii ch <=? 57)%nat).

Fixpoint number_chars (s : string) : bool :=
  match s with
  | EmptyString => true
  | String ch s' => number_char ch && number_chars s'
  end.

(** A text without an opening brace, so without a placeholder. *)
Fixpoint no_brace (s : string) : bool :=
  match s with
  | EmptyString => true
  | String ch s' => negb (Ascii.eqb ch "{") && no_brace s'
  end.

(** The path [p] is the directory [dir] or lies under it. *)
Definition inside (dir p : string) : bool :=
  String.eqb p dir || String.prefix (String.append dir "/") p.

Section WithMapper.
Context {num : Type} {M : CoordinateMapper num}.

(** A job of the run: built from [options] for an address of the iterator. *)
Definition job_known (options : Options num) (job : Cluster.Job) : Prop :=
  exists c worker,
    job = Cluster.job_of options c worker /\ In c (Cluster.addresses options).

End WithMapper.

(** [options] with another [zoom.max]. *)
Definition with_zoom_max {num : Type} (options : Options num) (zmax : Z) : Options num :=
  mkOptions (url options) (bbox options) (output options) (zoom_min options) zmax
            (referrer options) (verbose options) (format options).

(** ** The resolution of a template, read from left to right *)

(** The placeholders that are still to be replaced, each letter with the text
    that replaces its placeholder. *)
Definition Pending : Type := list (ascii * string).

Definition pending_text (l : ascii) (todo : Pending) : option string :=
  option_map snd (find (fun e => Ascii.eqb (fst e) l) todo).

Definition without (l : ascii) (todo : Pending) : Pending :=
  filter (fun e => negb (Ascii.eqb (fst e) l)) todo.

(** The resolution of a template as the specification words it: the
    template is read from left to right; where a placeholder stands that was
    not met before, its text is written in its place; every other character,
    so also every later occurrence of a placeholder, is copied. *)
Fixpoint replace_each_first (todo : Pending) (s : string) : string :=
  match s with
  | EmptyString => EmptyString
  | String c s' =>
      match s' with
      | String l (String r rest) =>
          if Ascii.eqb c "{" && Ascii.eqb r "}" then
            match pending_text l todo with
            | Some text => String.append text (replace_each_first (without l todo) rest)
            | None => String c (replace_each_first todo s')
            end
          else String c (replace_each_first todo s')
      | _ => String c (replace_each_first todo s')
      end
  end.

Definition first_occurrences_replaced (url : string) (coords : Coords) : string :=
  replace_each_first [("z"%char, Number_toString (cz coords));
                      ("y"%char, Number_toString (cy coords));
                      ("x"%char, Number_toString (cx coords))] url.

(** The letters and texts of a [Pending]: a letter is neither a brace nor a
    character of a printed integer, a text is a printed integer. *)
Definition letter (l : ascii) : Prop :=
  l <> "{"%char /\ l <> "}"%char /\ number_char l = false.

Definition printed (text : string) : Prop :=
  number_chars text = true /\ text <> EmptyString.

Definition well_formed_pending (todo : Pending) : Prop :=
  Forall (fun e => letter (fst e) /\ printed (snd e)) todo.

(** ** The runtime: a rejection without a handler *)

(** How a promise settles. *)
Inductive Settled : Type := fulfilled | rejected.

(** The promise [getTile] leaves behind when it has made its request,
    [axios(...).then(res => ...).finally(() => callback())]. [then] with one
    handler and [finally] pass a rejection on: when the request is rejected
    the handler of [then] is skipped, the handler of [finally] calls
    [callback], and the promise of the chain is rejected. The chain has no
    [catch] and [getTile] does not return the promise, so nothing handles the
    rejection. When [getTile] returns before the request there is no
    promise. *)
Definition getTile_promise (env : Env) (out : TileOutcome) : option Settled :=
  match requested out with
  | [] => None
  | url :: _ => Some (if axios_fulfils env url then fulfilled else rejected)
  end.

(** What Node does with a rejection that nothing handles, its mode
    [--unhandled-rejections]: [warn] prints a warning and goes on; [throw],
    the default since Node 15, raises it as an uncaught exception, which ends
    the process when no handler for uncaught exceptions is installed (the
    code installs none). *)
Inductive UnhandledRejections : Type := mode_warn | mode_throw.

(** The runtime of a worker process: the mode, and whether the report that
    the worker sends from the handler of [finally] still reaches the master
    when the process ends right after it. *)
Record Runtime : Type := mkRuntime {
  unhandled_rejections : UnhandledRejections;
  report_before_exit : bool
}.

Definition process_exits (rt : Runtime) (p : option Settled) : bool :=
  match unhandled_rejections rt, p with
  | mode_throw, Some rejected => true
  | _, _ => false
  end.

(** A run of the cluster version in a runtime: the state of the run, and the
    workers whose process has ended. A worker that has ended runs no job and
    sends no report; the master is not told (its handler of [exit] is
    empty) and goes on sending to it. *)
Module Host.

Record State : Type := mkState { master : Cluster.System; exited : list nat }.

Section WithMapper.
Context {num : Type} {M : CoordinateMapper num}.

(** One event: worker [w] finishes the job it holds. Its report is handled
    by the master as in [Cluster.deliver]; when the promise of its [getTile]
    is rejected and the runtime raises that, the process of [w] ends, and
    the report may be lost with it. *)
Definition deliver (rt : Runtime) (env : Env) (numCPUs : nat) (options : Options num)
  (st : State) (w : nat) : State :=
  if existsb (Nat.eqb w) (exited st) then st
  else if Cluster.killed (master st) then st
  else match Cluster.pending_job w (Cluster.pending (master st)) with
       | None => st
       | Some job =>
           let sys := master st in
           let out := snd (Cluster.worker_onMessage env (Cluster.files sys) job) in
           if process_exits rt (getTile_promise env out) then
             mkState
               (if report_before_exit rt
                then Cluster.deliver env numCPUs options sys w
                else Cluster.mkSystem (Cluster.cursor sys) (Cluster.stopped sys)
                       (Cluster.workers sys) (Cluster.pending sys) (Cluster.sent sys)
                       (Cluster.killed sys) (Cluster.returned sys)
                       (fs_after out) (Cluster.requests sys ++ requested out))
               (w :: exited st)
           else mkState (Cluster.deliver env numCPUs options sys w) (exited st)
       end.

Definition run (rt : Runtime) (env : Env) (numCPUs : nat) (options : Options num)
  (fs : FS) (schedule : list nat) : State :=
  fold_left (deliver rt env numCPUs options) schedule
            (mkState (Cluster.getTiles env numCPUs options fs) []).

End WithMapper.
End Host.

(** ** A small run, for the examples *)

(** The box from the equator to 45 degrees north and from Greenwich to 90
    degrees east, at zoom level 1: the two tiles (1, 1, 0) and (1, 1, 1). *)
Definition example_options : Options R :=
  mkOptions "https://b.tile.openstreetmap.org/{z}/{x}/{y}.png"
            (mkBBox 0%R 0%R 45%R 90%R) "tiles" 1 1 None true None.

(** The same box at the zoom levels 0 and 1: the tile (0, 0, 0), then the two
    tiles of zoom level 1. *)
Definition example_two_zooms : Options R :=
  mkOptions "https://b.tile.openstreetmap.org/{z}/{x}/{y}.png"
            (mkBBox 0%R 0%R 45%R 90%R) "tiles" 0 1 None true None.

(** A box across the antimeridian, from 170 degrees east to 170 degrees west,
    at zoom level 1: its west column is 1 and its east column is 0. *)
Definition antimeridian_options : Options R :=
  mkOptions "https://b.tile.openstreetmap.org/{z}/{x}/{y}.png"
            (mkBBox 0%R 170%R 45%R (-170)%R) "tiles" 1 1 None true None.

(** The box from the equator to 45 degrees north and from 90 degrees west
    to 90 degrees east, at zoom level 1: two columns, 0 and 1. *)
Definition two_columns_options : Options R :=
  mkOptions "https://b.tile.openstreetmap.org/{z}/{x}/{y}.png"
            (mkBBox 0%R (-90)%R 45%R 90%R) "tiles" 1 1 None true None.

(** Every directory can be created and every request is fulfilled. *)
Definition example_env : Env := mkEnv (fun _ _ => None) (fun _ => true).

(** Every directory can be created and every request fails. *)
Definition offline_env : Env := mkEnv (fun _ _ => None) (fun _ => false).

(** No directory can be created. *)
Definition readonly_env : Env := mkEnv (fun _ _ => Some "EACCES"%string) (fun _ => true).

(** Every directory can be created but [tiles/1]. *)
Definition no_zoom_dir_env : Env :=
  mkEnv (fun _ path => if String.eqb path "tiles/1" then Some "EACCES"%string else None)
        (fun _ => true).

(* ================================================================== *)
(** * Part II: the proofs *)
(* ================================================================== *)

(** ** Ranges of integers *)

Lemma Zrange_nil (first last : Z) : last < first -> Zrange first last = [].
Proof.
  intros H. unfold Zrange.
  replace (Z.to_nat (last - first + 1)) with O by lia. reflexivity.
Qed.

Lemma Zrange_cons (first last : Z) :
  first <= last -> Zrange first last = first :: Zrange (first + 1) last.
Proof.
  intros H. unfold Zrange.
  replace (Z.to_nat (last - first + 1)) with (S (Z.to_nat (last - (first + 1) + 1)))
    by lia.
  cbn [seq map]. f_equal; [lia|].
  rewrite <- seq_shift, map_map. apply map_ext. intros i. lia.
Qed.

Lemma Zrange_length (first last : Z) :
  List.length (Zrange first last) = Z.to_nat (last - first + 1).
Proof. unfold Zrange. now rewrite length_map, length_seq. Qed.

Lemma Zrange_In (first last v : Z) :
  In v (Zrange first last) <-> first <= v <= last.
Proof.
  unfold Zrange. rewrite in_map_iff. split.
  - intros (i & <- & Hi). apply in_seq in Hi. lia.
  - intros Hv. exists (Z.to_nat (v - first)). split; [lia|].
    apply in_seq. lia.
Qed.

Lemma Zsum_app (l1 l2 : list Z) : Zsum (l1 ++ l2) = Zsum l1 + Zsum l2.
Proof. induction l1 as [|a l1 IH]; cbn; [reflexivity|]. unfold Zsum in *. cbn. lia. Qed.

(** ** The movement of the cursor *)

Section CursorFacts.
Context {num : Type} {M : CoordinateMapper num}.
Variable options : Options num.

Lemma getNextJob_advance (cur : Cursor) :
  Cluster.getNextJob options cur =
  if zoom_max options <? cz (coords cur) then (None, cur)
  else (if fst (advance options cur)
        then Some (Cluster.job_of options (coords (snd (advance options cur))) None)
        else None,
        snd (advance options cur)).
Proof.
  unfold Cluster.getNextJob, advance.
  destruct (zoom_max options <? cz (coords cur)); [reflexivity|].
  destruct (cy (coords cur) + 1 <=? south (bounds cur)); [reflexivity|].
  destruct (cx (coords cur) + 1 <=? east (bounds cur)); [reflexivity|].
  cbn [fst snd].
  destruct (cz (coords cur) + 1 <=? zoom_max options); reflexivity.
Qed.

Lemma tileGetCallback_advance (cur : Cursor) :
  Sequential.tileGetCallback options cur None =
  if fst (advance options cur)
  then Sequential.CallGetTile (snd (advance options cur))
  else Sequential.Return (snd (advance options cur)).
Proof.
  unfold Sequential.tileGetCallback, advance.
  destruct (cy (coords cur) + 1 <=? south (bounds cur)); [reflexivity|].
  destruct (cx (coords cur) + 1 <=? east (bounds cur)); [reflexivity|].
  cbn [fst snd].
  destruct (cz (coords cur) + 1 <=? zoom_max options); reflexivity.
Qed.

Lemma later_budget_step (z : Z) :
  z + 1 <= zoom_max options ->
  later_budget options z =
  (seed_budget options (z + 1) + later_budget options (z + 1))%nat.
Proof.
  intros H. unfold later_budget. rewrite (Zrange_cons (z + 1)) by lia.
  reflexivity.
Qed.

Lemma later_budget_done (z : Z) :
  zoom_max options < z + 1 -> later_budget options z = O.
Proof. intros H. unfold later_budget. now rewrite Zrange_nil by lia. Qed.

Lemma advance_count (cur : Cursor) :
  count (snd (advance options cur)) = count cur + 1.
Proof.
  unfold advance.
  destruct (cy (coords cur) + 1 <=? south (bounds cur)); [reflexivity|].
  destruct (cx (coords cur) + 1 <=? east (bounds cur)); reflexivity.
Qed.

Lemma advance_lex (cur : Cursor) :
  lex_lt (coords cur) (coords (snd (advance options cur))).
Proof.
  unfold advance, lex_lt.
  destruct (cy (coords cur) + 1 <=? south (bounds cur)); cbn; [lia|].
  destruct (cx (coords cur) + 1 <=? east (bounds cur)); cbn; lia.
Qed.

Lemma advance_zoom (cur : Cursor) :
  fst (advance options cur) = true ->
  cz (coords cur) <= zoom_max options ->
  cz (coords (snd (advance options cur))) <= zoom_max options.
Proof.
  unfold advance.
  destruct (cy (coords cur) + 1 <=? south (bounds cur)); cbn; [lia|].
  destruct (cx (coords cur) + 1 <=? east (bounds cur)); cbn; lia.
Qed.

Lemma advance_budget_go (cur : Cursor) :
  fst (advance options cur) = true ->
  budget options cur = S (budget options (snd (advance options cur))).
Proof.
  unfold advance, budget, zoom_budget.
  destruct cur as [[z x y] [n w s e] k]. cbn [coords bounds cz cx cy north west south east].
  destruct (Z.leb_spec (y + 1) s) as [Hy|Hy]; cbn [fst snd coords bounds cz cx cy south east north].
  - intros _. replace (Z.to_nat (s - y)) with (S (Z.to_nat (s - (y + 1)))) by lia.
    lia.
  - destruct (Z.leb_spec (x + 1) e) as [Hx|Hx]; cbn [fst snd coords bounds cz cx cy south east north].
    + intros _.
      replace (Z.to_nat (e - x)) with (S (Z.to_nat (e - (x + 1)))) by lia.
      replace (Z.to_nat (s - y)) with O by lia.
      replace (s - n) with (s - n + 0) at 1 by lia.
      rewrite Z.add_0_r. cbn [Nat.mul]. lia.
    + intros Hgo. apply Z.leb_le in Hgo.
      rewrite (later_budget_step z) by lia. unfold seed_budget, zoom_budget.
      cbn [cz cx cy].
      replace (Z.to_nat (e - x)) with O by lia.
      replace (Z.to_nat (s - y)) with O by lia.
      cbn [Nat.mul Nat.add]. lia.
Qed.

Lemma advance_budget_stop (cur : Cursor) :
  fst (advance options cur) = false ->
  budget options cur = 1%nat /\
  zoom_max options < cz (coords (snd (advance options cur))).
Proof.
  unfold advance, budget, zoom_budget.
  destruct cur as [[z x y] [n w s e] k]. cbn [coords bounds cz cx cy north west south east].
  destruct (Z.leb_spec (y + 1) s) as [Hy|Hy]; cbn [fst snd]; [discriminate|].
  destruct (Z.leb_spec (x + 1) e) as [Hx|Hx]; cbn [fst snd]; [discriminate|].
  intros Hgo. apply Z.leb_gt in Hgo. cbn [coords cz].
  rewrite later_budget_done by lia.
  replace (Z.to_nat (e - x)) with O by lia.
  replace (Z.to_nat (s - y)) with O by lia.
  cbn. lia.
Qed.

End CursorFacts.

(** ** The iterator [getNextJob] *)

Section IteratorFacts.
Context {num : Type} {M : CoordinateMapper num}.
Variable options : Options num.

Lemma getNextJob_exhausted (cur : Cursor) :
  zoom_max options < cz (coords cur) ->
  Cluster.getNextJob options cur = (None, cur).
Proof.
  intros H. unfold Cluster.getNextJob.
  destruct (Z.ltb_spec (zoom_max options) (cz (coords cur))); [reflexivity|lia].
Qed.

Lemma getNextJob_Some (cur cur' : Cursor) (job : Cluster.Job) :
  Cluster.getNextJob options cur = (Some job, cur') ->
  cz (coords cur) <= zoom_max options /\
  fst (advance options cur) = true /\
  cur' = snd (advance options cur) /\
  job = Cluster.job_of options (coords cur') None.
Proof.
  rewrite getNextJob_advance.
  destruct (Z.ltb_spec (zoom_max options) (cz (coords cur))); [discriminate|].
  destruct (fst (advance options cur)) eqn:Hgo; [|discriminate].
  intros [= <- <-]. repeat split. lia.
Qed.

Lemma getNextJob_None (cur cur' : Cursor) :
  Cluster.getNextJob options cur = (None, cur') ->
  zoom_max options < cz (coords cur') /\
  (zoom_max options < cz (coords cur) /\ cur' = cur \/
   cz (coords cur) <= zoom_max options /\ fst (advance options cur) = false /\
   cur' = snd (advance options cur)).
Proof.
  rewrite getNextJob_advance.
  destruct (Z.ltb_spec (zoom_max options) (cz (coords cur))).
  - intros [= <-]. split; [assumption|]. left. now split.
  - destruct (fst (advance options cur)) eqn:Hgo; [discriminate|].
    intros [= <-]. split.
    + now apply advance_budget_stop.
    + right. repeat split. lia.
Qed.

(** The jobs follow one another in the order of the addresses, from the
    cursor upward. *)
Lemma lex_lt_trans (a b c : Coords) : lex_lt a b -> lex_lt b c -> lex_lt a c.
Proof. unfold lex_lt. lia. Qed.

Lemma lex_lt_irrefl (a : Coords) : ~ lex_lt a a.
Proof. unfold lex_lt. lia. Qed.

Lemma next_jobs_above (fuel : nat) (cur : Cursor) :
  Forall (fun job => lex_lt (coords cur) (Cluster.job_coords job))
         (fst (Cluster.next_jobs fuel options cur)) /\
  StronglySorted lex_lt
    (map Cluster.job_coords (fst (Cluster.next_jobs fuel options cur))).
Proof.
  revert cur. induction fuel as [|fuel IH]; intros cur; cbn [Cluster.next_jobs].
  - cbn. split; constructor.
  - destruct (Cluster.getNextJob options cur) as [[job|] cur'] eqn:Hnext.
    2:{ cbn. split; constructor. }
    apply getNextJob_Some in Hnext. destruct Hnext as (_ & _ & -> & ->).
    destruct (IH (snd (advance options cur))) as [Habove Hsorted].
    destruct (Cluster.next_jobs fuel options (snd (advance options cur)))
      as [jobs last] eqn:Hrest.
    cbn [fst snd map] in *.
    pose proof (advance_lex options cur) as Hlt.
    split.
    + constructor; [exact Hlt|].
      eapply Forall_impl; [|exact Habove].
      intros j Hj. eapply lex_lt_trans; eassumption.
    + constructor; [exact Hsorted|].
      apply Forall_map. exact Habove.
Qed.

(** With fuel for every remaining position the calls reach the end. *)
Lemma next_jobs_complete (fuel : nat) (cur : Cursor) :
  (budget options cur <= fuel)%nat ->
  zoom_max options < cz (coords (snd (Cluster.next_jobs fuel options cur))) /\
  List.length (fst (Cluster.next_jobs fuel options cur)) = jobs_left options cur /\
  count (snd (Cluster.next_jobs fuel options cur)) =
  count cur + (if zoom_max options <? cz (coords cur) then 0
               else Z.of_nat (budget options cur)).
Proof.
  revert cur. induction fuel as [|fuel IH]; intros cur Hfuel.
  - unfold budget in Hfuel. lia.
  - cbn [Cluster.next_jobs]. unfold jobs_left.
    destruct (Cluster.getNextJob options cur) as [[job|] cur'] eqn:Hnext.
    + apply getNextJob_Some in Hnext. destruct Hnext as (Hz & Hgo & -> & ->).
      pose proof (advance_budget_go options cur Hgo) as Hb.
      pose proof (advance_zoom options cur Hgo Hz) as Hz'.
      pose proof (advance_count options cur) as Hc.
      destruct (IH (snd (advance options cur)) ltac:(lia)) as (H1 & H2 & H3).
      destruct (Cluster.next_jobs fuel options (snd (advance options cur)))
        as [jobs last] eqn:Hrest.
      cbn [fst snd List.length] in *. unfold jobs_left in H2.
      destruct (Z.ltb_spec (zoom_max options) (cz (coords cur))); [lia|].
      destruct (Z.ltb_spec (zoom_max options)
                           (cz (coords (snd (advance options cur))))); [lia|].
      repeat split; try lia.
      rewrite H2, Hb. unfold budget. lia.
    + apply getNextJob_None in Hnext.
      destruct Hnext as (Hz' & [(Hz & ->)|(Hz & Hgo & ->)]); cbn [fst snd List.length].
      * destruct (Z.ltb_spec (zoom_max options) (cz (coords cur))); [|lia].
        repeat split; try assumption; lia.
      * destruct (Z.ltb_spec (zoom_max options) (cz (coords cur))); [lia|].
        destruct (advance_budget_stop options cur Hgo) as [Hb _].
        rewrite Hb, advance_count. repeat split; try assumption; lia.
Qed.

End IteratorFacts.

(** ** The nested order *)

Lemma column_length (z x : Z) (b : Bounds) :
  north b <= south b ->
  Z.of_nat (List.length (column z x b)) = south b - north b + 1.
Proof.
  intros H. unfold column. rewrite length_map, Zrange_length. lia.
Qed.

Lemma flat_map_const_length {A B : Type} (f : A -> list B) (n : nat) (l : list A) :
  (forall a, In a l -> List.length (f a) = n) ->
  List.length (flat_map f l) = (List.length l * n)%nat.
Proof.
  induction l as [|a l IH]; intros H; cbn [flat_map List.length]; [reflexivity|].
  rewrite length_app, H by (now left).
  rewrite IH by (intros a' Ha'; apply H; now right). lia.
Qed.

Lemma rectangle_length (z : Z) (b : Bounds) :
  well_formed b ->
  Z.of_nat (List.length (rectangle z b)) =
  (east b - west b + 1) * (south b - north b + 1).
Proof.
  intros [Hx Hy]. unfold rectangle.
  rewrite (flat_map_const_length _ (Z.to_nat (south b - north b + 1))).
  - rewrite Zrange_length. nia.
  - intros x _. unfold column. now rewrite length_map, Zrange_length.
Qed.

Lemma rectangle_unfold (z : Z) (b : Bounds) :
  well_formed b ->
  rectangle z b =
  mkCoords z (west b) (north b) ::
  map (fun y => mkCoords z (west b) y) (Zrange (north b + 1) (south b)) ++
  flat_map (fun x => column z x b) (Zrange (west b + 1) (east b)).
Proof.
  intros [Hx Hy]. unfold rectangle.
  rewrite (Zrange_cons (west b)) by assumption. cbn [flat_map].
  unfold column at 1. rewrite (Zrange_cons (north b)) by assumption.
  reflexivity.
Qed.

Section NestedOrder.
Context {num : Type} {M : CoordinateMapper num}.
Variable options : Options num.
Hypothesis Hwf : well_formed_run options.

Lemma nested_order_length :
  Z.of_nat (List.length (nested_order options)) = closed_form options.
Proof.
  unfold nested_order, closed_form.
  assert (Hin : forall z, In z (Zrange (zoom_min options) (zoom_max options)) ->
                          zoom_min options <= z <= zoom_max options)
    by (intros z Hz; now apply Zrange_In).
  induction (Zrange (zoom_min options) (zoom_max options)) as [|z l IH];
    cbn [flat_map map Zsum fold_right List.length]; [reflexivity|].
  rewrite length_app, Nat2Z.inj_add, rectangle_length
    by (apply Hwf, Hin; now left).
  rewrite IH by (intros z' Hz'; apply Hin; now right).
  reflexivity.
Qed.

Lemma initial_on_tile :
  zoom_min options <= zoom_max options -> on_tile options (initial_cursor options).
Proof.
  intros Hz. destruct (Hwf (zoom_min options) ltac:(lia)) as [Hx Hy].
  unfold on_tile, initial_cursor. cbn [coords bounds cz cx cy].
  repeat split; try lia; reflexivity.
Qed.

Lemma nested_order_initial :
  zoom_min options <= zoom_max options ->
  nested_order options =
  coords (initial_cursor options) :: rest_of options (initial_cursor options).
Proof.
  intros Hz. unfold nested_order, rest_of, initial_cursor.
  cbn [coords bounds cz cx cy].
  rewrite (Zrange_cons (zoom_min options)) by assumption. cbn [flat_map].
  rewrite rectangle_unfold by (apply Hwf; lia).
  cbn [app]. now rewrite <- app_assoc.
Qed.

Lemma advance_rest_go (cur : Cursor) :
  on_tile options cur ->
  fst (advance options cur) = true ->
  on_tile options (snd (advance options cur)) /\
  rest_of options cur =
  coords (snd (advance options cur)) :: rest_of options (snd (advance options cur)).
Proof.
  destruct cur as [[z x y] [n w s e] k].
  unfold on_tile, advance, rest_of.
  cbn [coords bounds cz cx cy north west south east].
  intros (Hb & Hz & Hx & Hy).
  destruct (Z.leb_spec (y + 1) s) as [Hy1|Hy1];
    cbn [fst snd coords bounds cz cx cy north west south east].
  { intros _. split; [repeat split; try lia; assumption|].
    now rewrite (Zrange_cons (y + 1)) by assumption. }
  destruct (Z.leb_spec (x + 1) e) as [Hx1|Hx1];
    cbn [fst snd coords bounds cz cx cy north west south east].
  { intros _. split; [repeat split; try lia; assumption|].
    rewrite (Zrange_nil (y + 1)) by lia.
    rewrite (Zrange_cons (x + 1)) by assumption. cbn [map flat_map app].
    unfold column at 1. cbn [north south].
    rewrite (Zrange_cons n) by lia. cbn [map app].
    now rewrite <- app_assoc. }
  intros Hgo. apply Z.leb_le in Hgo.
  destruct (Hwf (z + 1) ltac:(lia)) as [Hx' Hy'].
  split; [repeat split; lia|].
  rewrite (Zrange_nil (y + 1)), (Zrange_nil (x + 1)) by lia.
  rewrite (Zrange_cons (z + 1)) by assumption. cbn [map flat_map app].
  rewrite rectangle_unfold by (apply Hwf; lia).
  cbn [app]. now rewrite <- app_assoc.
Qed.

Lemma advance_rest_stop (cur : Cursor) :
  on_tile options cur ->
  fst (advance options cur) = false ->
  rest_of options cur = [].
Proof.
  destruct cur as [[z x y] [n w s e] k].
  unfold on_tile, advance, rest_of.
  cbn [coords bounds cz cx cy north west south east].
  intros (Hb & Hz & Hx & Hy).
  destruct (Z.leb_spec (y + 1) s) as [Hy1|Hy1]; cbn [fst snd]; [discriminate|].
  destruct (Z.leb_spec (x + 1) e) as [Hx1|Hx1]; cbn [fst snd]; [discriminate|].
  intros Hgo. apply Z.leb_gt in Hgo.
  now rewrite !Zrange_nil by lia.
Qed.

Lemma next_jobs_nested (fuel : nat) (cur : Cursor) :
  on_tile options cur ->
  (budget options cur <= fuel)%nat ->
  map Cluster.job_coords (fst (Cluster.next_jobs fuel options cur)) =
  rest_of options cur.
Proof.
  revert cur. induction fuel as [|fuel IH]; intros cur Hon Hfuel.
  - unfold budget in Hfuel. lia.
  - cbn [Cluster.next_jobs].
    destruct (Cluster.getNextJob options cur) as [[job|] cur'] eqn:Hnext.
    + apply getNextJob_Some in Hnext. destruct Hnext as (Hz & Hgo & -> & ->).
      destruct (advance_rest_go cur Hon Hgo) as [Hon' Hrest].
      pose proof (advance_budget_go options cur Hgo) as Hb.
      specialize (IH (snd (advance options cur)) Hon' ltac:(lia)).
      destruct (Cluster.next_jobs fuel options (snd (advance options cur)))
        as [jobs last].
      cbn [fst map] in *. rewrite IH, Hrest. reflexivity.
    + apply getNextJob_None in Hnext.
      destruct Hnext as (_ & [(Hz & _)|(_ & Hgo & _)]).
      * destruct Hon as (_ & Hz' & _). lia.
      * cbn [fst map]. symmetry. now apply advance_rest_stop.
Qed.

End NestedOrder.

(** ** The master of the cluster version *)

Lemma pending_job_In (w : nat) (p : list (nat * Cluster.Job)) (job : Cluster.Job) :
  Cluster.pending_job w p = Some job -> In (w, job) p.
Proof.
  unfold Cluster.pending_job. destruct (find _ p) as [[w' j]|] eqn:Hfind; [|discriminate].
  cbn. intros [= <-]. apply find_some in Hfind. destruct Hfind as [Hin Heq].
  cbn in Heq. apply Nat.eqb_eq in Heq. now subst.
Qed.

Lemma pending_job_None (w : nat) (p : list (nat * Cluster.Job)) :
  Cluster.pending_job w p = None -> ~ In w (map fst p).
Proof.
  unfold Cluster.pending_job. destruct (find _ p) as [e|] eqn:Hfind; [discriminate|].
  intros _ Hin. apply in_map_iff in Hin. destruct Hin as ([w' j] & Hw & Hin).
  cbn in Hw. subst w'.
  pose proof (find_none _ _ Hfind _ Hin) as Hneq. cbn in Hneq.
  now rewrite Nat.eqb_refl in Hneq.
Qed.

Lemma remove_pending_keys (w : nat) (p : list (nat * Cluster.Job)) :
  forall w', In w' (map fst (Cluster.remove_pending w p)) <->
             In w' (map fst p) /\ w' <> w.
Proof.
  intros w'. unfold Cluster.remove_pending. rewrite !in_map_iff. split.
  - intros (e & <- & He). apply filter_In in He. destruct He as [He Hne].
    apply negb_true_iff, Nat.eqb_neq in Hne. split; [now exists e|assumption].
  - intros [(e & <- & He) Hne]. exists e. split; [reflexivity|].
    apply filter_In. split; [assumption|].
    now apply negb_true_iff, Nat.eqb_neq.
Qed.

Lemma remove_pending_NoDup (w : nat) (p : list (nat * Cluster.Job)) :
  NoDup (map fst p) -> NoDup (map fst (Cluster.remove_pending w p)).
Proof.
  induction p as [|[w' j] p IH]; cbn; intros Hnd; [constructor|].
  inversion Hnd as [|? ? Hnotin Hnd']; subst.
  destruct (Nat.eqb w' w); cbn; [now apply IH|].
  constructor; [|now apply IH].
  intros Hin. apply remove_pending_keys in Hin. now apply Hnotin.
Qed.

Lemma remove_pending_absent (w : nat) (p : list (nat * Cluster.Job)) :
  ~ In w (map fst p) -> Cluster.remove_pending w p = p.
Proof.
  induction p as [|[w' j] p IH]; cbn; intros Hnotin; [reflexivity|].
  destruct (Nat.eqb_spec w' w) as [->|Hne]; cbn.
  - exfalso. apply Hnotin. now left.
  - f_equal. apply IH. intros Hin. apply Hnotin. now right.
Qed.

Lemma remove_pending_length (w : nat) (p : list (nat * Cluster.Job)) :
  NoDup (map fst p) -> In w (map fst p) ->
  S (List.length (Cluster.remove_pending w p)) = List.length p.
Proof.
  induction p as [|[w' j] p IH]; cbn; intros Hnd Hin; [contradiction|].
  inversion Hnd as [|? ? Hnotin Hnd']; subst.
  destruct (Nat.eqb_spec w' w) as [->|Hne]; cbn.
  - fold (Cluster.remove_pending w p). now rewrite remove_pending_absent.
  - f_equal. apply IH; [assumption|]. destruct Hin as [Heq|Hin]; [contradiction|assumption].
Qed.

Section MasterFacts.
Context {num : Type} {M : CoordinateMapper num}.
Variable options : Options num.
Variable W : nat.
Hypothesis HW : (1 <= W)%nat.

(** One more call of [getNextJob] after [k] calls. *)
Lemma next_jobs_snoc_Some (k : nat) (cur last last' : Cursor)
  (jobs : list Cluster.Job) (job : Cluster.Job) :
  Cluster.next_jobs k options cur = (jobs, last) ->
  Cluster.getNextJob options last = (Some job, last') ->
  Cluster.next_jobs (S k) options cur = (jobs ++ [job], last').
Proof.
  revert cur jobs. induction k as [|k IH]; intros cur jobs.
  - cbn [Cluster.next_jobs]. intros [= <- <-] Hnext. now rewrite Hnext.
  - intros Hk Hnext. cbn [Cluster.next_jobs] in Hk.
    change (Cluster.next_jobs (S (S k)) options cur) with
      (match Cluster.getNextJob options cur with
       | (Some job0, cur') =>
           let (jobs0, l) := Cluster.next_jobs (S k) options cur' in (job0 :: jobs0, l)
       | (None, cur') => ([], cur')
       end).
    destruct (Cluster.getNextJob options cur) as [[job0|] cur0] eqn:H0.
    + destruct (Cluster.next_jobs k options cur0) as [jobs0 l0] eqn:Hk0.
      injection Hk as <- <-.
      now rewrite (IH cur0 jobs0 Hk0 Hnext).
    + injection Hk as <- <-.
      apply getNextJob_None in H0. destruct H0 as [Hz _].
      rewrite getNextJob_exhausted in Hnext by assumption. discriminate.
Qed.

Lemma next_jobs_snoc_None (k : nat) (cur last last' : Cursor)
  (jobs : list Cluster.Job) :
  Cluster.next_jobs k options cur = (jobs, last) ->
  Cluster.getNextJob options last = (None, last') ->
  Cluster.next_jobs (S k) options cur = (jobs, last').
Proof.
  revert cur jobs. induction k as [|k IH]; intros cur jobs.
  - cbn [Cluster.next_jobs]. intros [= <- <-] Hnext. now rewrite Hnext.
  - intros Hk Hnext. cbn [Cluster.next_jobs] in Hk.
    change (Cluster.next_jobs (S (S k)) options cur) with
      (match Cluster.getNextJob options cur with
       | (Some job0, cur') =>
           let (jobs0, l) := Cluster.next_jobs (S k) options cur' in (job0 :: jobs0, l)
       | (None, cur') => ([], cur')
       end).
    destruct (Cluster.getNextJob options cur) as [[job0|] cur0] eqn:H0.
    + destruct (Cluster.next_jobs k options cur0) as [jobs0 l0] eqn:Hk0.
      injection Hk as <- <-.
      now rewrite (IH cur0 jobs0 Hk0 Hnext).
    + injection Hk as <- <-.
      apply getNextJob_None in H0. destruct H0 as [Hz _].
      rewrite getNextJob_exhausted in Hnext by assumption.
      now injection Hnext as <-.
Qed.

(** The master's handler keeps the invariant, whatever the report says and
    whatever happened to the file system. *)
Lemma master_onMessage_invariant (sys : Cluster.System) (w : nat)
  (msg : Cluster.Message) (fs : FS) (reqs : list string) :
  run_invariant W options sys ->
  Cluster.killed sys = false ->
  In w (map fst (Cluster.pending sys)) ->
  run_invariant W options
    (Cluster.master_onMessage W options w msg
       (Cluster.mkSystem (Cluster.cursor sys) (Cluster.stopped sys)
          (Cluster.workers sys) (Cluster.pending sys) (Cluster.sent sys)
          (Cluster.killed sys) (Cluster.returned sys) fs reqs)).
Proof.
  intros [(k & later & Hsent & Hlater & Hcur) Hnd Hw Hk Hst Hret] Halive Hin.
  unfold Cluster.master_onMessage.
  cbn [Cluster.cursor Cluster.stopped Cluster.workers Cluster.pending
       Cluster.sent Cluster.killed Cluster.returned Cluster.files Cluster.requests].
  rewrite Halive in *.
  apply (f_equal negb) in Hk. rewrite negb_involutive in Hk. cbn in Hk.
  symmetry in Hk. apply Nat.ltb_lt in Hk.
  pose proof (remove_pending_length w _ Hnd Hin) as Hlen.
  destruct (Cluster.getNextJob options (Cluster.cursor sys)) as [[job|] cur'] eqn:Hnext.
  - constructor;
      cbn [Cluster.cursor Cluster.stopped Cluster.workers Cluster.pending
           Cluster.sent Cluster.killed Cluster.returned map fst List.length].
    + exists (S k), (later ++ [(w, job)]).
      rewrite Hcur in Hnext.
      rewrite (next_jobs_snoc_Some k _ _ _ _ _ (surjective_pairing _) Hnext).
      cbn [fst snd]. rewrite Hsent, map_app, Hlater, app_assoc. now cbn.
    + constructor; [|now apply remove_pending_NoDup].
      intros Hin'. apply remove_pending_keys in Hin'. now destruct Hin'.
    + lia.
    + symmetry. apply negb_false_iff. now apply Nat.ltb_lt.
    + intros H1. specialize (Hst H1).
      rewrite getNextJob_exhausted in Hnext by assumption. discriminate.
    + assumption.
  - apply getNextJob_None in Hnext. destruct Hnext as [Hz Hcases].
    unfold Cluster.stopChildProcesses.
    cbn [Cluster.cursor Cluster.stopped Cluster.workers Cluster.pending
         Cluster.sent Cluster.killed Cluster.returned].
    assert (Hsent' : exists (k0 : nat) (later0 : list (nat * Cluster.Job)),
               Cluster.sent sys = first_jobs options W ++ later0 /\
               map snd later0 =
                 fst (Cluster.next_jobs k0 options (initial_cursor options)) /\
               cur' = snd (Cluster.next_jobs k0 options (initial_cursor options))).
    { exists (S k), later.
      assert (Hn : Cluster.getNextJob options (Cluster.cursor sys) = (None, cur')).
      { destruct Hcases as [(Hz0 & ->)|(Hz0 & Hgo & ->)].
        - now apply getNextJob_exhausted.
        - rewrite getNextJob_advance.
          destruct (Z.ltb_spec (zoom_max options) (cz (coords (Cluster.cursor sys))));
            [lia|]. now rewrite Hgo. }
      rewrite Hcur in Hn.
      rewrite (next_jobs_snoc_None k _ _ _ _ (surjective_pairing _) Hn).
      cbn [fst snd]. repeat split; assumption. }
    destruct (Nat.ltb_spec (S (Cluster.stopped sys)) W) as [Hlt|Hge];
      constructor;
      cbn [Cluster.cursor Cluster.stopped Cluster.workers Cluster.pending
           Cluster.sent Cluster.killed Cluster.returned];
      try assumption; try (now apply remove_pending_NoDup); try lia.
    + symmetry. apply negb_false_iff. now apply Nat.ltb_lt.
    + symmetry. apply negb_true_iff. apply Nat.ltb_ge. lia.
    + now rewrite Hret.
Qed.

End MasterFacts.

Section RunFacts.
Context {num : Type} {M : CoordinateMapper num}.
Variable env : Env.
Variable options : Options num.
Variable W : nat.
Hypothesis HW : (1 <= W)%nat.

Lemma next_jobs_stable (k k' : nat) (cur : Cursor) :
  zoom_max options < cz (coords (snd (Cluster.next_jobs k options cur))) ->
  (k <= k')%nat ->
  Cluster.next_jobs k' options cur = Cluster.next_jobs k options cur.
Proof.
  clear HW. revert k' cur. induction k as [|k IH]; intros k' cur.
  - cbn. intros Hz _. destruct k' as [|k']; [reflexivity|].
    cbn [Cluster.next_jobs]. now rewrite getNextJob_exhausted.
  - intros Hz Hk. destruct k' as [|k']; [lia|].
    cbn [Cluster.next_jobs] in *.
    destruct (Cluster.getNextJob options cur) as [[job|] cur0]; [|reflexivity].
    rewrite (IH k' cur0); [reflexivity| |lia].
    now destruct (Cluster.next_jobs k options cur0).
Qed.

Lemma deliver_unproductive (sys : Cluster.System) (w : nat) :
  ~ productive sys w -> Cluster.deliver env W options sys w = sys.
Proof.
  unfold productive, Cluster.deliver. intros H.
  destruct (Cluster.killed sys); [reflexivity|].
  destruct (Cluster.pending_job w (Cluster.pending sys)); [|reflexivity].
  exfalso. apply H. split; [reflexivity|discriminate].
Qed.

Lemma deliver_invariant (sys : Cluster.System) (w : nat) :
  run_invariant W options sys ->
  run_invariant W options (Cluster.deliver env W options sys w).
Proof.
  intros Hinv. unfold Cluster.deliver.
  destruct (Cluster.killed sys) eqn:Hk; [assumption|].
  destruct (Cluster.pending_job w (Cluster.pending sys)) as [job|] eqn:Hp;
    [|assumption].
  destruct (Cluster.worker_onMessage env (Cluster.files sys) job) as [msg out].
  rewrite <- Hk.
  apply master_onMessage_invariant; try assumption.
  apply pending_job_In in Hp. apply in_map_iff. now exists (w, job).
Qed.

Lemma deliver_events_left (sys : Cluster.System) (w : nat) :
  run_invariant W options sys ->
  productive sys w ->
  S (events_left options (Cluster.deliver env W options sys w)) =
  events_left options sys.
Proof.
  intros Hinv [Hk Hp]. unfold Cluster.deliver. rewrite Hk.
  destruct (Cluster.pending_job w (Cluster.pending sys)) as [job|] eqn:Hjob;
    [|contradiction].
  destruct (Cluster.worker_onMessage env (Cluster.files sys) job) as [msg out].
  assert (Hin : In w (map fst (Cluster.pending sys))).
  { apply pending_job_In in Hjob. apply in_map_iff. now exists (w, job). }
  pose proof (remove_pending_length w _ (inv_pending _ _ _ Hinv) Hin) as Hlen.
  unfold Cluster.master_onMessage, events_left.
  cbn [Cluster.cursor Cluster.stopped Cluster.workers Cluster.pending
       Cluster.sent Cluster.killed Cluster.returned].
  destruct (Cluster.getNextJob options (Cluster.cursor sys)) as [[next|] cur'] eqn:Hnext.
  - cbn [Cluster.cursor Cluster.pending List.length].
    apply getNextJob_Some in Hnext. destruct Hnext as (Hz & Hgo & -> & _).
    pose proof (advance_budget_go options _ Hgo) as Hb.
    pose proof (advance_zoom options _ Hgo Hz) as Hz'.
    unfold jobs_left.
    destruct (Z.ltb_spec (zoom_max options) (cz (coords (Cluster.cursor sys)))); [lia|].
    destruct (Z.ltb_spec (zoom_max options)
                (cz (coords (snd (advance options (Cluster.cursor sys)))))); [lia|].
    rewrite Hb. unfold budget. lia.
  - assert (Hleft : jobs_left options cur' = jobs_left options (Cluster.cursor sys)).
    { apply getNextJob_None in Hnext.
      destruct Hnext as (Hz' & [(Hz & ->)|(Hz & Hgo & ->)]); [reflexivity|].
      unfold jobs_left.
      destruct (Z.ltb_spec (zoom_max options) (cz (coords (Cluster.cursor sys)))); [lia|].
      destruct (Z.ltb_spec (zoom_max options)
                  (cz (coords (snd (advance options (Cluster.cursor sys)))))); [|lia].
      destruct (advance_budget_stop options _ Hgo) as [-> _]. reflexivity. }
    unfold Cluster.stopChildProcesses.
    cbn [Cluster.cursor Cluster.stopped Cluster.workers Cluster.pending
         Cluster.sent Cluster.killed Cluster.returned].
    destruct (S (Cluster.stopped sys) <? W)%nat;
      cbn [Cluster.cursor Cluster.pending]; lia.
Qed.

Lemma killed_iff_idle (sys : Cluster.System) :
  run_invariant W options sys ->
  (Cluster.killed sys = true <-> Cluster.pending sys = []).
Proof.
  intros Hinv. rewrite (inv_killed _ _ _ Hinv).
  pose proof (inv_workers _ _ _ Hinv) as Hw.
  rewrite negb_true_iff, Nat.ltb_ge. split.
  - intros H. destruct (Cluster.pending sys); [reflexivity|cbn in Hw; lia].
  - intros H. rewrite H in Hw. cbn in Hw. lia.
Qed.

(** While the run is not over, some worker holds a job. *)
Lemma run_progress (sys : Cluster.System) :
  run_invariant W options sys ->
  Cluster.killed sys = false ->
  exists w, productive sys w.
Proof.
  intros Hinv Hk.
  destruct (Cluster.pending sys) as [|[w job] p] eqn:Hp.
  - apply killed_iff_idle in Hp; [congruence|assumption].
  - exists w. split; [assumption|]. rewrite Hp.
    unfold Cluster.pending_job. cbn. rewrite Nat.eqb_refl. discriminate.
Qed.

Lemma schedule_invariant (schedule : list nat) (sys : Cluster.System) :
  run_invariant W options sys ->
  run_invariant W options (fold_left (Cluster.deliver env W options) schedule sys).
Proof.
  revert sys. induction schedule as [|w rest IH]; intros sys Hinv; cbn [fold_left].
  - assumption.
  - apply IH. now apply deliver_invariant.
Qed.

(** A schedule of events that all do something uses up what is left of the
    run, one event at a time. *)
Lemma schedule_events_left (schedule : list nat) (sys : Cluster.System) :
  run_invariant W options sys ->
  productive_schedule env W options sys schedule ->
  (events_left options (fold_left (Cluster.deliver env W options) schedule sys)
   + List.length schedule = events_left options sys)%nat.
Proof.
  revert sys. induction schedule as [|w rest IH]; intros sys Hinv Hsched;
    cbn [fold_left List.length].
  - lia.
  - destruct Hsched as [Hw Hrest].
    pose proof (deliver_events_left sys w Hinv Hw) as Hstep.
    specialize (IH _ (deliver_invariant sys w Hinv) Hrest). lia.
Qed.

End RunFacts.

(** ** The file system and [getTile] *)

Lemma prefix_nil (b : string) : String.prefix EmptyString b = true.
Proof. now destruct b. Qed.

Lemma prefix_append (a b : string) : String.prefix a (String.append a b) = true.
Proof.
  induction a as [|c a IH]; cbn; [apply prefix_nil|].
  destruct (ascii_dec c c); [assumption|contradiction].
Qed.

Lemma prefix_append_l (a b c : string) :
  String.prefix (String.append a b) c = true -> String.prefix a c = true.
Proof.
  revert c. induction a as [|ch a IH]; intros c; [intros _; apply prefix_nil|].
  destruct c as [|ch' c]; cbn; [discriminate|].
  destruct (ascii_dec ch ch'); [apply IH|discriminate].
Qed.

Lemma append_assoc (a b c : string) :
  String.append (String.append a b) c = String.append a (String.append b c).
Proof. induction a as [|ch a IH]; cbn; [reflexivity|now rewrite IH]. Qed.

(** What lies under an existing path lies in an existing directory. *)
Lemma existsSync_parent (fs : FS) (dir name : string) :
  existsSync fs (join_path dir name) = true -> existsSync fs dir = true.
Proof.
  unfold existsSync. rewrite !existsb_exists. intros (p & Hin & Hp).
  exists p. split; [assumption|]. apply orb_true_iff. right.
  apply orb_true_iff in Hp. destruct Hp as [Heq|Hpre].
  - apply String.eqb_eq in Heq. subst p. unfold join_path.
    rewrite <- append_assoc. apply prefix_append.
  - unfold join_path in Hpre. rewrite <- append_assoc in Hpre.
    rewrite append_assoc in Hpre. now apply prefix_append_l in Hpre.
Qed.

Lemma createDir_exists (env : Env) (fs : FS) (path : string) :
  existsSync fs path = true -> createDir env fs path = (true, fs).
Proof. intros H. unfold createDir. now rewrite H. Qed.

(** [createDir] answers [false] exactly when the path does not exist and
    [fs.mkdirSync] throws an error whose code is not [EEXIST]; the file system
    is then as before. *)
Lemma createDir_false (env : Env) (fs fs' : FS) (path : string) :
  createDir env fs path = (false, fs') <->
  fs' = fs /\ existsSync fs path = false /\
  exists code, mkdirSync_throws env fs path = Some code /\
               String.eqb code "EEXIST" = false.
Proof.
  unfold createDir. destruct (existsSync fs path); cbn [negb].
  - split; [discriminate|]. intros (_ & H & _). discriminate.
  - destruct (mkdirSync_throws env fs path) as [code|].
    + destruct (String.eqb code "EEXIST") eqn:Hcode; cbn [negb].
      * split; [discriminate|]. intros (_ & _ & c & [= <-] & Hc). congruence.
      * split.
        -- intros [= <-]. repeat split. now exists code.
        -- intros (-> & _). reflexivity.
    + split; [discriminate|]. intros (_ & _ & c & Hc & _). discriminate.
Qed.

(** A tile that exists lies in directories that exist. *)
Lemma tile_path_parents (fs : FS) (output format : string) (c : Coords) :
  existsSync fs (tile_path output c format) = true ->
  existsSync fs (zoom_dir output c) = true /\
  existsSync fs (column_dir output c) = true.
Proof.
  intros Himage.
  assert (Hx : existsSync fs (column_dir output c) = true).
  { apply (existsSync_parent fs (column_dir output c)
             (String.append (Number_toString (cy c)) (String.append "." format))).
    unfold tile_path, join_path in *. now rewrite !append_assoc in *. }
  split; [|assumption].
  now apply (existsSync_parent fs (zoom_dir output c) (Number_toString (cx c))).
Qed.

Section GetTileFacts.
Variable env : Env.
Variables (fs : FS) (templateUrl output : string) (c : Coords).

Lemma cluster_getTile_has (referrer : option string) (format : string) :
  existsSync fs (tile_path output c format) = true ->
  Cluster.getTile env fs templateUrl output c referrer format = mkOutcome None [] fs.
Proof.
  intros Himage.
  destruct (tile_path_parents fs output format c Himage) as [Hz Hx].
  unfold Cluster.getTile.
  fold (zoom_dir output c). rewrite (createDir_exists env fs _ Hz). cbn [negb].
  fold (column_dir output c). rewrite (createDir_exists env fs _ Hx). cbn [negb].
  fold (tile_path output c format). now rewrite Himage.
Qed.

Lemma cluster_getTile_z_fails (referrer : option string) (format : string) (fs' : FS) :
  createDir env fs (zoom_dir output c) = (false, fs') ->
  Cluster.getTile env fs templateUrl output c referrer format =
  mkOutcome (Some (pathError (zoom_dir output c))) [] fs'.
Proof.
  intros H. unfold Cluster.getTile. fold (zoom_dir output c). now rewrite H.
Qed.

Lemma cluster_getTile_x_fails (referrer : option string) (format : string)
  (fs1 fs2 : FS) :
  createDir env fs (zoom_dir output c) = (true, fs1) ->
  createDir env fs1 (column_dir output c) = (false, fs2) ->
  Cluster.getTile env fs templateUrl output c referrer format =
  mkOutcome (Some (pathError (column_dir output c))) [] fs2.
Proof.
  intros H1 H2. unfold Cluster.getTile.
  fold (zoom_dir output c). rewrite H1. cbn [negb].
  fold (column_dir output c). now rewrite H2.
Qed.

Lemma cluster_getTile_fetch (referrer : option string) (format : string)
  (fs1 fs2 : FS) :
  createDir env fs (zoom_dir output c) = (true, fs1) ->
  createDir env fs1 (column_dir output c) = (true, fs2) ->
  existsSync fs2 (tile_path output c format) = false ->
  Cluster.getTile env fs templateUrl output c referrer format =
  mkOutcome None [templateToUrl templateUrl c]
            (if axios_fulfils env (templateToUrl templateUrl c)
             then tile_path output c format :: fs2 else fs2).
Proof.
  intros H1 H2 H3. unfold Cluster.getTile.
  fold (zoom_dir output c). rewrite H1. cbn [negb].
  fold (column_dir output c). rewrite H2. cbn [negb].
  fold (tile_path output c format). now rewrite H3.
Qed.

(** The sequential [getTile] is the cluster one at the format png. *)
Lemma sequential_getTile_png (referrer : option string) :
  Sequential.getTile env fs templateUrl output c =
  Cluster.getTile env fs templateUrl output c referrer "png".
Proof. reflexivity. Qed.

(** A call of [getTile] requests at most the URL of its tile, and one that
    requests it reports no error. *)
Lemma cluster_getTile_requested (referrer : option string) (format : string) :
  let out := Cluster.getTile env fs templateUrl output c referrer format in
  requested out = [] \/
  (requested out = [templateToUrl templateUrl c] /\ callback_err out = None).
Proof.
  unfold Cluster.getTile.
  destruct (createDir env fs _) as [[|] fs1]; cbn [negb]; [|now left].
  destruct (createDir env fs1 _) as [[|] fs2]; cbn [negb]; [|now left].
  destruct (existsSync fs2 _); [now left|right; now split].
Qed.

End GetTileFacts.

(** ** The sequential walk *)

Section SequentialFacts.
Context {num : Type} {M : CoordinateMapper num}.
Variable env : Env.
Variable options : Options num.

Lemma walk_ends (fuel : nat) (st : Sequential.Run) :
  (budget options (Sequential.cursor st) <= fuel)%nat ->
  Sequential.ended (Sequential.walk fuel env options st) = true.
Proof.
  revert st. induction fuel as [|fuel IH]; intros st Hfuel.
  - unfold budget in Hfuel. lia.
  - cbn [Sequential.walk].
    destruct (callback_err _) as [e|]; [reflexivity|].
    rewrite tileGetCallback_advance.
    destruct (fst (advance options (Sequential.cursor st))) eqn:Hgo; [|reflexivity].
    apply IH. cbn [Sequential.cursor].
    pose proof (advance_budget_go options _ Hgo). lia.
Qed.

(** A path error ends the walk at the tile it occurs on. *)
Lemma walk_abort (fuel : nat) (st : Sequential.Run) (e : string) :
  let out := Sequential.getTile env (Sequential.files st) (url options)
               (output options) (coords (Sequential.cursor st)) in
  callback_err out = Some e ->
  Sequential.walk (S fuel) env options st =
  Sequential.mkRun (Sequential.cursor st) (fs_after out)
    (Sequential.tiles st ++ [coords (Sequential.cursor st)])
    (Sequential.requests st ++ requested out)
    (Sequential.returned st ++ [Some e]) true.
Proof. intros out He. cbn [Sequential.walk]. fold out. now rewrite He. Qed.

(** A walk either stops with one more call of the caller's callback (a path
    error), or it leaves the calls as they were. *)
Lemma walk_returned (fuel : nat) (st : Sequential.Run) :
  Sequential.returned (Sequential.walk fuel env options st) = Sequential.returned st \/
  exists e, Sequential.returned (Sequential.walk fuel env options st) =
            Sequential.returned st ++ [Some e].
Proof.
  revert st. induction fuel as [|fuel IH]; intros st; cbn [Sequential.walk].
  - now left.
  - destruct (Sequential.tileGetCallback _ _ _) as [e|cur|cur].
    + right. now exists e.
    + apply (IH (Sequential.mkRun cur _ _ _ _ false)).
    + now left.
Qed.

Hypothesis Hwf : well_formed_run options.

Lemma walk_nested (fuel : nat) (st : Sequential.Run) :
  on_tile options (Sequential.cursor st) ->
  (budget options (Sequential.cursor st) <= fuel)%nat ->
  let r := Sequential.walk fuel env options st in
  Sequential.returned r = Sequential.returned st ->
  Sequential.tiles r =
    Sequential.tiles st ++ coords (Sequential.cursor st)
                        :: rest_of options (Sequential.cursor st) /\
  count (Sequential.cursor r) =
    count (Sequential.cursor st) + Z.of_nat (budget options (Sequential.cursor st)).
Proof.
  revert st. induction fuel as [|fuel IH]; intros st Hon Hfuel.
  - unfold budget in Hfuel. lia.
  - cbn [Sequential.walk]. cbv zeta.
    destruct (callback_err _) as [e|] eqn:Herr.
    + cbn [Sequential.tileGetCallback Sequential.returned]. intros Hret.
      exfalso. apply (f_equal (@List.length _)) in Hret.
      rewrite length_app in Hret. cbn in Hret. lia.
    + rewrite tileGetCallback_advance.
      destruct (fst (advance options (Sequential.cursor st))) eqn:Hgo.
      * destruct (advance_rest_go options Hwf _ Hon Hgo) as [Hon' Hrest].
        pose proof (advance_budget_go options _ Hgo) as Hb.
        pose proof (advance_count options (Sequential.cursor st)) as Hc.
        intros Hret.
        destruct (IH (Sequential.mkRun (snd (advance options (Sequential.cursor st)))
                        (fs_after (Sequential.getTile env (Sequential.files st)
                                     (url options) (output options)
                                     (coords (Sequential.cursor st))))
                        (Sequential.tiles st ++ [coords (Sequential.cursor st)])
                        (Sequential.requests st ++
                         requested (Sequential.getTile env (Sequential.files st)
                                      (url options) (output options)
                                      (coords (Sequential.cursor st))))
                        (Sequential.returned st) false)
                    Hon' ltac:(cbn [Sequential.cursor]; lia) Hret) as [Ht Hcount].
        cbn [Sequential.cursor Sequential.tiles] in Ht, Hcount.
        split.
        -- rewrite Ht, Hrest, <- app_assoc. reflexivity.
        -- rewrite Hcount, Hc, Hb. lia.
      * intros _. cbn [Sequential.tiles Sequential.cursor].
        rewrite (advance_rest_stop options _ Hon Hgo).
        destruct (advance_budget_stop options _ Hgo) as [Hb _].
        split; [reflexivity|]. rewrite advance_count, Hb. lia.
Qed.

End SequentialFacts.

(** ** The tile arithmetic on real numbers *)

Section RealMathFacts.
Local Open Scope R_scope.

Lemma Math_floor_bounds (r : R) :
  IZR (RealMath.Math_floor r) <= r < IZR (RealMath.Math_floor r) + 1.
Proof.
  unfold RealMath.Math_floor. destruct (base_Int_part r) as [H1 H2]. lra.
Qed.

Lemma Math_floor_unique (r : R) (n : Z) :
  IZR n <= r < IZR n + 1 -> RealMath.Math_floor r = n.
Proof.
  intros [H1 H2]. destruct (Math_floor_bounds r) as [H3 H4].
  assert (Ha : (n < RealMath.Math_floor r + 1)%Z).
  { apply lt_IZR. rewrite plus_IZR. lra. }
  assert (Hb : (RealMath.Math_floor r < n + 1)%Z).
  { apply lt_IZR. rewrite plus_IZR. lra. }
  lia.
Qed.

Lemma Math_floor_monotone (r1 r2 : R) :
  r1 <= r2 -> (RealMath.Math_floor r1 <= RealMath.Math_floor r2)%Z.
Proof.
  intros H. destruct (Math_floor_bounds r1) as [H1 _].
  destruct (Math_floor_bounds r2) as [_ H2].
  assert (Ha : (RealMath.Math_floor r1 < RealMath.Math_floor r2 + 1)%Z).
  { apply lt_IZR. rewrite plus_IZR. lra. }
  lia.
Qed.

Lemma pow2_pos (zoom : Z) : 0 < powerRZ 2 zoom.
Proof. apply powerRZ_lt. lra. Qed.

Lemma pow2_IZR (zoom : Z) : (0 <= zoom)%Z -> powerRZ 2 zoom = IZR (2 ^ zoom).
Proof.
  intros H. rewrite <- (Z2Nat.id zoom) at 1 by assumption.
  rewrite <- pow_powerRZ, pow_IZR. now rewrite Z2Nat.id.
Qed.

Lemma lngToTile_monotone (lng1 lng2 : R) (zoom : Z) :
  lng1 <= lng2 ->
  (RealMath.lngToTile lng1 zoom <= RealMath.lngToTile lng2 zoom)%Z.
Proof.
  intros H. unfold RealMath.lngToTile. apply Math_floor_monotone.
  pose proof (pow2_pos zoom) as Hp.
  apply Rmult_le_compat_r; [lra|]. lra.
Qed.

Lemma lngToTile_range (lng : R) (zoom : Z) :
  (0 <= zoom)%Z -> -180 <= lng < 180 ->
  (0 <= RealMath.lngToTile lng zoom <= 2 ^ zoom - 1)%Z.
Proof.
  intros Hz [Hlo Hhi]. unfold RealMath.lngToTile.
  pose proof (pow2_pos zoom) as Hp.
  set (v := (lng + 180) / 360 * powerRZ 2 zoom).
  assert (Hv0 : 0 <= v).
  { unfold v. apply Rmult_le_pos; lra. }
  assert (Hv1 : v < powerRZ 2 zoom).
  { unfold v. rewrite <- (Rmult_1_l (powerRZ 2 zoom)) at 2.
    apply Rmult_lt_compat_r; lra. }
  split.
  - rewrite <- (Math_floor_unique 0 0) by (simpl; lra).
    now apply Math_floor_monotone.
  - destruct (Math_floor_bounds v) as [Hf _].
    rewrite pow2_IZR in Hv1 by assumption.
    assert (Ha : (RealMath.Math_floor v < 2 ^ zoom)%Z) by (apply lt_IZR; lra).
    lia.
Qed.

End RealMathFacts.

Section MercatorFacts.
Local Open Scope R_scope.

(** [tan a + 1 / cos a], the argument of the logarithm in [latToTile]. *)
Lemma mercator_quotient (a : R) :
  cos a <> 0 -> tan a + 1 / cos a = (1 + sin a) / cos a.
Proof. intros H. unfold tan. field. exact H. Qed.

Lemma sin_above_minus_one (a : R) : - (PI / 2) < a -> a < PI / 2 -> -1 < sin a.
Proof.
  intros H1 H2. pose proof PI_RGT_0 as Hpi.
  replace (-1) with (sin (- (PI / 2))) by (rewrite sin_neg, sin_PI2; lra).
  apply sin_increasing_1; lra.
Qed.

Lemma mercator_positive (a : R) :
  - (PI / 2) < a -> a < PI / 2 -> 0 < tan a + 1 / cos a.
Proof.
  intros H1 H2. pose proof (cos_gt_0 a H1 H2) as Hc.
  pose proof (sin_above_minus_one a H1 H2) as Hs.
  rewrite mercator_quotient by lra.
  apply Rdiv_lt_0_compat; lra.
Qed.

Lemma mercator_increasing (a b : R) :
  - (PI / 2) < a -> a < b -> b < PI / 2 ->
  tan a + 1 / cos a < tan b + 1 / cos b.
Proof.
  intros Ha Hab Hb. pose proof PI_RGT_0 as Hpi.
  pose proof (cos_gt_0 a ltac:(lra) ltac:(lra)) as Hca.
  pose proof (cos_gt_0 b ltac:(lra) ltac:(lra)) as Hcb.
  rewrite !mercator_quotient by lra.
  set (u := (a + b) / 2). set (v := (b - a) / 2).
  assert (Hsv : 0 < sin v) by (apply sin_gt_0; unfold v; lra).
  assert (Hsum : 0 < sin u + cos v).
  { rewrite <- (sin_shift v).
    assert (H : sin (- u) < sin (PI / 2 - v))
      by (apply sin_increasing_1; unfold u, v; lra).
    rewrite sin_neg in H. lra. }
  assert (Hcos : cos a - cos b = 2 * sin v * sin u).
  { rewrite form2. replace ((a - b) / 2) with (- v) by (unfold v; lra).
    fold u. rewrite sin_neg. lra. }
  assert (Hsin : sin b * cos a - cos b * sin a = 2 * sin v * cos v).
  { rewrite <- sin_minus, <- sin_2a. f_equal. unfold v. lra. }
  assert (Hcross : (1 + sin a) * cos b < (1 + sin b) * cos a) by nra.
  apply Rminus_lt.
  replace ((1 + sin a) / cos a - (1 + sin b) / cos b)
    with (((1 + sin a) * cos b - (1 + sin b) * cos a) * / (cos a * cos b))
    by (field; lra).
  assert (Hk : 0 < / (cos a * cos b)).
  { apply Rinv_0_lt_compat. now apply Rmult_lt_0_compat. }
  nra.
Qed.

Lemma latitude_angle (lat : R) :
  -90 < lat < 90 -> - (PI / 2) < lat * PI / 180 < PI / 2.
Proof. intros [H1 H2]. pose proof PI_RGT_0 as Hpi. split; nra. Qed.

(** Tile rows grow southward: [latToTile] does not increase with the
    latitude, between the poles. *)
Lemma latToTile_antitone (lat1 lat2 : R) (zoom : Z) :
  -90 < lat1 -> lat1 <= lat2 -> lat2 < 90 ->
  (RealMath.latToTile lat2 zoom <= RealMath.latToTile lat1 zoom)%Z.
Proof.
  intros H1 H12 H2. destruct H12 as [Hlt | ->]; [|lia].
  unfold RealMath.latToTile. cbv zeta. apply Math_floor_monotone.
  pose proof PI_RGT_0 as Hpi. pose proof (pow2_pos zoom) as Hp.
  destruct (latitude_angle lat1 ltac:(lra)) as [Ha1 Ha1'].
  destruct (latitude_angle lat2 ltac:(lra)) as [Ha2 Ha2'].
  assert (Hln : ln (tan (lat1 * PI / 180) + 1 / cos (lat1 * PI / 180)) <
                ln (tan (lat2 * PI / 180) + 1 / cos (lat2 * PI / 180))).
  { apply ln_increasing; [now apply mercator_positive|].
    apply mercator_increasing; try assumption. nra. }
  apply Rmult_le_compat_r; [lra|].
  apply Rmult_le_compat_r; [lra|].
  apply Rplus_le_compat_l, Ropp_le_contravar.
  apply Rmult_le_compat_r; [|lra].
  apply Rlt_le, Rinv_0_lt_compat. exact Hpi.
Qed.

(** Four values at zoom level 1. *)
Lemma lngToTile_0_1 : RealMath.lngToTile 0 1 = 1%Z.
Proof.
  unfold RealMath.lngToTile. apply Math_floor_unique.
  rewrite pow2_IZR by lia. simpl. lra.
Qed.

Lemma lngToTile_90_1 : RealMath.lngToTile 90 1 = 1%Z.
Proof.
  unfold RealMath.lngToTile. apply Math_floor_unique.
  rewrite pow2_IZR by lia. simpl. lra.
Qed.

Lemma latToTile_0_1 : RealMath.latToTile 0 1 = 1%Z.
Proof.
  unfold RealMath.latToTile. cbv zeta. apply Math_floor_unique.
  replace (0 * PI / 180) with 0 by lra.
  rewrite tan_0, cos_0. replace (0 + 1 / 1) with 1 by lra. rewrite ln_1.
  rewrite pow2_IZR by lia. pose proof PI_RGT_0 as Hpi.
  replace (0 / PI) with 0 by (field; lra). simpl. lra.
Qed.

Lemma mercator_45 :
  (0 < ln (tan (45 * PI / 180) + 1 / cos (45 * PI / 180)) / PI < 1)%R.
Proof.
  replace (45 * PI / 180) with (PI / 4) by lra.
  rewrite tan_PI4, cos_PI4. pose proof PI_RGT_0 as Hpi. pose proof PI2_1 as Hpi2.
  assert (Hs0 : 0 < R_sqrt.sqrt 2) by (apply sqrt_lt_R0; lra).
  assert (Hs2 : R_sqrt.sqrt 2 < 2).
  { rewrite <- (sqrt_square 2) at 2 by lra. apply sqrt_lt_1_alt. lra. }
  replace (1 / (1 / R_sqrt.sqrt 2)) with (R_sqrt.sqrt 2) by (field; lra).
  assert (Hlo : 0 < ln (1 + R_sqrt.sqrt 2)).
  { rewrite <- ln_1. apply ln_increasing; lra. }
  assert (Hhi : ln (1 + R_sqrt.sqrt 2) < PI).
  { rewrite <- (ln_exp PI). apply ln_increasing; [lra|].
    pose proof (exp_ineq1 PI ltac:(lra)). lra. }
  split.
  - apply Rdiv_lt_0_compat; lra.
  - apply Rmult_lt_reg_r with PI; [lra|].
    unfold Rdiv. rewrite Rmult_assoc, Rinv_l by lra. lra.
Qed.

Lemma latToTile_45_1 : RealMath.latToTile 45 1 = 0%Z.
Proof.
  unfold RealMath.latToTile. cbv zeta. apply Math_floor_unique.
  pose proof mercator_45 as Hq. rewrite pow2_IZR by lia. simpl. lra.
Qed.

Lemma lngToTile_170_1 : RealMath.lngToTile 170 1 = 1%Z.
Proof.
  unfold RealMath.lngToTile. apply Math_floor_unique.
  rewrite pow2_IZR by lia. simpl. lra.
Qed.

Lemma lngToTile_minus_170_1 : RealMath.lngToTile (-170) 1 = 0%Z.
Proof.
  unfold RealMath.lngToTile. apply Math_floor_unique.
  rewrite pow2_IZR by lia. simpl. lra.
Qed.

(** And at zoom level 0, where there is one tile. *)
Lemma lngToTile_0_0 : RealMath.lngToTile 0 0 = 0%Z.
Proof.
  unfold RealMath.lngToTile. apply Math_floor_unique.
  rewrite pow2_IZR by lia. simpl. lra.
Qed.

Lemma lngToTile_90_0 : RealMath.lngToTile 90 0 = 0%Z.
Proof.
  unfold RealMath.lngToTile. apply Math_floor_unique.
  rewrite pow2_IZR by lia. simpl. lra.
Qed.

Lemma latToTile_0_0 : RealMath.latToTile 0 0 = 0%Z.
Proof.
  unfold RealMath.latToTile. cbv zeta. apply Math_floor_unique.
  replace (0 * PI / 180) with 0 by lra.
  rewrite tan_0, cos_0. replace (0 + 1 / 1) with 1 by lra. rewrite ln_1.
  rewrite pow2_IZR by lia. pose proof PI_RGT_0 as Hpi.
  replace (0 / PI) with 0 by (field; lra). simpl. lra.
Qed.

Lemma latToTile_45_0 : RealMath.latToTile 45 0 = 0%Z.
Proof.
  unfold RealMath.latToTile. cbv zeta. apply Math_floor_unique.
  pose proof mercator_45 as Hq. rewrite pow2_IZR by lia. simpl. lra.
Qed.

End MercatorFacts.

(** ** The example run *)

Lemma example_bounds :
  bboxToBounds (bbox example_options) 1 = mkBounds 0 1 1 1.
Proof.
  unfold bboxToBounds, example_options. cbn [bbox bbox0 bbox1 bbox2 bbox3].
  cbn [lngToTile latToTile RealMath.mapper].
  now rewrite latToTile_0_1, lngToTile_0_1, latToTile_45_1, lngToTile_90_1.
Qed.

Lemma example_initial_cursor :
  initial_cursor example_options = mkCursor (mkCoords 1 1 0) (mkBounds 0 1 1 1) 0.
Proof.
  unfold initial_cursor. change (zoom_min example_options) with 1.
  now rewrite example_bounds.
Qed.

Lemma example_bounds_0 :
  bboxToBounds (bbox example_two_zooms) 0 = mkBounds 0 0 0 0.
Proof.
  unfold bboxToBounds, example_two_zooms. cbn [bbox bbox0 bbox1 bbox2 bbox3].
  cbn [lngToTile latToTile RealMath.mapper].
  now rewrite latToTile_0_0, lngToTile_0_0, latToTile_45_0, lngToTile_90_0.
Qed.

Lemma example_bounds_1 :
  bboxToBounds (bbox example_two_zooms) 1 = mkBounds 0 1 1 1.
Proof. exact example_bounds. Qed.

Lemma example_two_zooms_well_formed : well_formed_run example_two_zooms.
Proof.
  intros z Hz. change (zoom_min example_two_zooms) with 0 in Hz.
  change (zoom_max example_two_zooms) with 1 in Hz.
  assert (Hcases : z = 0 \/ z = 1) by lia.
  destruct Hcases as [-> | ->].
  - rewrite example_bounds_0. unfold well_formed. cbn. lia.
  - rewrite example_bounds_1. unfold well_formed. cbn. lia.
Qed.

Lemma example_nested_order :
  nested_order example_two_zooms = [mkCoords 0 0 0; mkCoords 1 1 0; mkCoords 1 1 1].
Proof.
  unfold nested_order.
  change (zoom_min example_two_zooms) with 0.
  change (zoom_max example_two_zooms) with 1.
  rewrite (Zrange_cons 0 1), (Zrange_cons (0 + 1) 1), (Zrange_nil (0 + 1 + 1) 1) by lia.
  cbn [flat_map]. change (0 + 1) with 1.
  rewrite example_bounds_0, example_bounds_1. reflexivity.
Qed.

Lemma example_well_formed : well_formed_run example_options.
Proof.
  intros z Hz. change (zoom_min example_options) with 1 in Hz.
  change (zoom_max example_options) with 1 in Hz.
  replace z with 1 by lia. rewrite example_bounds. unfold well_formed. cbn. lia.
Qed.

(** A box given as [[south, west, north, east]] with [south <= north],
    [west <= east] and both latitudes between the poles has a well-formed
    rectangle at every zoom level. *)
Lemma bboxToBounds_well_formed (box : BBox R) (zoom : Z) :
  (bbox0 box <= bbox2 box)%R -> (bbox1 box <= bbox3 box)%R ->
  (-90 < bbox0 box)%R -> (bbox2 box < 90)%R ->
  well_formed (bboxToBounds box zoom).
Proof.
  intros Hlat Hlng Hs Hn. unfold well_formed, bboxToBounds.
  cbn [north west south east lngToTile latToTile RealMath.mapper]. split.
  - now apply lngToTile_monotone.
  - now apply latToTile_antitone.
Qed.

(** ** The start of a run *)

Section StartFacts.
Context {num : Type} {M : CoordinateMapper num}.
Variable env : Env.
Variable options : Options num.

Lemma cluster_getTiles_started (W : nat) (fs : FS) :
  fst (createDir env fs (output options)) = true ->
  Cluster.getTiles env W options fs =
  Cluster.mkSystem (initial_cursor options) 0 (seq 1 W)
    (first_jobs options W) (first_jobs options W) false []
    (snd (createDir env fs (output options))) [].
Proof.
  intros H. unfold Cluster.getTiles.
  destruct (createDir env fs (output options)) as [ok fs']. cbn in H. subst ok.
  reflexivity.
Qed.

Lemma cluster_getTiles_aborted (W : nat) (fs : FS) :
  fst (createDir env fs (output options)) = false ->
  Cluster.getTiles env W options fs =
  Cluster.mkSystem (initial_cursor options) 0 [] [] [] false
    [Some (pathError (output options))]
    (snd (createDir env fs (output options))) [].
Proof.
  intros H. unfold Cluster.getTiles.
  destruct (createDir env fs (output options)) as [ok fs']. cbn in H. subst ok.
  reflexivity.
Qed.

(** When the output directory cannot be created nothing ever happens. *)
Lemma cluster_run_aborted (W : nat) (fs : FS) (schedule : list nat) :
  fst (createDir env fs (output options)) = false ->
  Cluster.run env W options fs schedule = Cluster.getTiles env W options fs.
Proof.
  intros H. unfold Cluster.run. rewrite (cluster_getTiles_aborted W fs H).
  induction schedule as [|w rest IH]; cbn [fold_left]; [reflexivity|].
  exact IH.
Qed.

Lemma first_jobs_coords (W : nat) :
  map (fun e => Cluster.job_coords (snd e)) (first_jobs options W) =
  repeat (coords (initial_cursor options)) W.
Proof.
  unfold first_jobs. rewrite map_map. cbn [snd Cluster.job_coords Cluster.job_of].
  generalize 1%nat. induction W as [|W IH]; intros s; cbn; [reflexivity|].
  now rewrite IH.
Qed.

Lemma first_jobs_workers (W : nat) : map fst (first_jobs options W) = seq 1 W.
Proof. unfold first_jobs. rewrite map_map. cbn [fst]. apply map_id. Qed.

Lemma cluster_getTiles_invariant (W : nat) (fs : FS) :
  (1 <= W)%nat ->
  fst (createDir env fs (output options)) = true ->
  run_invariant W options (Cluster.getTiles env W options fs).
Proof.
  intros HW H. rewrite (cluster_getTiles_started W fs H).
  constructor;
    cbn [Cluster.cursor Cluster.stopped Cluster.workers Cluster.pending
         Cluster.sent Cluster.killed Cluster.returned].
  - exists O, []. cbn. now rewrite app_nil_r.
  - rewrite first_jobs_workers. apply seq_NoDup.
  - unfold first_jobs. now rewrite length_map, length_seq.
  - symmetry. apply negb_false_iff. apply Nat.ltb_lt. lia.
  - lia.
  - reflexivity.
Qed.

Lemma cluster_run_invariant (W : nat) (fs : FS) (schedule : list nat) :
  (1 <= W)%nat ->
  fst (createDir env fs (output options)) = true ->
  run_invariant W options (Cluster.run env W options fs schedule).
Proof.
  intros HW H. unfold Cluster.run. apply schedule_invariant; [assumption|].
  now apply cluster_getTiles_invariant.
Qed.

Lemma numCPUs_positive (os_cpus_length : nat) :
  (1 <= Cluster.numCPUs os_cpus_length)%nat.
Proof. destruct os_cpus_length; cbn; lia. Qed.

(** The first call of [getTile] of a walk is on the tile under the cursor. *)
Lemma walk_tiles_prefix (fuel : nat) (st : Sequential.Run) :
  exists more,
    Sequential.tiles (Sequential.walk fuel env options st) =
    Sequential.tiles st ++ more.
Proof.
  revert st. induction fuel as [|fuel IH]; intros st; cbn [Sequential.walk].
  - exists []. now rewrite app_nil_r.
  - destruct (Sequential.tileGetCallback _ _ _) as [e|cur|cur];
      cbn [Sequential.tiles]; try (now eexists).
    destruct (IH (Sequential.mkRun cur
                    (fs_after (Sequential.getTile env (Sequential.files st)
                                 (url options) (output options)
                                 (coords (Sequential.cursor st))))
                    (Sequential.tiles st ++ [coords (Sequential.cursor st)])
                    (Sequential.requests st ++
                     requested (Sequential.getTile env (Sequential.files st)
                                  (url options) (output options)
                                  (coords (Sequential.cursor st))))
                    (Sequential.returned st) false)) as [more Hmore].
    rewrite Hmore. cbn [Sequential.tiles]. rewrite <- app_assoc. now eexists.
Qed.

Lemma walk_tiles_head (fuel : nat) (st : Sequential.Run) :
  exists more,
    Sequential.tiles (Sequential.walk (S fuel) env options st) =
    Sequential.tiles st ++ coords (Sequential.cursor st) :: more.
Proof.
  cbn [Sequential.walk].
  destruct (Sequential.tileGetCallback _ _ _) as [e|cur|cur];
    cbn [Sequential.tiles]; try (now eexists).
  destruct (walk_tiles_prefix fuel
              (Sequential.mkRun cur
                 (fs_after (Sequential.getTile env (Sequential.files st)
                              (url options) (output options)
                              (coords (Sequential.cursor st))))
                 (Sequential.tiles st ++ [coords (Sequential.cursor st)])
                 (Sequential.requests st ++
                  requested (Sequential.getTile env (Sequential.files st)
                               (url options) (output options)
                               (coords (Sequential.cursor st))))
                 (Sequential.returned st) false)) as [more Hmore].
  rewrite Hmore. cbn [Sequential.tiles]. rewrite <- app_assoc. now eexists.
Qed.

Lemma budget_succ (cur : Cursor) : exists n, budget options cur = S n.
Proof. unfold budget. eexists. rewrite Nat.add_1_r. reflexivity. Qed.

Lemma sequential_getTiles_started (fs : FS) :
  fst (createDir env fs (output options)) = true ->
  Sequential.getTiles env options fs =
  Sequential.walk (budget options (initial_cursor options)) env options
    (Sequential.mkRun (initial_cursor options)
       (snd (createDir env fs (output options))) [] [] [] false).
Proof.
  intros H. unfold Sequential.getTiles, Sequential.getTiles_fuel.
  destruct (createDir env fs (output options)) as [ok fs']. cbn in H. subst ok.
  reflexivity.
Qed.

Lemma sequential_getTiles_aborted (fs : FS) :
  fst (createDir env fs (output options)) = false ->
  Sequential.getTiles env options fs =
  Sequential.mkRun (initial_cursor options)
    (snd (createDir env fs (output options))) [] []
    [Some (pathError (output options))] true.
Proof.
  intros H. unfold Sequential.getTiles, Sequential.getTiles_fuel.
  destruct (createDir env fs (output options)) as [ok fs']. cbn in H. subst ok.
  reflexivity.
Qed.

(** The fuel of [Sequential.getTiles] is enough: the run it returns has come
    to its end, with or without an error. *)
Lemma sequential_getTiles_ends (fs : FS) :
  Sequential.ended (Sequential.getTiles env options fs) = true.
Proof.
  destruct (fst (createDir env fs (output options))) eqn:Hroot.
  - rewrite (sequential_getTiles_started fs Hroot). apply walk_ends. apply le_n.
  - now rewrite (sequential_getTiles_aborted fs Hroot).
Qed.

(** The fuel of [Cluster.all_jobs] is enough: the calls of [getNextJob] were
    repeated until the cursor was past the last zoom level, where every
    further call returns nothing. *)
Lemma all_jobs_exhausted :
  zoom_max options < cz (coords (snd (Cluster.all_jobs options))) /\
  Cluster.getNextJob options (snd (Cluster.all_jobs options)) =
  (None, snd (Cluster.all_jobs options)).
Proof.
  unfold Cluster.all_jobs.
  destruct (next_jobs_complete options _ (initial_cursor options) (le_n _))
    as (Hz & _).
  split; [exact Hz|]. now apply getNextJob_exhausted.
Qed.

End StartFacts.

(** In the sequential and in the cluster version the first address of a run
    is [z = options.zoom.min], [x = bounds.west], [y = bounds.north] with
    [bounds = bboxToBounds(options.bbox, options.zoom.min)]:
    it is the address the cursor is seeded with, the first address of the
    iterator, the tile of the first call of [getTile] in the sequential version
    and the address of the first job of every worker in the cluster version
    (when the output directory cannot be created there is no call and no
    job). *)
Theorem first_address {num : Type} {M : CoordinateMapper num} (options : Options num) :
  let b := bboxToBounds (bbox options) (zoom_min options) in
  let first := mkCoords (zoom_min options) (west b) (north b) in
  coords (initial_cursor options) = first /\
  hd_error (Cluster.addresses options) = Some first /\
  (forall env fs,
      hd_error (Sequential.tiles (Sequential.getTiles env options fs)) =
      if fst (createDir env fs (output options)) then Some first else None) /\
  (forall env cpus fs,
      map (fun e => Cluster.job_coords (snd e))
          (Cluster.sent (Cluster.getTiles env (Cluster.numCPUs cpus) options fs)) =
      if fst (createDir env fs (output options))
      then repeat first (Cluster.numCPUs cpus) else []).
Proof.
  intros b first.
  assert (Hfirst : coords (initial_cursor options) = first) by reflexivity.
  repeat split.
  - intros env fs.
    destruct (fst (createDir env fs (output options))) eqn:Hroot.
    + rewrite (sequential_getTiles_started env options fs Hroot).
      destruct (budget_succ options (initial_cursor options)) as [n ->].
      destruct (walk_tiles_head env options n
                  (Sequential.mkRun (initial_cursor options)
                     (snd (createDir env fs (output options))) [] [] [] false))
        as [more ->].
      reflexivity.
    + now rewrite (sequential_getTiles_aborted env options fs Hroot).
  - intros env cpus fs.
    destruct (fst (createDir env fs (output options))) eqn:Hroot.
    + rewrite (cluster_getTiles_started env options _ fs Hroot).
      cbn [Cluster.sent]. now rewrite first_jobs_coords.
    + now rewrite (cluster_getTiles_aborted env options _ fs Hroot).
Qed.

(** ** The order and the number of the addresses *)

Section OrderFacts.
Context {num : Type} {M : CoordinateMapper num}.
Variable options : Options num.

Lemma addresses_sorted : StronglySorted lex_lt (Cluster.addresses options).
Proof.
  unfold Cluster.addresses, Cluster.all_jobs.
  destruct (next_jobs_above options (budget options (initial_cursor options))
              (initial_cursor options)) as [Habove Hsorted].
  constructor; [assumption|]. now apply Forall_map.
Qed.

Lemma sorted_NoDup (l : list Coords) : StronglySorted lex_lt l -> NoDup l.
Proof.
  induction 1 as [|a l Hs IH Ha]; constructor; [|assumption].
  intros Hin. rewrite Forall_forall in Ha.
  exact (lex_lt_irrefl a (Ha a Hin)).
Qed.

Lemma addresses_length :
  zoom_min options <= zoom_max options ->
  List.length (Cluster.addresses options) = budget options (initial_cursor options).
Proof.
  intros Hz. unfold Cluster.addresses, Cluster.all_jobs. cbn [List.length].
  rewrite length_map.
  destruct (next_jobs_complete options _ (initial_cursor options) (le_n _))
    as (_ & -> & _).
  unfold jobs_left. change (cz (coords (initial_cursor options))) with (zoom_min options).
  destruct (Z.ltb_spec (zoom_max options) (zoom_min options)); [lia|].
  destruct (budget_succ options (initial_cursor options)) as [n ->]. reflexivity.
Qed.

Hypothesis Hzoom : zoom_min options <= zoom_max options.
Hypothesis Hwf : well_formed_run options.

Lemma addresses_nested : Cluster.addresses options = nested_order options.
Proof.
  unfold Cluster.addresses, Cluster.all_jobs.
  rewrite (next_jobs_nested options Hwf) by
    (try apply initial_on_tile; try assumption; apply le_n).
  symmetry. now apply nested_order_initial.
Qed.

Lemma budget_closed_form :
  Z.of_nat (budget options (initial_cursor options)) = closed_form options.
Proof.
  rewrite <- addresses_length by assumption.
  rewrite addresses_nested. now apply nested_order_length.
Qed.

Lemma sequential_tiles_nested (env : Env) (fs : FS) :
  Sequential.returned (Sequential.getTiles env options fs) = [] ->
  Sequential.tiles (Sequential.getTiles env options fs) = nested_order options /\
  count (Sequential.cursor (Sequential.getTiles env options fs)) = closed_form options.
Proof.
  destruct (fst (createDir env fs (output options))) eqn:Hroot.
  - rewrite (sequential_getTiles_started env options fs Hroot). intros Hret.
    destruct (walk_nested env options Hwf _
                (Sequential.mkRun (initial_cursor options)
                   (snd (createDir env fs (output options))) [] [] [] false)
                (initial_on_tile options Hwf Hzoom) (le_n _) Hret) as [Ht Hc].
    cbn [Sequential.tiles Sequential.cursor app] in Ht, Hc. split.
    + rewrite Ht. symmetry. now apply nested_order_initial.
    + rewrite Hc. change (count (initial_cursor options)) with 0.
      rewrite budget_closed_form. lia.
  - rewrite (sequential_getTiles_aborted env options fs Hroot). discriminate.
Qed.

Lemma cluster_final_count (env : Env) (cpus : nat) (fs : FS) (schedule : list nat) :
  Cluster.killed (Cluster.run env (Cluster.numCPUs cpus) options fs schedule) = true ->
  count (Cluster.cursor (Cluster.run env (Cluster.numCPUs cpus) options fs schedule)) =
  closed_form options.
Proof.
  pose proof (numCPUs_positive cpus) as HW.
  destruct (fst (createDir env fs (output options))) eqn:Hroot.
  2:{ rewrite (cluster_run_aborted env options _ fs schedule Hroot).
      rewrite (cluster_getTiles_aborted env options _ fs Hroot). discriminate. }
  pose proof (cluster_run_invariant env options _ fs schedule HW Hroot) as Hinv.
  intros Hk.
  destruct Hinv as [(k & later & _ & _ & Hcur) _ _ Hkilled Hstopped _].
  rewrite Hk in Hkilled. symmetry in Hkilled.
  apply negb_true_iff, Nat.ltb_ge in Hkilled.
  specialize (Hstopped ltac:(lia)). rewrite Hcur in Hstopped |- *.
  rewrite <- (next_jobs_stable options k
                (Nat.max k (budget options (initial_cursor options))))
    by (try assumption; lia).
  destruct (next_jobs_complete options
              (Nat.max k (budget options (initial_cursor options)))
              (initial_cursor options) ltac:(lia)) as (_ & _ & ->).
  change (cz (coords (initial_cursor options))) with (zoom_min options).
  destruct (Z.ltb_spec (zoom_max options) (zoom_min options)); [lia|].
  change (count (initial_cursor options)) with 0.
  rewrite budget_closed_form. lia.
Qed.

End OrderFacts.

(** C3, with the condition it needs. One call of [getNextJob] on a cursor that
    is not past [options.zoom.max] moves one row south; past the south row it
    moves one column east and back to the north row; past the east column it
    moves to the next zoom level, takes the rectangle of that level from
    [bboxToBounds] and starts at its west column and north row, and returns
    nothing when that level is past [options.zoom.max]. A cursor past
    [options.zoom.max] stays where it is and every call returns nothing, which
    is the case after any call that returned nothing. The addresses of a run
    are strictly ascending by zoom level, then column, then row. For a zoom
    range with [min <= max] and a bounding box whose rectangle is well formed
    at every zoom level of the range they are exactly the nested order: [z]
    over [[min, max]], within one [z] [x] over [[west, east]], within one [x]
    [y] over [[north, south]]; so are the tiles of the sequential walk when
    every request is fulfilled and no path error stops it. *)
Theorem iteration_order {num : Type} {M : CoordinateMapper num} (options : Options num) :
  (forall cur,
      cz (coords cur) <= zoom_max options ->
      let c := coords cur in
      let b := bounds cur in
      let b' := bboxToBounds (bbox options) (cz c + 1) in
      let emit := fun c' b' =>
        (Some (Cluster.job_of options c' None), mkCursor c' b' (count cur + 1)) in
      Cluster.getNextJob options cur =
      if cy c + 1 <=? south b then emit (mkCoords (cz c) (cx c) (cy c + 1)) b
      else if cx c + 1 <=? east b then emit (mkCoords (cz c) (cx c + 1) (north b)) b
      else if cz c + 1 <=? zoom_max options
           then emit (mkCoords (cz c + 1) (west b') (north b')) b'
           else (None, mkCursor (mkCoords (cz c + 1) (west b') (north b')) b'
                                (count cur + 1))) /\
  (forall cur,
      zoom_max options < cz (coords cur) ->
      Cluster.getNextJob options cur = (None, cur)) /\
  (forall cur cur',
      Cluster.getNextJob options cur = (None, cur') ->
      zoom_max options < cz (coords cur')) /\
  StronglySorted lex_lt (Cluster.addresses options) /\
  (zoom_min options <= zoom_max options ->
   well_formed_run options ->
   Cluster.addresses options = nested_order options /\
   forall env fs,
     (forall u, axios_fulfils env u = true) ->
     Sequential.returned (Sequential.getTiles env options fs) = [] ->
     Sequential.tiles (Sequential.getTiles env options fs) = nested_order options).
Proof.
  split; [|split; [|split; [|split]]].
  - intros cur Hz c b b' emit. unfold Cluster.getNextJob.
    destruct (Z.ltb_spec (zoom_max options) (cz (coords cur))); [lia|].
    reflexivity.
  - apply getNextJob_exhausted.
  - intros cur cur' H. now apply getNextJob_None in H.
  - apply addresses_sorted.
  - intros Hzoom Hwf. split.
    + now apply addresses_nested.
    + intros env fs _ Hret. now apply sequential_tiles_nested.
Qed.

Lemma iteration_order_witness :
  Cluster.addresses example_two_zooms =
  [mkCoords 0 0 0; mkCoords 1 1 0; mkCoords 1 1 1].
Proof.
  rewrite <- example_nested_order.
  apply (iteration_order example_two_zooms).
  - cbn. lia.
  - exact example_two_zooms_well_formed.
Defined.

(** C2, with the condition it needs. For a zoom range with [min <= max] and a
    bounding box whose rectangle is well formed at every zoom level of the
    range, the number of addresses the iterator produces (the seed and the
    jobs of [getNextJob]) is the closed form, the sum over the zoom levels of
    [(east - west + 1) * (south - north + 1)], and so is the count the cluster
    version reports when it stops its workers and the count the sequential
    version reports at the end of a walk without a path error. *)
Theorem total_count {num : Type} {M : CoordinateMapper num} (options : Options num) :
  zoom_min options <= zoom_max options ->
  well_formed_run options ->
  Z.of_nat (List.length (Cluster.addresses options)) = closed_form options /\
  (forall env cpus fs schedule,
      let sys := Cluster.run env (Cluster.numCPUs cpus) options fs schedule in
      Cluster.killed sys = true ->
      count (Cluster.cursor sys) = closed_form options) /\
  (forall env fs,
      let r := Sequential.getTiles env options fs in
      Sequential.returned r = [] ->
      Sequential.ended r = true /\ count (Sequential.cursor r) = closed_form options).
Proof.
  intros Hzoom Hwf. split; [|split].
  - rewrite addresses_length by assumption. now apply budget_closed_form.
  - intros env cpus fs schedule sys Hk. now apply cluster_final_count.
  - intros env fs r Hret. split.
    + subst r. destruct (fst (createDir env fs (output options))) eqn:Hroot.
      * rewrite (sequential_getTiles_started env options fs Hroot).
        apply walk_ends. apply le_n.
      * now rewrite (sequential_getTiles_aborted env options fs Hroot).
    + now apply sequential_tiles_nested.
Qed.

(** The rectangle of the box across the antimeridian has its west column east
    of its east column. *)
Lemma antimeridian_bounds :
  bboxToBounds (bbox antimeridian_options) 1 = mkBounds 0 1 1 0.
Proof.
  unfold bboxToBounds, antimeridian_options. cbn [bbox bbox0 bbox1 bbox2 bbox3].
  cbn [lngToTile latToTile RealMath.mapper].
  now rewrite latToTile_0_1, lngToTile_170_1, latToTile_45_1, lngToTile_minus_170_1.
Qed.

(** C2 as it is stated, for every bounding box, fails: for the box across the
    antimeridian the closed form is 0, and the code still visits the two
    tiles of the west column and reports 2, in both versions. *)
Lemma count_is_not_closed_form_across_antimeridian :
  let options := antimeridian_options in
  let sys := Cluster.run example_env (Cluster.numCPUs 1) options [] [1%nat; 1%nat] in
  zoom_min options <= zoom_max options /\
  closed_form options = 0 /\
  Cluster.addresses options = [mkCoords 1 1 0; mkCoords 1 1 1] /\
  Cluster.killed sys = true /\
  count (Cluster.cursor sys) = 2 /\
  count (Sequential.cursor (Sequential.getTiles example_env options [])) = 2.
Proof.
  cbv zeta.
  assert (Hinit : initial_cursor antimeridian_options =
                  mkCursor (mkCoords 1 1 0) (mkBounds 0 1 1 0) 0).
  { unfold initial_cursor. change (zoom_min antimeridian_options) with 1.
    now rewrite antimeridian_bounds. }
  split; [cbn; lia|]. split; [|split; [|split; [|split]]].
  - unfold closed_form, tiles_at.
    change (zoom_min antimeridian_options) with 1.
    change (zoom_max antimeridian_options) with 1.
    rewrite (Zrange_cons 1 1), (Zrange_nil (1 + 1) 1) by lia.
    cbn [map Zsum fold_right]. rewrite antimeridian_bounds. reflexivity.
  - unfold Cluster.addresses, Cluster.all_jobs. rewrite Hinit.
    vm_compute. reflexivity.
  - unfold Cluster.run, Cluster.getTiles. rewrite Hinit. vm_compute. reflexivity.
  - unfold Cluster.run, Cluster.getTiles. rewrite Hinit. vm_compute. reflexivity.
  - unfold Sequential.getTiles, Sequential.getTiles_fuel. rewrite Hinit.
    vm_compute. reflexivity.
Qed.

Lemma example_closed_form : closed_form example_two_zooms = 3.
Proof.
  unfold closed_form, tiles_at.
  change (zoom_min example_two_zooms) with 0.
  change (zoom_max example_two_zooms) with 1.
  rewrite (Zrange_cons 0 1), (Zrange_cons (0 + 1) 1), (Zrange_nil (0 + 1 + 1) 1) by lia.
  cbn [map Zsum fold_right]. change (0 + 1) with 1.
  rewrite example_bounds_0, example_bounds_1. reflexivity.
Qed.

Lemma total_count_witness :
  Z.of_nat (List.length (Cluster.addresses example_two_zooms)) = 3.
Proof.
  rewrite <- example_closed_form.
  apply (total_count example_two_zooms).
  - cbn. lia.
  - exact example_two_zooms_well_formed.
Defined.

(** C3 as it is stated, for every rectangle, fails: for the box across the
    antimeridian the west column 1 lies east of the east column 0, so no [x]
    runs over [[west, east]] and the nested order is empty; the iterator and
    the sequential walk still emit the two tiles of column 1, a column that
    is not in [[west, east]]. *)
Lemma nested_order_misses_antimeridian_column :
  let options := antimeridian_options in
  let b := bboxToBounds (bbox options) 1 in
  zoom_min options <= zoom_max options /\
  b = mkBounds 0 1 1 0 /\
  nested_order options = [] /\
  Cluster.addresses options = [mkCoords 1 1 0; mkCoords 1 1 1] /\
  Sequential.tiles (Sequential.getTiles example_env options []) =
  [mkCoords 1 1 0; mkCoords 1 1 1] /\
  Cluster.addresses options <> nested_order options /\
  Forall (fun c => ~ (west b <= cx c <= east b)) (Cluster.addresses options).
Proof.
  cbv zeta.
  assert (Hinit : initial_cursor antimeridian_options =
                  mkCursor (mkCoords 1 1 0) (mkBounds 0 1 1 0) 0).
  { unfold initial_cursor. change (zoom_min antimeridian_options) with 1.
    now rewrite antimeridian_bounds. }
  assert (Hnested : nested_order antimeridian_options = []).
  { unfold nested_order.
    change (zoom_min antimeridian_options) with 1.
    change (zoom_max antimeridian_options) with 1.
    rewrite (Zrange_cons 1 1), (Zrange_nil (1 + 1) 1) by lia.
    cbn [flat_map]. rewrite antimeridian_bounds. reflexivity. }
  assert (Haddr : Cluster.addresses antimeridian_options =
                  [mkCoords 1 1 0; mkCoords 1 1 1]).
  { unfold Cluster.addresses, Cluster.all_jobs. rewrite Hinit.
    vm_compute. reflexivity. }
  split; [cbn; lia|]. split; [exact antimeridian_bounds|].
  split; [exact Hnested|]. split; [exact Haddr|]. split; [|split].
  - unfold Sequential.getTiles, Sequential.getTiles_fuel. rewrite Hinit.
    vm_compute. reflexivity.
  - rewrite Hnested, Haddr. discriminate.
  - rewrite Haddr, antimeridian_bounds. cbn [west east].
    repeat constructor; cbn [cx]; lia.
Qed.

(** ** What the cluster version sends *)

Section SentFacts.
Context {num : Type} {M : CoordinateMapper num}.
Variable env : Env.
Variable options : Options num.

(** The master's handler sends the job of [getNextJob] to the worker that
    reported, whatever the report says. *)
Lemma deliver_sent (W : nat) (sys : Cluster.System) (w : nat)
  (job next : Cluster.Job) (cur' : Cursor) :
  Cluster.killed sys = false ->
  Cluster.pending_job w (Cluster.pending sys) = Some job ->
  Cluster.getNextJob options (Cluster.cursor sys) = (Some next, cur') ->
  let sys' := Cluster.deliver env W options sys w in
  Cluster.sent sys' = Cluster.sent sys ++ [(w, next)] /\
  Cluster.pending_job w (Cluster.pending sys') = Some next /\
  Cluster.cursor sys' = cur' /\
  Cluster.killed sys' = false /\
  Cluster.returned sys' = Cluster.returned sys.
Proof.
  intros Hk Hjob Hnext. unfold Cluster.deliver. rewrite Hk, Hjob.
  destruct (Cluster.worker_onMessage env (Cluster.files sys) job) as [msg out].
  unfold Cluster.master_onMessage. cbn [Cluster.cursor]. rewrite Hnext.
  cbn [Cluster.sent Cluster.pending Cluster.cursor Cluster.killed Cluster.returned].
  repeat split; try assumption.
  unfold Cluster.pending_job. cbn. now rewrite Nat.eqb_refl.
Qed.

(** What the master does on a report does not depend on the report: the
    cursor, the counter, the jobs held and sent, and the end of the run are
    the same in every environment. *)
Lemma deliver_master_part (env' : Env) (W : nat) (sys sys' : Cluster.System) (w : nat) :
  let master := fun s =>
    (Cluster.cursor s, Cluster.stopped s, Cluster.pending s, Cluster.sent s,
     Cluster.killed s, Cluster.returned s) in
  master sys = master sys' ->
  master (Cluster.deliver env W options sys w) =
  master (Cluster.deliver env' W options sys' w).
Proof.
  intros master [= Hc Hs Hp Hsent Hk Hr]. unfold master, Cluster.deliver.
  rewrite <- Hk, <- Hp.
  destruct (Cluster.killed sys) eqn:Hk0; [cbv iota; congruence|].
  destruct (Cluster.pending_job w (Cluster.pending sys)) as [job|] eqn:Hj;
    [|cbv iota; congruence].
  destruct (Cluster.worker_onMessage env (Cluster.files sys) job) as [msg out].
  destruct (Cluster.worker_onMessage env' (Cluster.files sys') job) as [msg' out'].
  unfold Cluster.master_onMessage. cbn [Cluster.cursor]. rewrite <- Hc.
  destruct (Cluster.getNextJob options (Cluster.cursor sys)) as [[next|] cur'].
  - cbn. congruence.
  - unfold Cluster.stopChildProcesses.
    cbn [Cluster.cursor Cluster.stopped Cluster.workers Cluster.pending
         Cluster.sent Cluster.killed Cluster.returned].
    rewrite <- Hs.
    destruct (S (Cluster.stopped sys) <? W)%nat;
      cbn [Cluster.cursor Cluster.stopped Cluster.workers Cluster.pending
           Cluster.sent Cluster.killed Cluster.returned];
      congruence.
Qed.

(** The addresses of all jobs sent so far: the seed once per worker, then
    addresses that ascend strictly from the seed. *)
Lemma sent_addresses (cpus : nat) (fs : FS) (schedule : list nat) :
  fst (createDir env fs (output options)) = true ->
  exists rest,
    map (fun e => Cluster.job_coords (snd e))
        (Cluster.sent (Cluster.run env (Cluster.numCPUs cpus) options fs schedule)) =
    repeat (coords (initial_cursor options)) (Cluster.numCPUs cpus) ++ rest /\
    StronglySorted lex_lt (coords (initial_cursor options) :: rest).
Proof.
  intros Hroot.
  pose proof (cluster_run_invariant env options _ fs schedule
                (numCPUs_positive cpus) Hroot) as Hinv.
  destruct Hinv as [(k & later & Hsent & Hlater & _) _ _ _ _ _].
  exists (map Cluster.job_coords (map snd later)). split.
  - rewrite Hsent, map_app, first_jobs_coords. f_equal. now rewrite map_map.
  - rewrite Hlater.
    destruct (next_jobs_above options k (initial_cursor options)) as [Ha Hs].
    constructor; [assumption|]. now apply Forall_map.
Qed.

End SentFacts.

(** C1, what the code does. In the cluster version the loop that starts the
    workers sends each of them a job built from the same, unmoved [coords]:
    with two workers or more, the address the cursor starts from is sent
    twice, so the addresses of the jobs sent are not free of repetitions. *)
Theorem first_address_sent_to_every_worker {num : Type} {M : CoordinateMapper num}
  (env : Env) (cpus : nat) (options : Options num) (fs : FS) (schedule : list nat) :
  fst (createDir env fs (output options)) = true ->
  (2 <= Cluster.numCPUs cpus)%nat ->
  let issued :=
    map (fun e => Cluster.job_coords (snd e))
        (Cluster.sent (Cluster.run env (Cluster.numCPUs cpus) options fs schedule)) in
  (exists rest,
      issued = coords (initial_cursor options) :: coords (initial_cursor options) :: rest) /\
  ~ NoDup issued.
Proof.
  intros Hroot HW issued.
  destruct (sent_addresses env options cpus fs schedule Hroot) as (rest & Hsent & _).
  fold issued in Hsent. clearbody issued.
  destruct (Cluster.numCPUs cpus) as [|[|W]]; try lia.
  cbn [repeat app] in Hsent.
  assert (Htwice : exists rest',
             issued = coords (initial_cursor options)
                      :: coords (initial_cursor options) :: rest')
    by (eexists; exact Hsent).
  split; [exact Htwice|].
  destruct Htwice as [rest' ->]. intros Hnd.
  inversion Hnd as [|? ? Hnotin _]; subst. apply Hnotin. now left.
Qed.

Lemma first_address_sent_to_every_worker_witness :
  ~ NoDup (map (fun e => Cluster.job_coords (snd e))
               (Cluster.sent (Cluster.run example_env (Cluster.numCPUs 2)
                                          example_options [] []))).
Proof.
  apply (first_address_sent_to_every_worker example_env 2 example_options [] []).
  - reflexivity.
  - cbn. lia.
Defined.

(** The iterator itself never repeats an address. *)
Theorem iterator_never_repeats {num : Type} {M : CoordinateMapper num}
  (options : Options num) :
  NoDup (Cluster.addresses options).
Proof. apply sorted_NoDup, addresses_sorted. Qed.

(** The jobs sent in a cluster run repeat no address but the first: their
    addresses are the address the cursor starts from, once per worker, followed
    by addresses that ascend strictly from it. With one worker no address is
    sent twice. *)
Theorem only_first_address_repeated {num : Type} {M : CoordinateMapper num}
  (env : Env) (cpus : nat) (options : Options num) (fs : FS) (schedule : list nat) :
  let sys := Cluster.run env (Cluster.numCPUs cpus) options fs schedule in
  let issued := map (fun e => Cluster.job_coords (snd e)) (Cluster.sent sys) in
  (issued = [] \/
   exists rest,
     issued = repeat (coords (initial_cursor options)) (Cluster.numCPUs cpus) ++ rest /\
     StronglySorted lex_lt (coords (initial_cursor options) :: rest)) /\
  (Cluster.numCPUs cpus = 1%nat -> NoDup issued).
Proof.
  intros sys issued.
  destruct (fst (createDir env fs (output options))) eqn:Hroot.
  - destruct (sent_addresses env options cpus fs schedule Hroot) as (rest & Hsent & Hs).
    fold sys in Hsent. fold issued in Hsent. split.
    + right. now exists rest.
    + intros H1. rewrite Hsent, H1. cbn [repeat app]. now apply sorted_NoDup.
  - assert (Hnil : issued = []).
    { unfold issued, sys.
      rewrite (cluster_run_aborted env options _ fs schedule Hroot).
      now rewrite (cluster_getTiles_aborted env options _ fs Hroot). }
    split; [now left|]. intros _. rewrite Hnil. constructor.
Qed.

Lemma only_first_address_repeated_witness :
  NoDup (map (fun e => Cluster.job_coords (snd e))
             (Cluster.sent (Cluster.run example_env (Cluster.numCPUs 1)
                                        example_options [] [1%nat]))).
Proof.
  apply (only_first_address_repeated example_env 1 example_options [] [1%nat]).
  reflexivity.
Defined.

(** ** The tile that is already there *)

(** The master's handler leaves the file system and the requests alone. *)
Lemma master_onMessage_files {num : Type} {M : CoordinateMapper num}
  (W : nat) (options : Options num) (w : nat) (msg : Cluster.Message)
  (sys : Cluster.System) :
  Cluster.files (Cluster.master_onMessage W options w msg sys) = Cluster.files sys /\
  Cluster.requests (Cluster.master_onMessage W options w msg sys) =
  Cluster.requests sys.
Proof.
  unfold Cluster.master_onMessage.
  destruct (Cluster.getNextJob options (Cluster.cursor sys)) as [[job|] cur'].
  - now split.
  - unfold Cluster.stopChildProcesses.
    cbn [Cluster.cursor Cluster.stopped Cluster.workers Cluster.pending
         Cluster.sent Cluster.killed Cluster.returned Cluster.files
         Cluster.requests].
    destruct (S (Cluster.stopped sys) <? W)%nat; now split.
Qed.

(** C4. A worker that receives a job whose destination
    [{output}/{z}/{x}/{y}.{format}] exists creates nothing and requests
    nothing: [getTile] calls its callback with [null] at once, so the report
    carries no error (its field [success], which the code sets to [!!err], is
    false), no URL is requested through axios and the file system is as it
    was. In a run, the event of such a job leaves the list of requested URLs
    and the file system as they were. *)
Theorem existing_tile_not_fetched (env : Env) (fs : FS) (job : Cluster.Job) :
  existsSync fs (tile_path (Cluster.job_output job) (Cluster.job_coords job)
                           (Cluster.job_format job)) = true ->
  Cluster.worker_onMessage env fs job =
  (Cluster.mkMessage (Cluster.job_url job) false None, mkOutcome None [] fs) /\
  (forall (num : Type) (M : CoordinateMapper num) (W : nat) (options : Options num)
          (sys : Cluster.System) (w : nat),
      Cluster.files sys = fs ->
      Cluster.killed sys = false ->
      Cluster.pending_job w (Cluster.pending sys) = Some job ->
      Cluster.requests (Cluster.deliver env W options sys w) = Cluster.requests sys /\
      Cluster.files (Cluster.deliver env W options sys w) = fs).
Proof.
  intros Himage.
  assert (Hreport : Cluster.worker_onMessage env fs job =
                    (Cluster.mkMessage (Cluster.job_url job) false None,
                     mkOutcome None [] fs)).
  { unfold Cluster.worker_onMessage.
    now rewrite (cluster_getTile_has env fs _ _ _ _ _ Himage). }
  split; [exact Hreport|].
  intros num M W options sys w Hfs Hk Hjob. unfold Cluster.deliver.
  rewrite Hk, Hjob, Hfs, Hreport.
  destruct (master_onMessage_files W options w
              (Cluster.mkMessage (Cluster.job_url job) false None)
              (Cluster.mkSystem (Cluster.cursor sys) (Cluster.stopped sys)
                 (Cluster.workers sys) (Cluster.pending sys) (Cluster.sent sys)
                 false (Cluster.returned sys) (fs_after (mkOutcome None [] fs))
                 (Cluster.requests sys ++ requested (mkOutcome None [] fs))))
    as [Hf Hr].
  rewrite Hf, Hr. cbn [Cluster.files Cluster.requests fs_after requested].
  now rewrite app_nil_r.
Qed.

Lemma existing_tile_not_fetched_witness :
  Cluster.worker_onMessage offline_env ["tiles/1/1/0.png"%string]
    (Cluster.job_of example_options (mkCoords 1 1 0) (Some 1%nat)) =
  (Cluster.mkMessage "https://b.tile.openstreetmap.org/{z}/{x}/{y}.png" false None,
   mkOutcome None [] ["tiles/1/1/0.png"%string]).
Proof.
  apply (existing_tile_not_fetched offline_env ["tiles/1/1/0.png"%string]
           (Cluster.job_of example_options (mkCoords 1 1 0) (Some 1%nat))).
  reflexivity.
Defined.

(** ** Errors *)

(** C5, as the code has it. When the output directory cannot be created, both
    versions call the caller's callback with the path error of that directory
    and issue no job and no request at all. When the directory of a zoom level
    or of a column cannot be created, [getTile] requests nothing and passes the
    path error of that directory to its callback; the sequential version then
    calls the caller's callback with it and stops, with no further call of
    [getTile]; the master of the cluster version takes the next job from
    [getNextJob] and sends it, and the run goes on. *)
Theorem directory_failure {num : Type} {M : CoordinateMapper num}
  (env : Env) (options : Options num) :
  (forall fs,
      fst (createDir env fs (output options)) = false ->
      (forall cpus schedule,
          let sys := Cluster.run env (Cluster.numCPUs cpus) options fs schedule in
          Cluster.sent sys = [] /\ Cluster.requests sys = [] /\
          Cluster.returned sys = [Some (pathError (output options))]) /\
      (let r := Sequential.getTiles env options fs in
       Sequential.tiles r = [] /\ Sequential.requests r = [] /\
       Sequential.returned r = [Some (pathError (output options))] /\
       Sequential.ended r = true)) /\
  (forall fs templateUrl output c referrer format,
      let dir_z := zoom_dir output c in
      let dir_x := column_dir output c in
      (fst (createDir env fs dir_z) = false ->
       Cluster.getTile env fs templateUrl output c referrer format =
       mkOutcome (Some (pathError dir_z)) [] fs) /\
      (fst (createDir env fs dir_z) = true ->
       fst (createDir env (snd (createDir env fs dir_z)) dir_x) = false ->
       Cluster.getTile env fs templateUrl output c referrer format =
       mkOutcome (Some (pathError dir_x)) [] (snd (createDir env fs dir_z))) /\
      Sequential.getTile env fs templateUrl output c =
      Cluster.getTile env fs templateUrl output c referrer "png") /\
  (forall fuel st e,
      callback_err (Sequential.getTile env (Sequential.files st) (url options)
                      (output options) (coords (Sequential.cursor st))) = Some e ->
      let r := Sequential.walk (S fuel) env options st in
      Sequential.tiles r = Sequential.tiles st ++ [coords (Sequential.cursor st)] /\
      Sequential.returned r = Sequential.returned st ++ [Some e] /\
      Sequential.ended r = true) /\
  (forall W sys w job e next cur',
      Cluster.killed sys = false ->
      Cluster.pending_job w (Cluster.pending sys) = Some job ->
      Cluster.msg_err (fst (Cluster.worker_onMessage env (Cluster.files sys) job)) = Some e ->
      Cluster.getNextJob options (Cluster.cursor sys) = (Some next, cur') ->
      let sys' := Cluster.deliver env W options sys w in
      Cluster.sent sys' = Cluster.sent sys ++ [(w, next)] /\
      Cluster.returned sys' = Cluster.returned sys /\
      Cluster.killed sys' = false).
Proof.
  split; [|split; [|split]].
  - intros fs Hroot. split.
    + intros cpus schedule sys. subst sys.
      rewrite (cluster_run_aborted env options _ fs schedule Hroot).
      now rewrite (cluster_getTiles_aborted env options _ fs Hroot).
    + now rewrite (sequential_getTiles_aborted env options fs Hroot).
  - intros fs templateUrl output c referrer format dir_z dir_x. repeat split.
    + intros Hz. destruct (createDir env fs dir_z) as [ok fs'] eqn:Hc.
      cbn in Hz. subst ok. pose proof Hc as Hc'.
      apply createDir_false in Hc'. destruct Hc' as [-> _].
      now apply cluster_getTile_z_fails.
    + intros Hz Hx. destruct (createDir env fs dir_z) as [ok fs1] eqn:Hc.
      cbn in Hz. subst ok. cbn [snd] in *.
      destruct (createDir env fs1 dir_x) as [ok fs2] eqn:Hc2.
      cbn in Hx. subst ok. pose proof Hc2 as Hc2'.
      apply createDir_false in Hc2'. destruct Hc2' as [-> _].
      now apply (cluster_getTile_x_fails env fs templateUrl output c referrer format fs1 fs1).
  - intros fuel st e He r. subst r. rewrite (walk_abort env options fuel st e He).
    now cbn.
  - intros W sys w job e next cur' Hk Hjob _ Hnext sys'.
    destruct (deliver_sent env options W sys w job next cur' Hk Hjob Hnext)
      as (H1 & _ & _ & H2 & H3).
    now repeat split.
Qed.

Lemma directory_failure_witness :
  (let r := Sequential.getTiles readonly_env example_options [] in
   Sequential.tiles r = [] /\ Sequential.requests r = [] /\
   Sequential.returned r = [Some (pathError "tiles")] /\
   Sequential.ended r = true) /\
  Cluster.getTile no_zoom_dir_env ["tiles"%string]
    "https://b.tile.openstreetmap.org/{z}/{x}/{y}.png" "tiles" (mkCoords 1 1 0)
    None "png" =
  mkOutcome (Some (pathError "tiles/1")) [] ["tiles"%string].
Proof.
  split.
  - apply (directory_failure readonly_env example_options). reflexivity.
  - apply (directory_failure no_zoom_dir_env example_options). reflexivity.
Defined.

(** In the cluster version a directory that cannot be created does not end
    the run. One worker, the example box, every directory but [tiles/1] can be
    created: the first job fails with the path error of [tiles/1], the
    caller's callback is not called, and the master sends the next job. *)
Lemma cluster_goes_on_after_directory_failure :
  let sys := Cluster.run no_zoom_dir_env (Cluster.numCPUs 1) example_options [] [1%nat] in
  createDir no_zoom_dir_env ["tiles"%string] "tiles/1" = (false, ["tiles"%string]) /\
  Cluster.msg_err
    (fst (Cluster.worker_onMessage no_zoom_dir_env ["tiles"%string]
            (Cluster.job_of example_options (mkCoords 1 1 0) (Some 1%nat)))) =
  Some (pathError "tiles/1") /\
  Cluster.returned sys = [] /\
  Cluster.killed sys = false /\
  map (fun e => Cluster.job_coords (snd e)) (Cluster.sent sys) =
  [mkCoords 1 1 0; mkCoords 1 1 1].
Proof.
  cbv zeta. split; [reflexivity|]. split; [reflexivity|].
  unfold Cluster.run, Cluster.getTiles. rewrite example_initial_cursor.
  repeat split; vm_compute; reflexivity.
Qed.

(** ** A request that is rejected *)

Section HostFacts.
Context {num : Type} {M : CoordinateMapper num}.
Variable rt : Runtime.
Variable env : Env.
Variable W : nat.
Variable options : Options num.

Lemma host_deliver_exited (st : Host.State) (w : nat) :
  In w (Host.exited st) -> Host.deliver rt env W options st w = st.
Proof.
  intros Hin. unfold Host.deliver.
  assert (H : existsb (Nat.eqb w) (Host.exited st) = true).
  { apply existsb_exists. exists w. split; [assumption|apply Nat.eqb_refl]. }
  now rewrite H.
Qed.

Lemma host_deliver_idle (st : Host.State) (w : nat) :
  Cluster.pending_job w (Cluster.pending (Host.master st)) = None ->
  Host.deliver rt env W options st w = st.
Proof.
  intros Hnone. unfold Host.deliver. rewrite Hnone.
  destruct (existsb _ _); [reflexivity|].
  now destruct (Cluster.killed (Host.master st)).
Qed.

(** Once every worker that holds a job has ended, nothing happens any
    more. *)
Lemma host_stuck (st : Host.State) (schedule : list nat) :
  (forall w job, Cluster.pending_job w (Cluster.pending (Host.master st)) = Some job ->
                 In w (Host.exited st)) ->
  fold_left (Host.deliver rt env W options) schedule st = st.
Proof.
  intros Hall. induction schedule as [|w rest IH]; cbn [fold_left]; [reflexivity|].
  assert (Hw : Host.deliver rt env W options st w = st).
  { destruct (Cluster.pending_job w (Cluster.pending (Host.master st))) as [job|] eqn:Hj.
    - apply host_deliver_exited. now apply (Hall w job).
    - now apply host_deliver_idle. }
  now rewrite Hw.
Qed.

End HostFacts.

(** In a runtime that only warns, no process ends and the run is the run of
    [Cluster.run]. *)
Lemma host_deliver_warn {num : Type} {M : CoordinateMapper num} (report : bool)
  (env : Env) (W : nat) (options : Options num) (sys : Cluster.System) (w : nat) :
  Host.deliver (mkRuntime mode_warn report) env W options (Host.mkState sys []) w =
  Host.mkState (Cluster.deliver env W options sys w) [].
Proof.
  unfold Host.deliver, Cluster.deliver. cbn [Host.exited Host.master existsb].
  destruct (Cluster.killed sys); [reflexivity|].
  destruct (Cluster.pending_job w (Cluster.pending sys)) as [job|]; reflexivity.
Qed.

Lemma host_run_warn {num : Type} {M : CoordinateMapper num} (report : bool)
  (env : Env) (W : nat) (options : Options num) (fs : FS) (schedule : list nat) :
  Host.run (mkRuntime mode_warn report) env W options fs schedule =
  Host.mkState (Cluster.run env W options fs schedule) [].
Proof.
  unfold Host.run, Cluster.run.
  generalize (Cluster.getTiles env W options fs).
  induction schedule as [|w rest IH]; intros sys; cbn [fold_left]; [reflexivity|].
  now rewrite host_deliver_warn, IH.
Qed.

(** The example run with one worker when every request is rejected and the
    runtime raises rejections that nothing handles: its start, and its state
    once the worker has reported on its first job. *)
Lemma offline_start (report : bool) :
  Host.run (mkRuntime mode_throw report) offline_env (Cluster.numCPUs 1)
           example_options [] [] =
  Host.mkState
    (Cluster.mkSystem (mkCursor (mkCoords 1 1 0) (mkBounds 0 1 1 1) 0) 0 [1%nat]
       [(1%nat, Cluster.job_of example_options (mkCoords 1 1 0) (Some 1%nat))]
       [(1%nat, Cluster.job_of example_options (mkCoords 1 1 0) (Some 1%nat))]
       false [] ["tiles"%string] [])
    [].
Proof.
  unfold Host.run, Cluster.getTiles. cbn [fold_left].
  rewrite example_initial_cursor. reflexivity.
Qed.

Lemma offline_first_report (report : bool) :
  let st := Host.run (mkRuntime mode_throw report) offline_env (Cluster.numCPUs 1)
                     example_options [] [1%nat] in
  Host.exited st = [1%nat] /\
  Cluster.killed (Host.master st) = false /\
  Cluster.returned (Host.master st) = [] /\
  Cluster.requests (Host.master st) =
    ["https://b.tile.openstreetmap.org/1/1/0.png"%string] /\
  existsSync (Cluster.files (Host.master st)) "tiles/1/1/0.png" = false /\
  map fst (Cluster.pending (Host.master st)) = [1%nat] /\
  map (fun e => Cluster.job_coords (snd e)) (Cluster.sent (Host.master st)) =
    if report then [mkCoords 1 1 0; mkCoords 1 1 1] else [mkCoords 1 1 0].
Proof.
  cbv zeta. unfold Host.run. cbn [fold_left].
  pose proof (offline_start report) as Hs. unfold Host.run in Hs. cbn [fold_left] in Hs.
  rewrite Hs. destruct report; vm_compute; repeat split; reflexivity.
Qed.

Lemma offline_run (report : bool) (schedule : list nat) :
  let rt := mkRuntime mode_throw report in
  Host.run rt offline_env (Cluster.numCPUs 1) example_options [] schedule =
  if existsb (Nat.eqb 1) schedule
  then Host.run rt offline_env (Cluster.numCPUs 1) example_options [] [1%nat]
  else Host.run rt offline_env (Cluster.numCPUs 1) example_options [] [].
Proof.
  cbv zeta. set (rt := mkRuntime mode_throw report).
  destruct (offline_first_report report) as (Hex & _ & _ & _ & _ & Hp & _).
  cbv zeta in Hex, Hp. fold rt in Hex, Hp.
  unfold Host.run in *. cbn [fold_left] in *.
  pose proof (offline_start report) as Hs. unfold Host.run in Hs. cbn [fold_left] in Hs.
  fold rt in Hs.
  set (s0 := Host.mkState (Cluster.getTiles offline_env (Cluster.numCPUs 1)
                             example_options []) []) in *.
  induction schedule as [|w rest IH]; cbn [fold_left existsb]; [reflexivity|].
  destruct (Nat.eqb_spec 1 w) as [<-|Hw]; cbn [orb].
  - apply host_stuck. intros w job Hj. rewrite Hex.
    apply pending_job_In in Hj. apply (in_map fst) in Hj. rewrite Hp in Hj.
    exact Hj.
  - rewrite (host_deliver_idle rt offline_env _ example_options s0 w); [exact IH|].
    rewrite Hs. cbn [Host.master Cluster.pending]. unfold Cluster.pending_job.
    cbn [find fst]. destruct (Nat.eqb_spec 1 w); [contradiction|reflexivity].
Qed.

(** C6, what the code does. The promise chain of [getTile] has no [catch]:
    a rejected request leaves a rejected promise that nothing handles. In a
    runtime that raises such a rejection (Node 15 and later) the worker
    reports and its process ends; the master is not told and sends the next
    job to it, or, when the report is lost, goes on waiting for it. In the
    example with one worker and every request rejected the run then never
    comes to its end, under any schedule: the workers are never killed by
    [stopChildProcesses], the caller's callback is never called, and after
    the first tile no tile is requested. In a runtime that only warns the
    run is the run of [Cluster.run], and the same example ends after two
    reports with the callback called once and both tiles absent. *)
Theorem rejected_request_ends_the_worker :
  (forall (report : bool) (schedule : list nat),
      let st := Host.run (mkRuntime mode_throw report) offline_env (Cluster.numCPUs 1)
                         example_options [] schedule in
      Cluster.killed (Host.master st) = false /\
      Cluster.returned (Host.master st) = [] /\
      (Cluster.requests (Host.master st) = [] \/
       Cluster.requests (Host.master st) =
         ["https://b.tile.openstreetmap.org/1/1/0.png"%string]) /\
      (In 1%nat schedule -> Host.exited st = [1%nat])) /\
  (forall (num : Type) (M : CoordinateMapper num) (report : bool) (env : Env) (W : nat)
          (options : Options num) (fs : FS) (schedule : list nat),
      Host.run (mkRuntime mode_warn report) env W options fs schedule =
      Host.mkState (Cluster.run env W options fs schedule) []) /\
  (let sys := Cluster.run offline_env (Cluster.numCPUs 1) example_options []
                          [1%nat; 1%nat] in
   Cluster.killed sys = true /\ Cluster.returned sys = [None] /\
   existsSync (Cluster.files sys) "tiles/1/1/0.png" = false /\
   existsSync (Cluster.files sys) "tiles/1/1/1.png" = false).
Proof.
  split; [|split].
  - intros report schedule st. subst st. rewrite offline_run.
    destruct (existsb (Nat.eqb 1) schedule) eqn:Hin.
    + destruct (offline_first_report report) as (Hex & Hk & Hr & Hq & _).
      cbv zeta in Hex, Hk, Hr, Hq.
      split; [exact Hk|]. split; [exact Hr|]. split; [now right|]. intros _. exact Hex.
    + rewrite offline_start. cbn [Host.master Host.exited Cluster.killed
                                  Cluster.returned Cluster.requests].
      split; [reflexivity|]. split; [reflexivity|]. split; [now left|].
      intros H1. exfalso.
      assert (Ht : existsb (Nat.eqb 1) schedule = true).
      { apply existsb_exists. exists 1%nat. split; [assumption|reflexivity]. }
      congruence.
  - intros num M report env W options fs schedule. apply host_run_warn.
  - cbv zeta. unfold Cluster.run, Cluster.getTiles. rewrite example_initial_cursor.
    repeat split; vm_compute; reflexivity.
Qed.

(** ** Three runs of the example *)

(** One worker, every request is rejected, in a runtime that only warns of
    the rejections: both tiles are requested in order, no file is written,
    the count is 2 and the run ends without an error. *)
Example example_run_one_worker :
  let sys := Cluster.run offline_env (Cluster.numCPUs 1) example_options []
                         [1%nat; 1%nat] in
  map (fun e => (fst e, Cluster.job_coords (snd e))) (Cluster.sent sys) =
    [(1%nat, mkCoords 1 1 0); (1%nat, mkCoords 1 1 1)] /\
  Cluster.requests sys =
    ["https://b.tile.openstreetmap.org/1/1/0.png"%string;
     "https://b.tile.openstreetmap.org/1/1/1.png"%string] /\
  Cluster.files sys = ["tiles/1/1"%string; "tiles/1"%string; "tiles"%string] /\
  count (Cluster.cursor sys) = 2 /\
  Cluster.killed sys = true /\ Cluster.returned sys = [None].
Proof.
  cbv zeta. unfold Cluster.run, Cluster.getTiles. rewrite example_initial_cursor.
  repeat split; vm_compute; reflexivity.
Qed.

(** Two workers: both start on the tile (1, 1, 0); the second finds the file
    the first has written and requests nothing. *)
Example example_run_two_workers :
  let sys := Cluster.run example_env (Cluster.numCPUs 2) example_options []
                         [1%nat; 2%nat; 1%nat] in
  map (fun e => (fst e, Cluster.job_coords (snd e))) (Cluster.sent sys) =
    [(1%nat, mkCoords 1 1 0); (2%nat, mkCoords 1 1 0); (1%nat, mkCoords 1 1 1)] /\
  Cluster.requests sys =
    ["https://b.tile.openstreetmap.org/1/1/0.png"%string;
     "https://b.tile.openstreetmap.org/1/1/1.png"%string] /\
  count (Cluster.cursor sys) = 2 /\
  Cluster.killed sys = true /\ Cluster.returned sys = [None].
Proof.
  cbv zeta. unfold Cluster.run, Cluster.getTiles. rewrite example_initial_cursor.
  repeat split; vm_compute; reflexivity.
Qed.

(** The sequential version on the same box. *)
Example example_run_sequential :
  let r := Sequential.getTiles example_env example_options [] in
  Sequential.tiles r = [mkCoords 1 1 0; mkCoords 1 1 1] /\
  Sequential.files r =
    ["tiles/1/1/1.png"%string; "tiles/1/1/0.png"%string; "tiles/1/1"%string;
     "tiles/1"%string; "tiles"%string] /\
  count (Sequential.cursor r) = 2 /\
  Sequential.ended r = true /\ Sequential.returned r = [].
Proof.
  cbv zeta. unfold Sequential.getTiles, Sequential.getTiles_fuel.
  rewrite example_initial_cursor.
  repeat split; vm_compute; reflexivity.
Qed.

(** ** Strings *)

Lemma Number_toString_chars (n : Z) :
  number_chars (Number_toString n) = true /\ Number_toString n <> EmptyString.
Proof.
  unfold Number_toString.
  assert (Hu : forall u, number_chars (NilEmpty.string_of_uint u) = true)
    by (induction u; cbn; try rewrite IHu; reflexivity).
  assert (Hz : forall u, number_chars (NilZero.string_of_uint u) = true /\
                         NilZero.string_of_uint u <> EmptyString).
  { intros u. split.
    - destruct u; try apply (Hu (_ _)); reflexivity.
    - destruct u; cbn; discriminate. }
  destruct (Z.to_int n) as [u|u]; cbn [NilZero.string_of_int].
  - apply Hz.
  - split; [|discriminate]. cbn [number_chars]. now rewrite (proj1 (Hz u)).
Qed.

Lemma prefix_placeholder (m : ascii) (s : string) :
  String.prefix (placeholder m) s = true <->
  exists t, s = String "{" (String m (String "}" t)).
Proof.
  unfold placeholder. split.
  - destruct s as [|a s]; cbn [String.prefix]; [discriminate|].
    destruct (ascii_dec "{" a); [|discriminate].
    destruct s as [|b s]; cbn [String.prefix]; [discriminate|].
    destruct (ascii_dec m b); [|discriminate].
    destruct s as [|c t]; cbn [String.prefix]; [discriminate|].
    destruct (ascii_dec "}" c); [|discriminate].
    intros _. subst. now exists t.
  - intros [t ->]. cbn [String.prefix].
    destruct (ascii_dec "{" "{"); [|contradiction].
    destruct (ascii_dec m m); [|contradiction].
    destruct (ascii_dec "}" "}"); [|contradiction].
    apply prefix_nil.
Qed.

Lemma prefix_placeholder_false (m : ascii) (s : string) :
  (forall t, s <> String "{" (String m (String "}" t))) ->
  String.prefix (placeholder m) s = false.
Proof.
  intros H. destruct (String.prefix (placeholder m) s) eqn:Hp; [|reflexivity].
  apply prefix_placeholder in Hp. destruct Hp as [t ->]. now destruct (H t).
Qed.

(** No placeholder starts inside a printed integer. *)
Lemma occurrences_after_number (m : ascii) (rep t : string) :
  number_chars rep = true ->
  occurrences (placeholder m) (String.append rep t) = occurrences (placeholder m) t.
Proof.
  induction rep as [|ch rep IH]; cbn [String.append number_chars]; [reflexivity|].
  intros Hrep. apply andb_true_iff in Hrep. destruct Hrep as [Hch Hrep].
  cbn [occurrences]. rewrite (IH Hrep).
  rewrite prefix_placeholder_false; [reflexivity|].
  intros t' [= -> _]. discriminate.
Qed.

Lemma occurrences_placeholder_head (l m : ascii) (t : string) :
  l <> "{"%char ->
  occurrences (placeholder m) (String.append (placeholder l) t) =
  ((if Ascii.eqb m l then 1 else 0) + occurrences (placeholder m) t)%nat.
Proof.
  intros Hl. unfold placeholder at 2. cbn [String.append occurrences].
  rewrite (prefix_placeholder_false m (String l (String "}" t)))
    by (intros t' [= -> _]; contradiction).
  rewrite (prefix_placeholder_false m (String "}" t))
    by (intros t' [= ]).
  destruct (Ascii.eqb_spec m l) as [->|Hne].
  - rewrite (proj2 (prefix_placeholder l _)) by (now eexists). lia.
  - rewrite prefix_placeholder_false; [lia|]. intros t' [= -> _]. contradiction.
Qed.

Lemma replace_first_match (pat rep s : string) :
  String.prefix pat s = true ->
  replace_first pat rep s = String.append rep (string_drop (String.length pat) s).
Proof. intros H. destruct s; cbn [replace_first]; now rewrite H. Qed.

Lemma replace_first_skip (pat rep : string) (c : ascii) (s : string) :
  String.prefix pat (String c s) = false ->
  replace_first pat rep (String c s) = String c (replace_first pat rep s).
Proof. intros H. cbn [replace_first]. now rewrite H. Qed.

Lemma replace_first_empty (l : ascii) (rep : string) :
  replace_first (placeholder l) rep EmptyString = EmptyString.
Proof. reflexivity. Qed.

Lemma replace_first_placeholder (l : ascii) (rep t : string) :
  replace_first (placeholder l) rep (String "{" (String l (String "}" t))) =
  String.append rep t.
Proof.
  rewrite replace_first_match; [reflexivity|].
  apply prefix_placeholder. now exists t.
Qed.

Lemma prefix_placeholder_three (m a b c : ascii) (t t' : string) :
  String.prefix (placeholder m) (String a (String b (String c t))) =
  String.prefix (placeholder m) (String a (String b (String c t'))).
Proof.
  unfold placeholder. cbn [String.prefix].
  destruct (ascii_dec "{" a); [|reflexivity].
  destruct (ascii_dec m b); [|reflexivity].
  destruct (ascii_dec "}" c); [|reflexivity].
  now rewrite !prefix_nil.
Qed.

(** Replacing the first [{l}] further right does not change whether a
    placeholder starts at the head of the string. *)
Lemma replace_first_keeps_head (l m : ascii) (rep : string) (c : ascii) (s : string) :
  m <> "{"%char -> number_char m = false ->
  number_chars rep = true -> rep <> EmptyString ->
  String.prefix (placeholder m) (String c (replace_first (placeholder l) rep s)) =
  String.prefix (placeholder m) (String c s).
Proof.
  intros Hm Hmn Hrep Hne.
  destruct rep as [|r rep']; [contradiction|].
  cbn [number_chars] in Hrep. apply andb_true_iff in Hrep. destruct Hrep as [Hr _].
  destruct (String.prefix (placeholder l) s) eqn:H1.
  - apply prefix_placeholder in H1. destruct H1 as [t ->].
    rewrite replace_first_placeholder. cbn [String.append].
    rewrite !prefix_placeholder_false; [reflexivity|string_clash|string_clash].
  - destruct s as [|d s]; [reflexivity|].
    rewrite (replace_first_skip _ _ _ _ H1).
    destruct (String.prefix (placeholder l) s) eqn:H2.
    + apply prefix_placeholder in H2. destruct H2 as [t ->].
      rewrite replace_first_placeholder. cbn [String.append].
      rewrite !prefix_placeholder_false; [reflexivity|string_clash|string_clash].
    + destruct s as [|e s]; [reflexivity|].
      rewrite (replace_first_skip _ _ _ _ H2).
      apply prefix_placeholder_three.
Qed.

(** One replacement removes one occurrence of its placeholder, if there is
    one, and none of another placeholder. *)
Lemma occurrences_replace_first (l m : ascii) (rep s : string) :
  l <> "{"%char -> m <> "{"%char -> number_char m = false ->
  number_chars rep = true -> rep <> EmptyString ->
  occurrences (placeholder m) (replace_first (placeholder l) rep s) =
  if Ascii.eqb m l then pred (occurrences (placeholder m) s)
  else occurrences (placeholder m) s.
Proof.
  intros Hl Hm Hmn Hrep Hne.
  induction s as [|c s IH].
  - rewrite replace_first_empty. now destruct (Ascii.eqb m l).
  - destruct (String.prefix (placeholder l) (String c s)) eqn:H1.
    + apply prefix_placeholder in H1. destruct H1 as [t Ht]. rewrite Ht.
      rewrite replace_first_placeholder, (occurrences_after_number m rep t Hrep).
      change (String "{" (String l (String "}" t)))
        with (String.append (placeholder l) t).
      rewrite (occurrences_placeholder_head l m t Hl).
      now destruct (Ascii.eqb m l).
    + rewrite (replace_first_skip _ _ _ _ H1).
      cbn [occurrences].
      rewrite (replace_first_keeps_head l m rep c s Hm Hmn Hrep Hne), IH.
      destruct (Ascii.eqb_spec m l) as [->|Hne']; [|reflexivity].
      now rewrite H1.
Qed.

(** The first occurrence is the one replaced: when no [{l}] starts in [pre],
    the text before and the text after the occurrence are copied. *)
Lemma replace_first_leftmost (l : ascii) (rep pre post : string) :
  occurrences (placeholder l)
    (String.append pre (String "{" (String l EmptyString))) = O ->
  replace_first (placeholder l) rep
    (String.append pre (String.append (placeholder l) post)) =
  String.append pre (String.append rep post).
Proof.
  induction pre as [|c pre IH]; intros Hocc.
  - cbn [String.append]. unfold placeholder at 2. cbn [String.append].
    apply replace_first_placeholder.
  - cbn [String.append occurrences] in Hocc.
    apply Nat.eq_add_0 in Hocc. destruct Hocc as [Hhead Hrest].
    cbn [String.append]. rewrite replace_first_skip; [now rewrite (IH Hrest)|].
    destruct (String.prefix (placeholder l)
                (String c (String.append pre (String "{" (String l EmptyString)))))
      eqn:Hp; [discriminate|].
    destruct (String.prefix (placeholder l)
                (String c (String.append pre (String.append (placeholder l) post))))
      eqn:Hq; [|reflexivity].
    exfalso. apply prefix_placeholder in Hq. destruct Hq as [t Hq].
    assert (Hp' : String.prefix (placeholder l)
                    (String c (String.append pre (String "{" (String l EmptyString))))
                  = true).
    { apply prefix_placeholder. unfold placeholder in Hq.
      destruct pre as [|a [|b pre]]; cbn [String.append] in Hq |- *.
      - exfalso. injection Hq. intros. subst. discriminate.
      - exfalso. injection Hq. intros. discriminate.
      - injection Hq. intros. subst. now eexists. }
    congruence.
Qed.

Lemma replace_first_absent (l : ascii) (rep s : string) :
  occurrences (placeholder l) s = O -> replace_first (placeholder l) rep s = s.
Proof.
  induction s as [|c s IH]; intros Hocc; [reflexivity|].
  cbn [occurrences] in Hocc. apply Nat.eq_add_0 in Hocc. destruct Hocc as [Hhead Hrest].
  destruct (String.prefix (placeholder l) (String c s)) eqn:Hp; [discriminate|].
  rewrite (replace_first_skip _ _ _ _ Hp). now rewrite (IH Hrest).
Qed.

(** ** The longitude *)

(** C8, what the code does on binary64 numbers. The largest number below 180
    is a longitude of the range [-180, 180), yet adding 180 to it rounds to
    360, so [lngToTile] returns [2^zoom], one more than the last column
    [2^zoom - 1]: 1 at zoom level 0 and 16384 at zoom level 14. *)
Theorem lngToTile_binary64_past_last_column :
  let lng := 0x1.67fffffffffffp+7%float in
  lng = PrimFloat.next_down 180%float /\
  PrimFloat.leb (-180)%float lng = true /\
  PrimFloat.ltb lng 180%float = true /\
  PrimFloat.add lng 180%float = 360%float /\
  Float64.lngToTile lng 0 = 1%float /\
  Float64.lngToTile lng 14 = 16384%float.
Proof. cbv zeta. repeat split; vm_compute; reflexivity. Qed.

(** On binary64 numbers away from that edge [lngToTile] computes what it
    computes on real numbers, for instance at the west edges of the
    repository's two examples. *)
Lemma lngToTile_binary64_examples :
  Float64.lngToTile (-180)%float 14 = 0%float /\
  Float64.lngToTile 0%float 1 = 1%float /\
  Float64.lngToTile 90%float 1 = 1%float /\
  Float64.lngToTile (-0x1.281a697aeddcep+6)%float 14 = 4823%float.
Proof. repeat split; vm_compute; reflexivity. Qed.

(** In exact arithmetic the column of a longitude of [-180, 180) lies in
    [0, 2^zoom - 1] at every zoom level from 0 on, and the column does not
    decrease when the longitude grows. *)
Theorem lngToTile_range_and_monotone (zoom : Z) (lng1 lng2 : R) :
  0 <= zoom ->
  (-180 <= lng1)%R -> (lng1 <= lng2)%R -> (lng2 < 180)%R ->
  0 <= RealMath.lngToTile lng1 zoom /\
  RealMath.lngToTile lng1 zoom <= RealMath.lngToTile lng2 zoom /\
  RealMath.lngToTile lng2 zoom <= 2 ^ zoom - 1.
Proof.
  intros Hz H1 H12 H2. repeat split.
  - apply lngToTile_range; [assumption|]. split; [assumption|]. 
    apply Rle_lt_trans with lng2; assumption.
  - now apply lngToTile_monotone.
  - apply lngToTile_range; [assumption|]. split; [|assumption].
    apply Rle_trans with lng1; assumption.
Qed.

Lemma lngToTile_range_and_monotone_witness :
  0 <= RealMath.lngToTile 0 1 /\
  RealMath.lngToTile 0 1 <= RealMath.lngToTile 90 1 /\
  RealMath.lngToTile 90 1 <= 2 ^ 1 - 1.
Proof.
  apply (lngToTile_range_and_monotone 1 0%R 90%R); [lia|lra|lra|lra].
Defined.

(** ** The versions of [bboxToBounds] *)

(** C9, what the code does. The draft [src/index.js] takes [north] from
    [bbox[0]] and [south] from [bbox[2]], the other versions the other way
    round: for the example box at zoom level 1 the draft returns north 1 and
    south 0, the other versions north 0 and south 1, so the records differ. *)
Theorem bboxToBounds_versions_differ :
  Index.bboxToBounds (bbox example_options) 1 = mkBounds 1 1 0 1 /\
  bboxToBounds (bbox example_options) 1 = mkBounds 0 1 1 1 /\
  Index.bboxToBounds (bbox example_options) 1 <> bboxToBounds (bbox example_options) 1.
Proof.
  assert (Hindex : Index.bboxToBounds (bbox example_options) 1 = mkBounds 1 1 0 1).
  { unfold Index.bboxToBounds, example_options. cbn [bbox bbox0 bbox1 bbox2 bbox3].
    cbn [lngToTile latToTile RealMath.mapper].
    now rewrite latToTile_0_1, lngToTile_0_1, latToTile_45_1, lngToTile_90_1. }
  split; [exact Hindex|]. split; [exact example_bounds|].
  rewrite Hindex, example_bounds. discriminate.
Qed.

(** The draft's [bboxToBounds] is the one of the other versions with [north]
    and [south] exchanged: the two agree on [west] and [east] always, and on
    the whole record exactly when both latitudes fall into the same row. *)
Theorem bboxToBounds_versions_exchange_rows {num : Type} {M : CoordinateMapper num}
  (box : BBox num) (zoom : Z) :
  let b := bboxToBounds box zoom in
  Index.bboxToBounds box zoom = mkBounds (south b) (west b) (north b) (east b) /\
  (Index.bboxToBounds box zoom = b <->
   latToTile (bbox0 box) zoom = latToTile (bbox2 box) zoom).
Proof.
  cbv zeta. unfold Index.bboxToBounds, bboxToBounds. cbn [north west south east].
  split; [reflexivity|]. split.
  - intros [= H _]. exact H.
  - intros ->. reflexivity.
Qed.

Lemma lngToTile_minus_90_1 : RealMath.lngToTile (-90) 1 = 0%Z.
Proof.
  unfold RealMath.lngToTile. apply Math_floor_unique.
  rewrite pow2_IZR by lia. simpl. lra.
Qed.

Lemma two_columns_bounds :
  bboxToBounds (bbox two_columns_options) 1 = mkBounds 0 0 1 1 /\
  Index.bboxToBounds (bbox two_columns_options) 1 = mkBounds 1 0 0 1.
Proof.
  unfold bboxToBounds, Index.bboxToBounds, two_columns_options.
  cbn [bbox bbox0 bbox1 bbox2 bbox3 lngToTile latToTile RealMath.mapper].
  now rewrite latToTile_0_1, lngToTile_minus_90_1, latToTile_45_1, lngToTile_90_1.
Qed.

(** C7, what the draft does. [getTiles] of [src/index.js] seeds [coords] with
    [x = bounds.east] and [y = bounds.south], not with [bounds.west] and
    [bounds.north]: its first address is the one the claim names only when
    the rectangle has one column and one row. For the box from 90 degrees
    west to 90 degrees east and from the equator to 45 degrees north at zoom
    level 1 the draft seeds (1, 1, 0); the address the claim names is
    (1, 0, 1) with the bounds of the draft's own [bboxToBounds] and (1, 0, 0)
    with those of the other versions, which is where the sequential and the
    cluster version start. *)
Theorem index_getTiles_first_address_differs :
  (forall (num : Type) (M : CoordinateMapper num) (options : Options num),
      let b := Index.bboxToBounds (bbox options) (zoom_min options) in
      Index.getTiles options = mkCoords (zoom_min options) (west b) (north b) <->
      east b = west b /\ south b = north b) /\
  (let options := two_columns_options in
   let b := Index.bboxToBounds (bbox options) (zoom_min options) in
   Index.getTiles options = mkCoords 1 1 0 /\
   mkCoords (zoom_min options) (west b) (north b) = mkCoords 1 0 1 /\
   Index.getTiles options <> mkCoords (zoom_min options) (west b) (north b) /\
   coords (initial_cursor options) = mkCoords 1 0 0 /\
   Index.getTiles options <> coords (initial_cursor options)).
Proof.
  split.
  - intros num M options b. subst b. unfold Index.getTiles. cbv zeta. split.
    + intros [= H1 H2]. now split.
    + intros [H1 H2]. now f_equal.
  - cbv zeta. unfold Index.getTiles, initial_cursor.
    change (zoom_min two_columns_options) with 1.
    destruct two_columns_bounds as [-> ->].
    cbn [north west south east coords]. repeat split; discriminate.
Qed.

(** ** The tile arithmetic, continued *)

Section PyramidFacts.
Local Open Scope R_scope.

Lemma pow2_succ (zoom : Z) : powerRZ 2 (zoom + 1) = 2 * powerRZ 2 zoom.
Proof. rewrite powerRZ_add by lra. rewrite powerRZ_1. lra. Qed.

(** The floor of twice a number is twice its floor, or one more. *)
Lemma Math_floor_double (r : R) :
  (RealMath.Math_floor (2 * r) / 2 = RealMath.Math_floor r)%Z.
Proof.
  destruct (Math_floor_bounds r) as [H1 H2].
  destruct (Math_floor_bounds (2 * r)) as [H3 H4].
  set (n := RealMath.Math_floor r) in *.
  set (m := RealMath.Math_floor (2 * r)) in *.
  assert (Ha : (2 * n < m + 1)%Z).
  { apply lt_IZR. rewrite plus_IZR, mult_IZR. lra. }
  assert (Hb : (m < 2 * n + 2)%Z).
  { apply lt_IZR. rewrite plus_IZR, mult_IZR. lra. }
  symmetry. apply Z.div_unique with (r := (m - 2 * n)%Z); lia.
Qed.

Lemma lngToTile_parent (lng : R) (zoom : Z) :
  (RealMath.lngToTile lng (zoom + 1) / 2 = RealMath.lngToTile lng zoom)%Z.
Proof.
  unfold RealMath.lngToTile. rewrite pow2_succ.
  replace ((lng + 180) / 360 * (2 * powerRZ 2 zoom))
    with (2 * ((lng + 180) / 360 * powerRZ 2 zoom)) by lra.
  apply Math_floor_double.
Qed.

Lemma latToTile_parent (lat : R) (zoom : Z) :
  (RealMath.latToTile lat (zoom + 1) / 2 = RealMath.latToTile lat zoom)%Z.
Proof.
  unfold RealMath.latToTile. cbv zeta. rewrite pow2_succ.
  set (v := (1 - _ / PI) / 2).
  replace (v * (2 * powerRZ 2 zoom)) with (2 * (v * powerRZ 2 zoom)) by lra.
  apply Math_floor_double.
Qed.

End PyramidFacts.

(** The tiles form a pyramid, in exact arithmetic: the column and the row of
    a place at one zoom level are the halves, rounded down, of its column and
    row at the next zoom level; so are the four sides of the rectangle of a
    bounding box. *)
Theorem parent_tile_is_half (lng lat : R) (box : BBox R) (zoom : Z) :
  RealMath.lngToTile lng (zoom + 1) / 2 = RealMath.lngToTile lng zoom /\
  RealMath.latToTile lat (zoom + 1) / 2 = RealMath.latToTile lat zoom /\
  (let b := bboxToBounds box zoom in
   let b' := bboxToBounds box (zoom + 1) in
   north b' / 2 = north b /\ west b' / 2 = west b /\
   south b' / 2 = south b /\ east b' / 2 = east b).
Proof.
  split; [apply lngToTile_parent|]. split; [apply latToTile_parent|].
  cbv zeta. unfold bboxToBounds.
  cbn [north west south east lngToTile latToTile RealMath.mapper].
  repeat split; first [apply lngToTile_parent | apply latToTile_parent].
Qed.

(** ** [createDir] *)

Lemma existsSync_cons (fs : FS) (p path : string) :
  existsSync fs path = true -> existsSync (p :: fs) path = true.
Proof. unfold existsSync. cbn [existsb]. intros ->. apply orb_true_r. Qed.

Lemma existsSync_head (fs : FS) (path : string) :
  existsSync (path :: fs) path = true.
Proof. unfold existsSync. cbn [existsb]. now rewrite String.eqb_refl. Qed.

Lemma createDir_grows (env : Env) (fs : FS) (path : string) :
  snd (createDir env fs path) = fs \/ snd (createDir env fs path) = path :: fs.
Proof.
  unfold createDir. destruct (existsSync fs path); cbn [negb]; [now left|].
  destruct (mkdirSync_throws env fs path) as [code|]; [|now right].
  destruct (String.eqb code "EEXIST"); cbn [negb]; [now right|now left].
Qed.

Lemma createDir_true (env : Env) (fs : FS) (path : string) :
  fst (createDir env fs path) = true ->
  existsSync (snd (createDir env fs path)) path = true.
Proof.
  unfold createDir. destruct (existsSync fs path) eqn:He; cbn [negb]; [intros _; exact He|].
  destruct (mkdirSync_throws env fs path) as [code|].
  - destruct (String.eqb code "EEXIST"); cbn [negb fst snd]; [|discriminate].
    intros _. apply existsSync_head.
  - intros _. apply existsSync_head.
Qed.

(** ** The destination of a tile *)

Lemma append_inj_l (a s t : string) :
  String.append a s = String.append a t -> s = t.
Proof. induction a as [|c a IH]; cbn; [auto|]. intros [= H]. auto. Qed.

(** Two printed integers that are followed by a character that is not a
    character of a printed integer. *)
Lemma number_split (a b : string) (sep : ascii) (r1 r2 : string) :
  number_chars a = true -> number_chars b = true -> number_char sep = false ->
  String.append a (String sep r1) = String.append b (String sep r2) ->
  a = b /\ r1 = r2.
Proof.
  intros Ha Hb Hsep. revert b Hb.
  induction a as [|c a IH]; intros [|d b] Hb; cbn [String.append].
  - intros [= ->]. now split.
  - intros [= <- _]. cbn [number_chars] in Hb. rewrite Hsep in Hb. discriminate.
  - intros [= -> _]. cbn [number_chars] in Ha. rewrite Hsep in Ha. discriminate.
  - intros [= -> H]. cbn [number_chars] in Ha, Hb.
    apply andb_true_iff in Ha. apply andb_true_iff in Hb.
    destruct (IH (proj2 Ha) b (proj2 Hb) H) as [-> ->]. now split.
Qed.

Lemma to_int_not_nil (n : Z) :
  Z.to_int n <> Decimal.Pos Decimal.Nil /\ Z.to_int n <> Decimal.Neg Decimal.Nil.
Proof.
  destruct n as [|p|p]; cbn [Z.to_int]; split; try discriminate;
    intros [= H]; now apply (DecimalPos.Unsigned.to_uint_nonnil p).
Qed.

Lemma Number_toString_inj (a b : Z) :
  Number_toString a = Number_toString b -> a = b.
Proof.
  unfold Number_toString. intros H.
  apply DecimalZ.to_int_inj.
  destruct (to_int_not_nil a) as [Ha1 Ha2]. destruct (to_int_not_nil b) as [Hb1 Hb2].
  pose proof (NilZero.isi _ Ha1 Ha2) as Ia. pose proof (NilZero.isi _ Hb1 Hb2) as Ib.
  rewrite H in Ia. congruence.
Qed.

(** ** What [getTile] writes *)

Lemma inside_under (output rest : string) :
  inside output (String.append output (String.append "/" rest)) = true.
Proof.
  unfold inside. rewrite <- (append_assoc output "/" rest), prefix_append.
  apply orb_true_r.
Qed.

Lemma inside_zoom_dir (output : string) (c : Coords) :
  inside output (zoom_dir output c) = true.
Proof. apply inside_under. Qed.

Lemma inside_column_dir (output : string) (c : Coords) :
  inside output (column_dir output c) = true.
Proof.
  unfold column_dir, zoom_dir, join_path. rewrite append_assoc. apply inside_under.
Qed.

Lemma inside_tile_path (output format : string) (c : Coords) :
  inside output (tile_path output c format) = true.
Proof.
  unfold tile_path, column_dir, zoom_dir, join_path. rewrite !append_assoc.
  apply inside_under.
Qed.

Lemma existsSync_app (added fs : FS) (path : string) :
  existsSync fs path = true -> existsSync (added ++ fs) path = true.
Proof. unfold existsSync. rewrite existsb_app. intros ->. apply orb_true_r. Qed.

Lemma inside_refl (output : string) : inside output output = true.
Proof. unfold inside. now rewrite String.eqb_refl. Qed.

Section GetTileFiles.
Variable env : Env.
Variables (fs : FS) (templateUrl output : string) (c : Coords).
Variables (referrer : option string) (format : string).

(** [getTile] only adds paths, and only the two directories and the
    destination of its tile. *)
Lemma cluster_getTile_added :
  exists added,
    fs_after (Cluster.getTile env fs templateUrl output c referrer format) =
    added ++ fs /\
    incl added [tile_path output c format; column_dir output c; zoom_dir output c].
Proof.
  unfold Cluster.getTile.
  fold (zoom_dir output c).
  pose proof (createDir_grows env fs (zoom_dir output c)) as H1.
  destruct (createDir env fs (zoom_dir output c)) as [ok1 fs1]. cbn [snd] in H1.
  assert (E1 : exists a1, fs1 = a1 ++ fs /\ incl a1 [zoom_dir output c]).
  { destruct H1 as [-> | ->].
    - exists []. split; [reflexivity|]. intros p [].
    - exists [zoom_dir output c]. split; [reflexivity|]. apply incl_refl. }
  destruct E1 as (a1 & -> & Ha1).
  destruct ok1; cbn [negb fs_after].
  2:{ exists a1. split; [reflexivity|]. intros p Hp. apply Ha1 in Hp. cbn in *. tauto. }
  fold (column_dir output c).
  pose proof (createDir_grows env (a1 ++ fs) (column_dir output c)) as H2.
  destruct (createDir env (a1 ++ fs) (column_dir output c)) as [ok2 fs2]. cbn [snd] in H2.
  assert (E2 : exists a2, fs2 = a2 ++ fs /\
                          incl a2 [column_dir output c; zoom_dir output c]).
  { destruct H2 as [-> | ->].
    - exists a1. split; [reflexivity|]. intros p Hp. apply Ha1 in Hp. cbn in *. tauto.
    - exists (column_dir output c :: a1). split; [reflexivity|].
      intros p [<- | Hp]; [now left|]. apply Ha1 in Hp. cbn in *. tauto. }
  destruct E2 as (a2 & -> & Ha2).
  assert (Ha2' : incl a2 [tile_path output c format; column_dir output c; zoom_dir output c]).
  { intros p Hp. apply Ha2 in Hp. cbn in *. tauto. }
  destruct ok2; cbn [negb fs_after]; [|now exists a2].
  fold (tile_path output c format).
  destruct (existsSync (a2 ++ fs) (tile_path output c format)); cbn [fs_after];
    [now exists a2|].
  destruct (axios_fulfils env _); [|now exists a2].
  exists (tile_path output c format :: a2). split; [reflexivity|].
  intros p [<- | Hp]; [now left|]. now apply Ha2'.
Qed.

End GetTileFiles.

(** [createDir]: when it answers [true] the path exists afterwards and asking
    again changes nothing; when it answers [false] the path did not exist and
    the file system is as before; a path that exists is never passed to
    [fs.mkdirSync]; and nothing that existed is lost. *)
Theorem createDir_contract (env : Env) (fs : FS) (path : string) :
  let ok := fst (createDir env fs path) in
  let fs' := snd (createDir env fs path) in
  (ok = true -> existsSync fs' path = true) /\
  (ok = true -> createDir env fs' path = (true, fs')) /\
  (ok = false -> fs' = fs /\ existsSync fs path = false) /\
  (existsSync fs path = true ->
   forall env', createDir env' fs path = (true, fs)) /\
  (forall p, In p fs -> In p fs') /\
  (forall p, existsSync fs p = true -> existsSync fs' p = true).
Proof.
  cbv zeta. split; [|split; [|split; [|split; [|split]]]].
  - apply createDir_true.
  - intros Hok. apply createDir_exists. now apply createDir_true.
  - destruct (createDir env fs path) as [ok fs'] eqn:Hc. cbn [fst snd]. intros ->.
    apply createDir_false in Hc. now destruct Hc as (-> & He & _).
  - intros He env'. now apply createDir_exists.
  - intros p Hp. destruct (createDir_grows env fs path) as [-> | ->]; [assumption|now right].
  - intros p Hp. destruct (createDir_grows env fs path) as [-> | ->];
      [assumption|now apply existsSync_cons].
Qed.

(** Two different tiles are never stored in the same file: the destination
    [{output}/{z}/{x}/{y}.{format}] determines the address. *)
Theorem distinct_tiles_distinct_files (output format : string) (c1 c2 : Coords) :
  c1 <> c2 -> tile_path output c1 format <> tile_path output c2 format.
Proof.
  intros Hne H. apply Hne.
  unfold tile_path, column_dir, zoom_dir, join_path in H.
  rewrite !append_assoc in H. apply append_inj_l in H.
  cbn [String.append] in H.
  injection H as H.
  destruct (Number_toString_chars (cz c1)) as [Hz1 _].
  destruct (Number_toString_chars (cz c2)) as [Hz2 _].
  destruct (Number_toString_chars (cx c1)) as [Hx1 _].
  destruct (Number_toString_chars (cx c2)) as [Hx2 _].
  destruct (Number_toString_chars (cy c1)) as [Hy1 _].
  destruct (Number_toString_chars (cy c2)) as [Hy2 _].
  apply number_split in H; try assumption; [|reflexivity].
  destruct H as [Hz H]. apply number_split in H; try assumption; [|reflexivity].
  destruct H as [Hx H]. apply number_split in H; try assumption; [|reflexivity].
  destruct H as [Hy _].
  apply Number_toString_inj in Hz, Hx, Hy.
  destruct c1, c2. cbn in *. congruence.
Qed.

Lemma distinct_tiles_distinct_files_witness :
  tile_path "tiles" (mkCoords 1 11 1) "png" <> tile_path "tiles" (mkCoords 11 1 1) "png".
Proof.
  apply (distinct_tiles_distinct_files "tiles" "png" (mkCoords 1 11 1) (mkCoords 11 1 1)).
  discriminate.
Defined.

(** ** Templates of the usual shape *)

Lemma no_brace_prefix (l : ascii) (c : ascii) (s : string) :
  Ascii.eqb c "{" = false -> String.prefix (placeholder l) (String c s) = false.
Proof.
  intros Hc. apply prefix_placeholder_false. intros t [= -> _]. discriminate.
Qed.

Lemma replace_first_plain (l : ascii) (rep a s : string) :
  no_brace a = true ->
  replace_first (placeholder l) rep (String.append a s) =
  String.append a (replace_first (placeholder l) rep s).
Proof.
  induction a as [|c a IH]; cbn [no_brace String.append]; [reflexivity|].
  intros H. apply andb_true_iff in H. destruct H as [Hc Ha].
  apply negb_true_iff in Hc.
  rewrite replace_first_skip by now apply no_brace_prefix.
  now rewrite (IH Ha).
Qed.

Lemma replace_first_other (l m : ascii) (rep s : string) :
  m <> l -> m <> "{"%char ->
  replace_first (placeholder l) rep (String.append (placeholder m) s) =
  String.append (placeholder m) (replace_first (placeholder l) rep s).
Proof.
  intros Hml Hm. unfold placeholder at 2 3. cbn [String.append].
  rewrite replace_first_skip
    by (apply prefix_placeholder_false; intros t [= <- _]; contradiction).
  rewrite replace_first_skip
    by (apply prefix_placeholder_false; intros t [= -> _]; contradiction).
  rewrite replace_first_skip
    by (apply prefix_placeholder_false; intros t [= ]).
  reflexivity.
Qed.

Lemma replace_first_here (l : ascii) (rep s : string) :
  replace_first (placeholder l) rep (String.append (placeholder l) s) =
  String.append rep s.
Proof. apply replace_first_placeholder. Qed.

Lemma number_chars_no_brace (s : string) : number_chars s = true -> no_brace s = true.
Proof.
  induction s as [|c s IH]; cbn [number_chars no_brace]; [reflexivity|].
  intros H. apply andb_true_iff in H. destruct H as [Hc Hs].
  rewrite (IH Hs), andb_true_r. apply negb_true_iff.
  destruct (Ascii.eqb_spec c "{") as [->|]; [discriminate|reflexivity].
Qed.

Lemma replace_first_no_brace (l : ascii) (rep s : string) :
  no_brace s = true -> replace_first (placeholder l) rep s = s.
Proof.
  induction s as [|c s IH]; cbn [no_brace]; [reflexivity|].
  intros H. apply andb_true_iff in H. destruct H as [Hc Hs].
  apply negb_true_iff in Hc.
  rewrite replace_first_skip by now apply no_brace_prefix.
  now rewrite (IH Hs).
Qed.

(** A template of the usual shape, [a{z}b{x}c{y}d] with no brace in the
    texts [a], [b], [c] and [d], resolves to [a z b x c y d] with the three
    numbers printed in decimal; a template without any brace is returned as
    it is. *)
Theorem templateToUrl_usual_shape (a b c d : string) (coords : Coords) :
  no_brace a = true -> no_brace b = true -> no_brace c = true -> no_brace d = true ->
  templateToUrl
    (String.append a (String.append "{z}" (String.append b (String.append "{x}"
       (String.append c (String.append "{y}" d))))))
    coords =
  String.append a (String.append (Number_toString (cz coords))
    (String.append b (String.append (Number_toString (cx coords))
       (String.append c (String.append (Number_toString (cy coords)) d))))) /\
  templateToUrl a coords = a.
Proof.
  intros Ha Hb Hc Hd.
  pose proof (number_chars_no_brace _ (proj1 (Number_toString_chars (cz coords)))) as Hz.
  pose proof (number_chars_no_brace _ (proj1 (Number_toString_chars (cx coords)))) as Hx.
  pose proof (number_chars_no_brace _ (proj1 (Number_toString_chars (cy coords)))) as Hy.
  unfold templateToUrl, placeholder_x, placeholder_y, placeholder_z.
  change "{x}"%string with (placeholder "x").
  change "{y}"%string with (placeholder "y").
  change "{z}"%string with (placeholder "z").
  split.
  - rewrite (replace_first_plain "x") by assumption.
    rewrite (replace_first_other "x" "z") by discriminate.
    rewrite (replace_first_plain "x") by assumption.
    rewrite replace_first_here.
    rewrite (replace_first_plain "y") by assumption.
    rewrite (replace_first_other "y" "z") by discriminate.
    rewrite (replace_first_plain "y") by assumption.
    rewrite (replace_first_plain "y") by assumption.
    rewrite (replace_first_plain "y") by assumption.
    rewrite replace_first_here.
    rewrite (replace_first_plain "z") by assumption.
    now rewrite replace_first_here.
  - rewrite (replace_first_no_brace "x") by assumption.
    rewrite (replace_first_no_brace "y") by assumption.
    now rewrite (replace_first_no_brace "z") by assumption.
Qed.

Lemma templateToUrl_usual_shape_witness :
  templateToUrl "https://b.tile.openstreetmap.org/{z}/{x}/{y}.png"
                (mkCoords 14 4823 6160) =
  "https://b.tile.openstreetmap.org/14/4823/6160.png"%string.
Proof.
  exact (proj1 (templateToUrl_usual_shape "https://b.tile.openstreetmap.org/"
                  "/" "/" ".png" (mkCoords 14 4823 6160)
                  eq_refl eq_refl eq_refl eq_refl)).
Defined.

(** ** The first occurrence of each placeholder *)

Section ScanFacts.

(** The placeholder with a pending text at the head of a string, if there is
    one. *)
Lemma replace_each_first_hit (todo : Pending) (l : ascii) (rest text : string) :
  pending_text l todo = Some text ->
  replace_each_first todo (String "{" (String l (String "}" rest))) =
  String.append text (replace_each_first (without l todo) rest).
Proof. intros H. cbn [replace_each_first]. rewrite H. reflexivity. Qed.

Lemma replace_each_first_copy (todo : Pending) (c : ascii) (s : string) :
  (forall l rest, String c s = String "{" (String l (String "}" rest)) ->
                  pending_text l todo = None) ->
  replace_each_first todo (String c s) = String c (replace_each_first todo s).
Proof.
  intros H. cbn [replace_each_first].
  destruct s as [|l [|r rest]]; try reflexivity.
  destruct (Ascii.eqb_spec c "{") as [->|]; [|reflexivity].
  destruct (Ascii.eqb_spec r "}") as [->|]; [|reflexivity].
  cbn [andb]. now rewrite (H l rest eq_refl).
Qed.

Lemma replace_each_first_cases (todo : Pending) (c : ascii) (s : string) :
  (exists l rest text,
      String c s = String "{" (String l (String "}" rest)) /\
      pending_text l todo = Some text) \/
  (forall l rest, String c s = String "{" (String l (String "}" rest)) ->
                  pending_text l todo = None).
Proof.
  destruct s as [|l s]; [right; intros ? ? [= ]|].
  destruct s as [|r rest]; [right; intros ? ? [= ]|].
  destruct (Ascii.eqb_spec c "{") as [->|Hc];
    [|right; intros ? ? [= ]; contradiction].
  destruct (Ascii.eqb_spec r "}") as [->|Hr];
    [|right; intros ? ? [= ]; contradiction].
  destruct (pending_text l todo) as [text|] eqn:Hl.
  - left. now exists l, rest, text.
  - right. intros l' rest' [= <- <-]. exact Hl.
Qed.

Lemma pending_text_In (l : ascii) (todo : Pending) (text : string) :
  pending_text l todo = Some text -> In (l, text) todo.
Proof.
  unfold pending_text. destruct (find _ todo) as [[l' t]|] eqn:Hf; [|discriminate].
  cbn. intros [= <-]. apply find_some in Hf. destruct Hf as [Hin Heq].
  cbn in Heq. apply Ascii.eqb_eq in Heq. now subst l'.
Qed.

Lemma without_well_formed (l : ascii) (todo : Pending) :
  well_formed_pending todo -> well_formed_pending (without l todo).
Proof.
  unfold well_formed_pending, without. rewrite !Forall_forall.
  intros H e He. apply filter_In in He. now apply H.
Qed.

Lemma without_absent (l : ascii) (todo : Pending) :
  pending_text l todo = None -> without l todo = todo.
Proof.
  unfold pending_text, without. induction todo as [|[m t] todo IH]; [reflexivity|].
  cbn [find filter fst]. destruct (Ascii.eqb m l); [discriminate|].
  cbn [negb]. intros H. now rewrite (IH H).
Qed.

Lemma pending_text_without (l m : ascii) (todo : Pending) :
  pending_text l todo = None -> pending_text l (without m todo) = None.
Proof.
  unfold pending_text, without. induction todo as [|[k t] todo IH]; [reflexivity|].
  cbn [find filter fst]. destruct (Ascii.eqb k l) eqn:Hkl; [discriminate|].
  intros H. destruct (Ascii.eqb k m); cbn [negb]; [now apply IH|].
  cbn [find fst]. rewrite Hkl. now apply IH.
Qed.

(** What the scan writes starts with a character of a printed integer or
    with the character the string starts with. *)
Lemma replace_each_first_head (todo : Pending) (s : string) (a : ascii) (t : string) :
  well_formed_pending todo ->
  replace_each_first todo s = String a t -> number_char a = false ->
  exists s0, s = String a s0 /\ t = replace_each_first todo s0.
Proof.
  intros Hwf Heq Ha. destruct s as [|c s]; [discriminate|].
  destruct (replace_each_first_cases todo c s) as [(l & rest & text & Hs & Hl) | Hcopy].
  - exfalso. rewrite Hs, (replace_each_first_hit todo l rest text Hl) in Heq.
    apply pending_text_In in Hl. unfold well_formed_pending in Hwf.
    rewrite Forall_forall in Hwf. destruct (Hwf _ Hl) as [_ [Hchars Hne]].
    cbn [snd] in *. destruct text as [|d text]; [contradiction|].
    cbn [String.append number_chars] in *. injection Heq as -> _.
    rewrite Ha in Hchars. discriminate.
  - rewrite (replace_each_first_copy todo c s Hcopy) in Heq.
    injection Heq as -> <-. now exists s.
Qed.

(** One [replace] of the code does what the scan does with one more pending
    placeholder. *)
Lemma replace_first_scan (l : ascii) (text : string) :
  letter l -> printed text ->
  forall (n : nat) (s : string) (todo : Pending),
    (String.length s <= n)%nat ->
    well_formed_pending todo -> pending_text l todo = None ->
    replace_first (placeholder l) text (replace_each_first todo s) =
    replace_each_first ((l, text) :: todo) s.
Proof.
  intros (Hl1 & Hl2 & Hl3) [Htext Hne].
  induction n as [|n IH]; intros s todo Hlen Hwf Habsent.
  - destruct s; [reflexivity|cbn in Hlen; lia].
  - destruct s as [|c s]; [reflexivity|].
    assert (Hwf' : well_formed_pending ((l, text) :: todo)).
    { constructor; [|exact Hwf]. cbn. repeat split; assumption. }
    assert (Hlook : forall m, m <> l ->
              pending_text m ((l, text) :: todo) = pending_text m todo).
    { intros m Hm. unfold pending_text. cbn [find fst].
      destruct (Ascii.eqb_spec l m) as [->|]; [contradiction|reflexivity]. }
    destruct (replace_each_first_cases todo c s) as [(m & rest & t & Hs & Hm) | Hcopy].
    + assert (Hml : m <> l) by (intros ->; congruence).
      inversion Hs; subst c s. cbn [String.length] in Hlen.
      rewrite (replace_each_first_hit todo m rest t Hm).
      rewrite (replace_each_first_hit ((l, text) :: todo) m rest t)
        by (rewrite Hlook by assumption; exact Hm).
      assert (Ht : no_brace t = true).
      { apply number_chars_no_brace. apply pending_text_In in Hm.
        unfold well_formed_pending in Hwf. rewrite Forall_forall in Hwf.
        now destruct (Hwf _ Hm) as [_ [Hc _]]. }
      rewrite (replace_first_plain l text t _ Ht).
      rewrite (IH rest (without m todo)); [|lia|now apply without_well_formed
                                            |now apply pending_text_without].
      do 2 f_equal. unfold without. cbn [filter fst].
      destruct (Ascii.eqb_spec l m) as [->|]; [contradiction|reflexivity].
    + rewrite (replace_each_first_copy todo c s Hcopy).
      destruct (String.prefix (placeholder l) (String c s)) eqn:Hp.
      * apply prefix_placeholder in Hp. destruct Hp as [rest Hs].
        inversion Hs; subst c s. cbn [String.length] in Hlen.
        rewrite (replace_each_first_copy todo l (String "}" rest))
          by (intros ? ? [= -> _]; contradiction).
        rewrite (replace_each_first_copy todo "}" rest) by (intros ? ? [= ]).
        change (String "{" (String l (String "}" (replace_each_first todo rest))))
          with (String.append (placeholder l) (replace_each_first todo rest)).
        rewrite replace_first_here.
        rewrite (replace_each_first_hit ((l, text) :: todo) l rest text).
        -- f_equal. f_equal. unfold without. cbn [filter fst].
           rewrite Ascii.eqb_refl. cbn [negb]. symmetry.
           now apply without_absent.
        -- unfold pending_text. cbn [find fst]. now rewrite Ascii.eqb_refl.
      * cbn [String.length] in Hlen.
        rewrite (replace_each_first_copy ((l, text) :: todo) c s).
        2:{ intros m rest Hs. destruct (Ascii.eqb_spec m l) as [->|Hml].
            - exfalso. rewrite (proj2 (prefix_placeholder l (String c s))) in Hp;
                [discriminate|]. now exists rest.
            - rewrite Hlook by assumption. now apply (Hcopy m rest). }
        rewrite replace_first_skip; [now rewrite IH by (try assumption; lia)|].
        destruct (String.prefix (placeholder l)
                    (String c (replace_each_first todo s))) eqn:Hq; [|reflexivity].
        exfalso. apply prefix_placeholder in Hq. destruct Hq as [t Hq].
        injection Hq as -> Hq.
        apply (replace_each_first_head todo s l _ Hwf) in Hq; [|exact Hl3].
        destruct Hq as (s0 & -> & Hq). symmetry in Hq.
        apply (replace_each_first_head todo s0 "}" _ Hwf) in Hq; [|reflexivity].
        destruct Hq as (s1 & -> & _).
        rewrite (proj2 (prefix_placeholder l _)) in Hp; [discriminate|].
        now exists s1.
Qed.

Lemma replace_each_first_nothing (s : string) : replace_each_first [] s = s.
Proof.
  assert (H : forall n s, (String.length s <= n)%nat -> replace_each_first [] s = s).
  { induction n as [|n IH]; intros [|c t] Hlen; try reflexivity; [cbn in Hlen; lia|].
    cbn [String.length] in Hlen.
    rewrite replace_each_first_copy by reflexivity. now rewrite IH by lia. }
  now apply (H (String.length s)).
Qed.

End ScanFacts.

Lemma templateToUrl_scan (url : string) (coords : Coords) :
  templateToUrl url coords = first_occurrences_replaced url coords.
Proof.
  unfold templateToUrl, first_occurrences_replaced, placeholder_x, placeholder_y,
         placeholder_z.
  change "{x}"%string with (placeholder "x").
  change "{y}"%string with (placeholder "y").
  change "{z}"%string with (placeholder "z").
  assert (Hletter : forall l, In l ["x"; "y"; "z"]%char -> letter l).
  { intros l [<- | [<- | [<- | []]]]; repeat split; discriminate. }
  assert (Hprinted : forall n, printed (Number_toString n))
    by (intros n; apply Number_toString_chars).
  rewrite <- (replace_each_first_nothing url) at 1.
  rewrite (replace_first_scan "x" _ (Hletter "x"%char ltac:(cbn; auto)) (Hprinted _)
             (String.length url) url []); [|lia|constructor|reflexivity].
  rewrite (replace_first_scan "y" _ (Hletter "y"%char ltac:(cbn; auto)) (Hprinted _)
             (String.length url) url); [|lia| |reflexivity].
  2:{ constructor; [|constructor].
      split; [apply (Hletter "x"%char); cbn; auto|apply Hprinted]. }
  rewrite (replace_first_scan "z" _ (Hletter "z"%char ltac:(cbn; auto)) (Hprinted _)
             (String.length url) url); [reflexivity|lia| |reflexivity].
  constructor; [|constructor; [|constructor]].
  - split; [apply (Hletter "y"%char); cbn; auto|apply Hprinted].
  - split; [apply (Hletter "x"%char); cbn; auto|apply Hprinted].
Qed.

(** C10. [templateToUrl] replaces the first occurrence of each of [{x}],
    [{y}] and [{z}] and no other. The resolved URL is the template read from
    left to right with the number written in the place of each placeholder
    where it is met for the first time and every other character copied, so
    every occurrence after the first is left as it is (the last conjunct). It
    has one occurrence of each placeholder fewer than the template (none
    fewer when the template has none); and in a template with one kind of
    placeholder only, the text before its first occurrence and the whole text
    after it, later occurrences included, are copied as they are around the
    number. *)
Theorem templateToUrl_first_occurrence_only (url : string) (coords : Coords) :
  occurrences placeholder_x (templateToUrl url coords) =
    pred (occurrences placeholder_x url) /\
  occurrences placeholder_y (templateToUrl url coords) =
    pred (occurrences placeholder_y url) /\
  occurrences placeholder_z (templateToUrl url coords) =
    pred (occurrences placeholder_z url) /\
  (forall pre post,
      url = String.append pre (String.append placeholder_x post) ->
      occurrences placeholder_x (String.append pre "{x") = O ->
      occurrences placeholder_y url = O ->
      occurrences placeholder_z url = O ->
      templateToUrl url coords =
      String.append pre (String.append (Number_toString (cx coords)) post)) /\
  (forall pre post,
      url = String.append pre (String.append placeholder_y post) ->
      occurrences placeholder_y (String.append pre "{y") = O ->
      occurrences placeholder_x url = O ->
      occurrences placeholder_z url = O ->
      templateToUrl url coords =
      String.append pre (String.append (Number_toString (cy coords)) post)) /\
  (forall pre post,
      url = String.append pre (String.append placeholder_z post) ->
      occurrences placeholder_z (String.append pre "{z") = O ->
      occurrences placeholder_x url = O ->
      occurrences placeholder_y url = O ->
      templateToUrl url coords =
      String.append pre (String.append (Number_toString (cz coords)) post)) /\
  templateToUrl url coords = first_occurrences_replaced url coords.
Proof.
  pose proof (templateToUrl_scan url coords) as Hscan.
  destruct (Number_toString_chars (cx coords)) as [Hx Hxe].
  destruct (Number_toString_chars (cy coords)) as [Hy Hye].
  destruct (Number_toString_chars (cz coords)) as [Hz Hze].
  assert (Hcount : forall l m rep s,
             In l ["x"; "y"; "z"]%char -> In m ["x"; "y"; "z"]%char ->
             number_chars rep = true -> rep <> EmptyString ->
             occurrences (placeholder m) (replace_first (placeholder l) rep s) =
             if Ascii.eqb m l then pred (occurrences (placeholder m) s)
             else occurrences (placeholder m) s).
  { intros l m rep s Hl Hm Hrep Hne.
    apply occurrences_replace_first; try assumption.
    - cbn in Hl. intuition (subst; discriminate).
    - cbn in Hm. intuition (subst; discriminate).
    - cbn in Hm. intuition (subst; reflexivity). }
  unfold templateToUrl, placeholder_x, placeholder_y, placeholder_z.
  change "{x}"%string with (placeholder "x").
  change "{y}"%string with (placeholder "y").
  change "{z}"%string with (placeholder "z").
  split; [|split; [|split; [|split; [|split; [|split; [|exact Hscan]]]]]].
  - rewrite !Hcount by (try assumption; cbn; auto). reflexivity.
  - rewrite !Hcount by (try assumption; cbn; auto). reflexivity.
  - rewrite !Hcount by (try assumption; cbn; auto). reflexivity.
  - intros pre post -> Hfirst Hny Hnz.
    rewrite (replace_first_absent "y")
      by (rewrite Hcount by (try assumption; cbn; auto); exact Hny).
    rewrite (replace_first_absent "z")
      by (rewrite Hcount by (try assumption; cbn; auto); exact Hnz).
    now apply replace_first_leftmost.
  - intros pre post -> Hfirst Hnx Hnz.
    rewrite (replace_first_absent "x") by exact Hnx.
    rewrite (replace_first_absent "z")
      by (rewrite Hcount by (try assumption; cbn; auto); exact Hnz).
    now apply replace_first_leftmost.
  - intros pre post -> Hfirst Hnx Hny.
    rewrite (replace_first_absent "x") by exact Hnx.
    rewrite (replace_first_absent "y") by exact Hny.
    now apply replace_first_leftmost.
Qed.

Lemma templateToUrl_first_occurrence_only_witness :
  templateToUrl "https://t/{x}/{x}.png" (mkCoords 14 4823 6160) =
  "https://t/4823/{x}.png"%string /\
  templateToUrl "https://t/{z}/{x}/{y}/{x}.png" (mkCoords 14 4823 6160) =
  "https://t/14/4823/6160/{x}.png"%string.
Proof.
  split.
  - apply (proj1 (proj2 (proj2 (proj2
             (templateToUrl_first_occurrence_only "https://t/{x}/{x}.png"
                (mkCoords 14 4823 6160)))))
             "https://t/"%string "/{x}.png"%string); reflexivity.
  - rewrite (proj2 (proj2 (proj2 (proj2 (proj2 (proj2
               (templateToUrl_first_occurrence_only "https://t/{z}/{x}/{y}/{x}.png"
                  (mkCoords 14 4823 6160)))))))).
    reflexivity.
Defined.

(** ** The jobs of a cluster run *)

Section KnownJobs.
Context {num : Type} {M : CoordinateMapper num}.
Variable options : Options num.

Lemma next_jobs_job_of (fuel : nat) (cur : Cursor) :
  Forall (fun job => job = Cluster.job_of options (Cluster.job_coords job) None)
         (fst (Cluster.next_jobs fuel options cur)).
Proof.
  revert cur. induction fuel as [|fuel IH]; intros cur; cbn [Cluster.next_jobs].
  - constructor.
  - destruct (Cluster.getNextJob options cur) as [[job|] cur'] eqn:Hnext;
      [|constructor].
    apply getNextJob_Some in Hnext. destruct Hnext as (_ & _ & _ & ->).
    specialize (IH cur').
    destruct (Cluster.next_jobs fuel options cur') as [jobs last].
    cbn [fst] in *. constructor; [reflexivity|assumption].
Qed.

Lemma next_jobs_prefix (k k' : nat) (cur : Cursor) :
  (k <= k')%nat ->
  exists more,
    fst (Cluster.next_jobs k' options cur) =
    fst (Cluster.next_jobs k options cur) ++ more.
Proof.
  revert k' cur. induction k as [|k IH]; intros k' cur Hk.
  - now eexists.
  - destruct k' as [|k']; [lia|]. cbn [Cluster.next_jobs].
    destruct (Cluster.getNextJob options cur) as [[job|] cur'].
    + destruct (IH k' cur' ltac:(lia)) as [more Hmore].
      destruct (Cluster.next_jobs k' options cur') as [jobs' last'].
      destruct (Cluster.next_jobs k options cur') as [jobs last].
      cbn [fst] in *. exists more. now rewrite Hmore.
    + now exists [].
Qed.

Lemma next_jobs_in_all (k : nat) (job : Cluster.Job) :
  In job (fst (Cluster.next_jobs k options (initial_cursor options))) ->
  In job (fst (Cluster.all_jobs options)).
Proof.
  unfold Cluster.all_jobs.
  set (b := budget options (initial_cursor options)).
  destruct (Nat.le_ge_cases k b) as [Hk|Hk].
  - destruct (next_jobs_prefix k b (initial_cursor options) Hk) as [more ->].
    intros H. apply in_or_app. now left.
  - rewrite (next_jobs_stable options b k); [auto| |assumption].
    now destruct (next_jobs_complete options b (initial_cursor options) (le_n _)).
Qed.

Lemma seed_known (worker : option nat) :
  job_known options (Cluster.job_of options (coords (initial_cursor options)) worker).
Proof. eexists _, _. split; [reflexivity|]. now left. Qed.

Lemma sent_known (W : nat) (sys : Cluster.System) :
  run_invariant W options sys ->
  Forall (fun e => job_known options (snd e)) (Cluster.sent sys).
Proof.
  intros [(k & later & Hsent & Hlater & _) _ _ _ _ _].
  rewrite Hsent. apply Forall_app. split.
  - unfold first_jobs. apply Forall_map. apply Forall_forall. intros id _.
    apply seed_known.
  - apply Forall_forall. intros e He.
    assert (Hin : In (snd e) (fst (Cluster.next_jobs k options (initial_cursor options)))).
    { rewrite <- Hlater. now apply in_map. }
    pose proof (next_jobs_job_of k (initial_cursor options)) as Hof.
    rewrite Forall_forall in Hof. specialize (Hof _ Hin).
    exists (Cluster.job_coords (snd e)), None. split; [exact Hof|].
    right. apply in_map. now apply next_jobs_in_all with k.
Qed.

Lemma remove_pending_incl (w : nat) (p : list (nat * Cluster.Job)) :
  incl (Cluster.remove_pending w p) p.
Proof. intros e He. unfold Cluster.remove_pending in He. now apply filter_In in He. Qed.

Lemma deliver_pending_sent (env : Env) (W : nat) (sys : Cluster.System) (w : nat) :
  incl (Cluster.pending sys) (Cluster.sent sys) ->
  incl (Cluster.pending (Cluster.deliver env W options sys w))
       (Cluster.sent (Cluster.deliver env W options sys w)).
Proof.
  intros Hincl. unfold Cluster.deliver.
  destruct (Cluster.killed sys); [assumption|].
  destruct (Cluster.pending_job w (Cluster.pending sys)) as [job|]; [|assumption].
  destruct (Cluster.worker_onMessage env (Cluster.files sys) job) as [msg out].
  unfold Cluster.master_onMessage. cbn [Cluster.cursor Cluster.pending Cluster.sent].
  destruct (Cluster.getNextJob options (Cluster.cursor sys)) as [[next|] cur'].
  - cbn [Cluster.pending Cluster.sent]. intros e [<- | He].
    + apply in_or_app. right. now left.
    + apply in_or_app. left. apply Hincl. now apply remove_pending_incl in He.
  - unfold Cluster.stopChildProcesses.
    cbn [Cluster.cursor Cluster.stopped Cluster.workers Cluster.pending
         Cluster.sent Cluster.killed Cluster.returned].
    destruct (S (Cluster.stopped sys) <? W)%nat; cbn [Cluster.pending Cluster.sent];
      intros e He; apply Hincl; now apply remove_pending_incl in He.
Qed.

Lemma run_pending_sent (env : Env) (W : nat) (fs : FS) (schedule : list nat) :
  incl (Cluster.pending (Cluster.run env W options fs schedule))
       (Cluster.sent (Cluster.run env W options fs schedule)).
Proof.
  unfold Cluster.run.
  assert (H0 : incl (Cluster.pending (Cluster.getTiles env W options fs))
                    (Cluster.sent (Cluster.getTiles env W options fs))).
  { unfold Cluster.getTiles. destruct (createDir env fs (output options)) as [[|] fs'];
      cbn [negb Cluster.pending Cluster.sent]; apply incl_refl. }
  revert H0. generalize (Cluster.getTiles env W options fs).
  induction schedule as [|w rest IH]; intros sys H0; cbn [fold_left]; [assumption|].
  apply IH. now apply deliver_pending_sent.
Qed.

(** Every job a worker holds in a run is a job of the run. *)
Lemma run_pending_known (env : Env) (cpus : nat) (fs : FS) (schedule : list nat)
  (w : nat) (job : Cluster.Job) :
  let sys := Cluster.run env (Cluster.numCPUs cpus) options fs schedule in
  Cluster.killed sys = false ->
  Cluster.pending_job w (Cluster.pending sys) = Some job ->
  job_known options job.
Proof.
  intros sys Hk Hjob.
  destruct (fst (createDir env fs (output options))) eqn:Hroot.
  - pose proof (cluster_run_invariant env options _ fs schedule
                  (numCPUs_positive cpus) Hroot) as Hinv.
    pose proof (sent_known _ _ Hinv) as Hsent. rewrite Forall_forall in Hsent.
    apply pending_job_In in Hjob.
    apply (Hsent (w, job)). now apply run_pending_sent.
  - exfalso. subst sys.
    rewrite (cluster_run_aborted env options _ fs schedule Hroot) in Hjob.
    rewrite (cluster_getTiles_aborted env options _ fs Hroot) in Hjob.
    discriminate.
Qed.

(** One event of a run: nothing happens, or the job the worker holds runs
    [getTile] on the file system as it is. *)
Lemma deliver_effect (env : Env) (W : nat) (sys : Cluster.System) (w : nat) :
  Cluster.deliver env W options sys w = sys \/
  exists job,
    Cluster.killed sys = false /\
    Cluster.pending_job w (Cluster.pending sys) = Some job /\
    let out := Cluster.getTile env (Cluster.files sys) (Cluster.job_url job)
                 (Cluster.job_output job) (Cluster.job_coords job)
                 (Cluster.job_referrer job) (Cluster.job_format job) in
    Cluster.files (Cluster.deliver env W options sys w) = fs_after out /\
    Cluster.requests (Cluster.deliver env W options sys w) =
    Cluster.requests sys ++ requested out.
Proof.
  unfold Cluster.deliver.
  destruct (Cluster.killed sys) eqn:Hk; [now left|].
  destruct (Cluster.pending_job w (Cluster.pending sys)) as [job|] eqn:Hjob; [|now left].
  right. exists job. split; [reflexivity|]. split; [reflexivity|].
  unfold Cluster.worker_onMessage. cbv zeta.
  match goal with
  | |- context [Cluster.master_onMessage W options w ?m ?s] =>
      destruct (master_onMessage_files W options w m s) as [Hf Hr]
  end.
  rewrite Hf, Hr. now split.
Qed.

Lemma run_snoc (env : Env) (W : nat) (fs : FS) (schedule : list nat) (w : nat) :
  Cluster.run env W options fs (schedule ++ [w]) =
  Cluster.deliver env W options (Cluster.run env W options fs schedule) w.
Proof. unfold Cluster.run. now rewrite fold_left_app. Qed.

End KnownJobs.

(** ** What the events of a cluster run do *)

Section ClusterEffects.
Context {num : Type} {M : CoordinateMapper num}.
Variable env : Env.
Variable options : Options num.

Lemma job_known_fields (job : Cluster.Job) :
  job_known options job ->
  Cluster.job_url job = url options /\
  Cluster.job_output job = output options /\
  Cluster.job_format job = Cluster.tile_format options /\
  In (Cluster.job_coords job) (Cluster.addresses options).
Proof. intros (c & worker & -> & Hc). now repeat split. Qed.

Lemma root_added (fs : FS) :
  exists added,
    snd (createDir env fs (output options)) = added ++ fs /\
    Forall (fun p => inside (output options) p = true) added.
Proof.
  destruct (createDir_grows env fs (output options)) as [-> | ->].
  - now exists [].
  - exists [output options]. split; [reflexivity|].
    constructor; [apply inside_refl|constructor].
Qed.

Lemma getTile_added_inside (fs : FS) (templateUrl output : string) (c : Coords)
  (referrer : option string) (format : string) :
  exists added,
    fs_after (Cluster.getTile env fs templateUrl output c referrer format) =
    added ++ fs /\
    Forall (fun p => inside output p = true) added.
Proof.
  destruct (cluster_getTile_added env fs templateUrl output c referrer format)
    as (added & Hfs & Hincl).
  exists added. split; [exact Hfs|]. apply Forall_forall. intros p Hp.
  apply Hincl in Hp. destruct Hp as [<- | [<- | [<- | []]]].
  - apply inside_tile_path.
  - apply inside_column_dir.
  - apply inside_zoom_dir.
Qed.

Lemma cluster_run_files (cpus : nat) (fs : FS) (schedule : list nat) :
  exists added,
    Cluster.files (Cluster.run env (Cluster.numCPUs cpus) options fs schedule) =
    added ++ fs /\
    Forall (fun p => inside (output options) p = true) added.
Proof.
  induction schedule as [|w schedule IH] using rev_ind.
  - unfold Cluster.run, Cluster.getTiles. cbn [fold_left].
    destruct (root_added fs) as (added & Hfs & Hin).
    destruct (createDir env fs (output options)) as [[|] fs'];
      cbn [negb Cluster.files snd] in *; now exists added.
  - rewrite run_snoc. destruct IH as (added & Hfs & Hin).
    destruct (deliver_effect options env (Cluster.numCPUs cpus)
                (Cluster.run env (Cluster.numCPUs cpus) options fs schedule) w)
      as [-> | (job & Hk & Hjob & Hf & _)].
    + now exists added.
    + rewrite Hf.
      pose proof (run_pending_known options env cpus fs schedule w job Hk Hjob) as Hknown.
      destruct (job_known_fields job Hknown) as (_ & -> & _).
      destruct (getTile_added_inside
                  (Cluster.files (Cluster.run env (Cluster.numCPUs cpus) options fs schedule))
                  (Cluster.job_url job) (output options) (Cluster.job_coords job)
                  (Cluster.job_referrer job) (Cluster.job_format job))
        as (more & -> & Hmore).
      exists (more ++ added). rewrite Hfs, app_assoc. split; [reflexivity|].
      apply Forall_app. now split.
Qed.

(** When every tile of the run is there, no event touches the file system or
    the network. *)
Lemma cluster_run_present (cpus : nat) (fs : FS) (schedule : list nat) :
  (forall c, In c (Cluster.addresses options) ->
             existsSync fs (tile_path (output options) c (Cluster.tile_format options))
             = true) ->
  let sys := Cluster.run env (Cluster.numCPUs cpus) options fs schedule in
  Cluster.files sys = fs /\ Cluster.requests sys = [] /\
  fst (createDir env fs (output options)) = true.
Proof.
  intros Hall.
  assert (Hroot : createDir env fs (output options) = (true, fs)).
  { apply createDir_exists.
    pose proof (Hall (coords (initial_cursor options)) ltac:(now left)) as Hseed.
    apply tile_path_parents in Hseed. destruct Hseed as [Hz _].
    now apply existsSync_parent in Hz. }
  induction schedule as [|w schedule IH] using rev_ind; cbv zeta.
  - unfold Cluster.run, Cluster.getTiles. cbn [fold_left]. rewrite Hroot.
    now cbn.
  - rewrite run_snoc. destruct IH as (Hfs & Hreq & _).
    split; [|split]; [| |now rewrite Hroot].
    + destruct (deliver_effect options env (Cluster.numCPUs cpus)
                  (Cluster.run env (Cluster.numCPUs cpus) options fs schedule) w)
        as [-> | (job & Hk & Hjob & Hf & _)]; [assumption|].
      rewrite Hf, Hfs.
      pose proof (run_pending_known options env cpus fs schedule w job Hk Hjob) as Hknown.
      destruct (job_known_fields job Hknown) as (_ & Hout & Hfmt & Hc).
      rewrite cluster_getTile_has; [reflexivity|].
      rewrite Hout, Hfmt. now apply Hall.
    + destruct (deliver_effect options env (Cluster.numCPUs cpus)
                  (Cluster.run env (Cluster.numCPUs cpus) options fs schedule) w)
        as [-> | (job & Hk & Hjob & _ & Hr)]; [assumption|].
      rewrite Hr, Hreq, Hfs.
      pose proof (run_pending_known options env cpus fs schedule w job Hk Hjob) as Hknown.
      destruct (job_known_fields job Hknown) as (_ & Hout & Hfmt & Hc).
      rewrite cluster_getTile_has; [reflexivity|].
      rewrite Hout, Hfmt. now apply Hall.
Qed.

End ClusterEffects.

(** ** What the sequential walk does *)

Section GetTileErrors.
Variable env : Env.
Variables (fs : FS) (templateUrl output : string) (c : Coords).
Variables (referrer : option string) (format : string).

(** The only errors of [getTile] are the path errors of its two
    directories. *)
Lemma cluster_getTile_error :
  let out := Cluster.getTile env fs templateUrl output c referrer format in
  callback_err out = None \/
  callback_err out = Some (pathError (zoom_dir output c)) \/
  callback_err out = Some (pathError (column_dir output c)).
Proof.
  unfold Cluster.getTile. fold (zoom_dir output c).
  destruct (createDir env fs (zoom_dir output c)) as [[|] fs1]; cbn [negb];
    [|right; now left].
  fold (column_dir output c).
  destruct (createDir env fs1 (column_dir output c)) as [[|] fs2]; cbn [negb];
    [|right; now right].
  destruct (existsSync fs2 _); now left.
Qed.

Lemma createDir_never_fails (fs0 : FS) (path : string) :
  (forall fs' p, mkdirSync_throws env fs' p = None) ->
  fst (createDir env fs0 path) = true.
Proof.
  intros Hgood. unfold createDir. destruct (existsSync fs0 path); [reflexivity|].
  cbn [negb]. now rewrite Hgood.
Qed.

Lemma cluster_getTile_no_error :
  (forall fs' p, mkdirSync_throws env fs' p = None) ->
  callback_err (Cluster.getTile env fs templateUrl output c referrer format) = None.
Proof.
  intros Hgood. unfold Cluster.getTile.
  pose proof (createDir_never_fails fs (join_path output (Number_toString (cz c))) Hgood) as H1.
  destruct (createDir env fs _) as [ok1 fs1]. cbn [fst] in H1. subst ok1. cbn [negb].
  pose proof (createDir_never_fails fs1
                (join_path (join_path output (Number_toString (cz c)))
                           (Number_toString (cx c))) Hgood) as H2.
  destruct (createDir env fs1 _) as [ok2 fs2]. cbn [fst] in H2. subst ok2. cbn [negb].
  now destruct (existsSync fs2 _).
Qed.

End GetTileErrors.

Section WalkEffects.
Context {num : Type} {M : CoordinateMapper num}.
Variable env : Env.
Variable options : Options num.

(** One step of the walk, when [getTile] reports no error. *)
Lemma walk_step (fuel : nat) (st : Sequential.Run) :
  let out := Sequential.getTile env (Sequential.files st) (url options)
               (output options) (coords (Sequential.cursor st)) in
  let tiles := Sequential.tiles st ++ [coords (Sequential.cursor st)] in
  let requests := Sequential.requests st ++ requested out in
  callback_err out = None ->
  Sequential.walk (S fuel) env options st =
  if fst (advance options (Sequential.cursor st))
  then Sequential.walk fuel env options
         (Sequential.mkRun (snd (advance options (Sequential.cursor st)))
            (fs_after out) tiles requests (Sequential.returned st) false)
  else Sequential.mkRun (snd (advance options (Sequential.cursor st)))
         (fs_after out) tiles requests (Sequential.returned st) true.
Proof.
  intros out tiles requests Herr. cbn [Sequential.walk]. fold out. rewrite Herr.
  rewrite tileGetCallback_advance.
  now destruct (fst (advance options (Sequential.cursor st))).
Qed.

Lemma walk_files (fuel : nat) (st : Sequential.Run) :
  exists added,
    Sequential.files (Sequential.walk fuel env options st) =
    added ++ Sequential.files st /\
    Forall (fun p => inside (output options) p = true) added.
Proof.
  revert st. induction fuel as [|fuel IH]; intros st.
  - now exists [].
  - destruct (getTile_added_inside env (Sequential.files st) (url options)
                (output options) (coords (Sequential.cursor st)) None "png")
      as (added & Hfs & Hin).
    change (Cluster.getTile env (Sequential.files st) (url options) (output options)
              (coords (Sequential.cursor st)) None "png")
      with (Sequential.getTile env (Sequential.files st) (url options) (output options)
              (coords (Sequential.cursor st))) in Hfs.
    destruct (callback_err (Sequential.getTile env (Sequential.files st) (url options)
                (output options) (coords (Sequential.cursor st)))) as [e|] eqn:Herr.
    + rewrite (walk_abort env options fuel st e Herr). cbn [Sequential.files].
      now exists added.
    + rewrite (walk_step fuel st Herr).
      destruct (fst (advance options (Sequential.cursor st))).
      * match goal with
        | |- context [Sequential.walk fuel env options ?s] =>
            destruct (IH s) as (more & Hmore & Hin')
        end.
        rewrite Hmore. cbn [Sequential.files]. rewrite Hfs.
        exists (more ++ added). rewrite app_assoc. split; [reflexivity|].
        apply Forall_app. now split.
      * cbn [Sequential.files]. now exists added.
Qed.

(** A walk calls the caller's callback at most once more, and then with a
    path error of a directory under the output directory. *)
Lemma walk_returned_error (fuel : nat) (st : Sequential.Run) :
  Sequential.returned (Sequential.walk fuel env options st) = Sequential.returned st \/
  exists p,
    Sequential.returned (Sequential.walk fuel env options st) =
    Sequential.returned st ++ [Some (pathError p)] /\
    inside (output options) p = true /\
    exists c, In c (Sequential.tiles (Sequential.walk fuel env options st)) /\
              (p = zoom_dir (output options) c \/ p = column_dir (output options) c).
Proof.
  revert st. induction fuel as [|fuel IH]; intros st.
  - now left.
  - set (c := coords (Sequential.cursor st)).
    destruct (callback_err (Sequential.getTile env (Sequential.files st) (url options)
                (output options) c)) as [e|] eqn:Herr.
    + right. rewrite (walk_abort env options fuel st e Herr).
      cbn [Sequential.returned Sequential.tiles]. fold c.
      destruct (cluster_getTile_error env (Sequential.files st) (url options)
                  (output options) c None "png") as [H|[H|H]];
        change (Cluster.getTile env (Sequential.files st) (url options) (output options)
                  c None "png")
          with (Sequential.getTile env (Sequential.files st) (url options)
                  (output options) c) in H;
        rewrite Herr in H; [discriminate| |]; injection H as ->.
      * exists (zoom_dir (output options) c). repeat split.
        -- apply inside_zoom_dir.
        -- exists c. split; [apply in_or_app; right; now left|now left].
      * exists (column_dir (output options) c). repeat split.
        -- apply inside_column_dir.
        -- exists c. split; [apply in_or_app; right; now left|now right].
    + rewrite (walk_step fuel st Herr).
      destruct (fst (advance options (Sequential.cursor st))); [|now left].
      match goal with
      | |- context [Sequential.walk fuel env options ?s] => apply (IH s)
      end.
Qed.

Lemma walk_no_error (fuel : nat) (st : Sequential.Run) :
  (forall fs' p, mkdirSync_throws env fs' p = None) ->
  Sequential.returned (Sequential.walk fuel env options st) = Sequential.returned st.
Proof.
  intros Hgood. revert st. induction fuel as [|fuel IH]; intros st; [reflexivity|].
  rewrite walk_step
    by (apply (cluster_getTile_no_error env _ _ _ _ None "png" Hgood)).
  destruct (fst (advance options (Sequential.cursor st))); [|reflexivity].
  match goal with
  | |- context [Sequential.walk fuel env options ?s] => apply (IH s)
  end.
Qed.

(** The walk and the iterator visit the same addresses. *)
Lemma walk_present (fuel : nat) (st : Sequential.Run) :
  cz (coords (Sequential.cursor st)) <= zoom_max options ->
  (forall c,
      In c (coords (Sequential.cursor st)
            :: map Cluster.job_coords
                   (fst (Cluster.next_jobs fuel options (Sequential.cursor st)))) ->
      existsSync (Sequential.files st) (tile_path (output options) c "png") = true) ->
  let r := Sequential.walk (S fuel) env options st in
  Sequential.files r = Sequential.files st /\
  Sequential.requests r = Sequential.requests st /\
  Sequential.returned r = Sequential.returned st.
Proof.
  revert st. induction fuel as [|fuel IH]; intros st Hz Hall r; subst r.
  - assert (Hout : Sequential.getTile env (Sequential.files st) (url options)
                     (output options) (coords (Sequential.cursor st)) =
                   mkOutcome None [] (Sequential.files st)).
    { apply (cluster_getTile_has env _ _ _ _ None "png"). apply Hall. now left. }
    rewrite walk_step by now rewrite Hout.
    rewrite Hout. cbn [fs_after requested Sequential.walk]. rewrite app_nil_r.
    now destruct (fst (advance options (Sequential.cursor st))).
  - assert (Hout : Sequential.getTile env (Sequential.files st) (url options)
                     (output options) (coords (Sequential.cursor st)) =
                   mkOutcome None [] (Sequential.files st)).
    { apply (cluster_getTile_has env _ _ _ _ None "png"). apply Hall. now left. }
    rewrite walk_step by now rewrite Hout.
    rewrite Hout. cbn [fs_after requested]. rewrite app_nil_r.
    destruct (fst (advance options (Sequential.cursor st))) eqn:Hgo; [|now cbn].
    match goal with
    | |- context [Sequential.walk (S fuel) env options ?s] =>
        destruct (IH s) as (H1 & H2 & H3)
    end.
    + cbn [Sequential.cursor]. now apply advance_zoom.
    + cbn [Sequential.cursor Sequential.files]. intros c Hc. apply Hall. right.
      cbn [Cluster.next_jobs]. rewrite getNextJob_advance.
      destruct (Z.ltb_spec (zoom_max options) (cz (coords (Sequential.cursor st)))); [lia|].
      rewrite Hgo.
      destruct (Cluster.next_jobs fuel options (snd (advance options (Sequential.cursor st))))
        as [jobs last].
      cbn [fst map Cluster.job_coords Cluster.job_of] in *. exact Hc.
    + now rewrite H1, H2, H3.
Qed.

End WalkEffects.

(** ** An empty zoom range, and a single worker *)

Section EmptyZoomRange.
Context {num : Type} {M : CoordinateMapper num}.
Variable env : Env.
Variable options : Options num.
Hypothesis Hempty : zoom_max options < zoom_min options.

Lemma next_jobs_empty_range (k : nat) :
  Cluster.next_jobs k options (initial_cursor options) = ([], initial_cursor options).
Proof.
  destruct k as [|k]; [reflexivity|]. cbn [Cluster.next_jobs].
  now rewrite getNextJob_exhausted.
Qed.

Lemma walk_empty_range (fuel : nat) (st : Sequential.Run) :
  cz (coords (Sequential.cursor st)) = zoom_min options ->
  Sequential.walk fuel env options st =
  Sequential.walk fuel env (with_zoom_max options (zoom_min options)) st.
Proof.
  revert st. induction fuel as [|fuel IH]; intros st Hz; [reflexivity|].
  cbn [Sequential.walk].
  change (url (with_zoom_max options (zoom_min options))) with (url options).
  change (output (with_zoom_max options (zoom_min options))) with (output options).
  destruct (callback_err _) as [e|]; [reflexivity|].
  rewrite !tileGetCallback_advance.
  assert (Hadv : advance (with_zoom_max options (zoom_min options)) (Sequential.cursor st) =
                 advance options (Sequential.cursor st)).
  { unfold advance.
    destruct (cy (coords (Sequential.cursor st)) + 1 <=? south (bounds (Sequential.cursor st)));
      [reflexivity|].
    destruct (cx (coords (Sequential.cursor st)) + 1 <=? east (bounds (Sequential.cursor st)));
      [reflexivity|].
    change (zoom_max (with_zoom_max options (zoom_min options))) with (zoom_min options).
    change (bbox (with_zoom_max options (zoom_min options))) with (bbox options).
    rewrite Hz.
    destruct (Z.leb_spec (zoom_min options + 1) (zoom_min options)); [lia|].
    destruct (Z.leb_spec (zoom_min options + 1) (zoom_max options)); [lia|].
    reflexivity. }
  rewrite Hadv.
  destruct (fst (advance options (Sequential.cursor st))) eqn:Hgo; [|reflexivity].
  apply IH. cbn [Sequential.cursor]. rewrite <- Hz.
  revert Hgo. unfold advance.
  destruct (cy (coords (Sequential.cursor st)) + 1 <=? south (bounds (Sequential.cursor st)));
    [reflexivity|].
  destruct (cx (coords (Sequential.cursor st)) + 1 <=? east (bounds (Sequential.cursor st)));
    [reflexivity|].
  cbn [fst]. rewrite Hz. intros Hgo. apply Z.leb_le in Hgo. lia.
Qed.

Lemma budget_empty_range :
  budget (with_zoom_max options (zoom_min options))
         (initial_cursor (with_zoom_max options (zoom_min options))) =
  budget options (initial_cursor options).
Proof.
  change (initial_cursor (with_zoom_max options (zoom_min options)))
    with (initial_cursor options).
  unfold budget. f_equal.
  change (cz (coords (initial_cursor options))) with (zoom_min options).
  rewrite !later_budget_done; [reflexivity|lia|cbn; lia].
Qed.

Lemma sequential_empty_range (fs : FS) :
  Sequential.getTiles env options fs =
  Sequential.getTiles env (with_zoom_max options (zoom_min options)) fs.
Proof.
  unfold Sequential.getTiles. rewrite budget_empty_range.
  unfold Sequential.getTiles_fuel.
  change (initial_cursor (with_zoom_max options (zoom_min options)))
    with (initial_cursor options).
  change (output (with_zoom_max options (zoom_min options))) with (output options).
  destruct (createDir env fs (output options)) as [[|] fs']; cbn [negb]; [|reflexivity].
  now apply walk_empty_range.
Qed.

Lemma cluster_empty_range (cpus : nat) (fs : FS) (schedule : list nat) :
  fst (createDir env fs (output options)) = true ->
  let sys := Cluster.run env (Cluster.numCPUs cpus) options fs schedule in
  Cluster.sent sys = first_jobs options (Cluster.numCPUs cpus) /\
  Cluster.cursor sys = initial_cursor options.
Proof.
  intros Hroot sys.
  pose proof (cluster_run_invariant env options _ fs schedule
                (numCPUs_positive cpus) Hroot) as Hinv.
  destruct Hinv as [(k & later & Hsent & Hlater & Hcur) _ _ _ _ _].
  rewrite next_jobs_empty_range in Hlater, Hcur. cbn [fst snd] in Hlater, Hcur.
  apply map_eq_nil in Hlater. subst later. rewrite app_nil_r in Hsent.
  now split.
Qed.

End EmptyZoomRange.

Section OneWorker.
Context {num : Type} {M : CoordinateMapper num}.
Variable env : Env.
Variable options : Options num.
Hypothesis Hpng : Cluster.tile_format options = "png"%string.

(** The event of the only worker, when its job is the tile under the
    master's cursor. *)
Lemma deliver_one_worker (cur : Cursor) (ws : list nat) (worker : option nat)
  (snt : list (nat * Cluster.Job)) (ret : list (option string)) (fs : FS)
  (reqs : list string) :
  cz (coords cur) <= zoom_max options ->
  let job := Cluster.job_of options (coords cur) worker in
  let out := Sequential.getTile env fs (url options) (output options) (coords cur) in
  let cur' := snd (advance options cur) in
  let next := Cluster.job_of options (coords cur') None in
  Cluster.deliver env 1 options
    (Cluster.mkSystem cur 0 ws [(1%nat, job)] snt false ret fs reqs) 1%nat =
  if fst (advance options cur)
  then Cluster.mkSystem cur' 0 ws [(1%nat, next)] (snt ++ [(1%nat, next)]) false ret
         (fs_after out) (reqs ++ requested out)
  else Cluster.mkSystem cur' 1 ws [] snt true (ret ++ [None])
         (fs_after out) (reqs ++ requested out).
Proof.
  intros Hz job out cur' next.
  unfold Cluster.deliver. cbn [Cluster.killed Cluster.pending].
  change (Cluster.pending_job 1 [(1%nat, job)]) with (Some job).
  unfold Cluster.worker_onMessage. cbv zeta.
  change (Cluster.job_url job) with (url options).
  change (Cluster.job_output job) with (output options).
  change (Cluster.job_coords job) with (coords cur).
  change (Cluster.job_format job) with (Cluster.tile_format options).
  rewrite Hpng.
  change (Cluster.getTile env fs (url options) (output options) (coords cur)
            (Cluster.job_referrer job) "png") with out.
  cbn [Cluster.files Cluster.requests Cluster.cursor Cluster.stopped Cluster.workers
       Cluster.sent Cluster.returned].
  unfold Cluster.master_onMessage. cbn [Cluster.cursor].
  rewrite getNextJob_advance.
  destruct (Z.ltb_spec (zoom_max options) (cz (coords cur))); [lia|].
  fold cur'. destruct (fst (advance options cur)); reflexivity.
Qed.

Lemma one_worker_walk (fuel : nat) :
  forall (st : Sequential.Run) (ws : list nat) (worker : option nat)
         (snt : list (nat * Cluster.Job)) (ret : list (option string)) (n : nat),
  cz (coords (Sequential.cursor st)) <= zoom_max options ->
  Sequential.ended st = false ->
  let r := Sequential.walk fuel env options st in
  Sequential.ended r = true ->
  Sequential.returned r = Sequential.returned st ->
  List.length (Sequential.tiles r) = (List.length (Sequential.tiles st) + n)%nat ->
  let sys :=
    fold_left (Cluster.deliver env 1 options) (repeat 1%nat n)
      (Cluster.mkSystem (Sequential.cursor st) 0 ws
         [(1%nat, Cluster.job_of options (coords (Sequential.cursor st)) worker)]
         snt false ret (Sequential.files st) (Sequential.requests st)) in
  Cluster.files sys = Sequential.files r /\
  Cluster.requests sys = Sequential.requests r /\
  Cluster.cursor sys = Sequential.cursor r /\
  Cluster.killed sys = true /\
  Cluster.returned sys = ret ++ [None].
Proof.
  induction fuel as [|fuel IH]; intros st ws worker snt ret n Hz Hend r Hr Hret Hlen sys.
  - subst r. cbn [Sequential.walk] in Hr. congruence.
  - subst r sys.
    destruct (callback_err (Sequential.getTile env (Sequential.files st) (url options)
                (output options) (coords (Sequential.cursor st)))) as [e|] eqn:Herr.
    + exfalso. rewrite (walk_abort env options fuel st e Herr) in Hret.
      cbn [Sequential.returned] in Hret.
      apply (f_equal (@List.length _)) in Hret. rewrite length_app in Hret.
      cbn in Hret. lia.
    + rewrite (walk_step env options fuel st Herr) in *.
      destruct (fst (advance options (Sequential.cursor st))) eqn:Hgo.
      * set (out := Sequential.getTile env (Sequential.files st) (url options)
                      (output options) (coords (Sequential.cursor st))) in *.
        set (st' := Sequential.mkRun (snd (advance options (Sequential.cursor st)))
                      (fs_after out)
                      (Sequential.tiles st ++ [coords (Sequential.cursor st)])
                      (Sequential.requests st ++ requested out)
                      (Sequential.returned st) false) in *.
        destruct (walk_tiles_prefix env options fuel st') as [more Hmore].
        assert (Hn : exists n', n = S n').
        { rewrite Hmore in Hlen. cbn [Sequential.tiles st'] in Hlen.
          rewrite !length_app in Hlen. cbn [List.length] in Hlen.
          destruct n as [|n']; [lia|now exists n']. }
        destruct Hn as [n' ->]. cbn [repeat fold_left].
        rewrite (deliver_one_worker _ ws worker snt ret _ _ Hz). rewrite Hgo.
        fold out.
        apply (IH st' ws None
                 (snt ++ [(1%nat, Cluster.job_of options
                                    (coords (snd (advance options (Sequential.cursor st))))
                                    None)])
                 ret n').
        -- cbn [st' Sequential.cursor]. now apply advance_zoom.
        -- reflexivity.
        -- exact Hr.
        -- exact Hret.
        -- rewrite Hlen. cbn [st' Sequential.tiles]. rewrite length_app.
           cbn [List.length]. lia.
      * cbn [Sequential.tiles Sequential.files Sequential.requests Sequential.cursor] in *.
        rewrite length_app in Hlen. cbn [List.length] in Hlen.
        assert (n = 1%nat) by lia. subst n. cbn [repeat fold_left].
        rewrite (deliver_one_worker _ ws worker snt ret _ _ Hz). rewrite Hgo.
        now cbn.
Qed.

End OneWorker.

Section SequentialRun.
Context {num : Type} {M : CoordinateMapper num}.
Variable env : Env.
Variable options : Options num.

Lemma sequential_getTiles_files (fs : FS) :
  exists added,
    Sequential.files (Sequential.getTiles env options fs) = added ++ fs /\
    Forall (fun p => inside (output options) p = true) added.
Proof.
  unfold Sequential.getTiles, Sequential.getTiles_fuel.
  destruct (root_added env options fs) as (added & Hfs & Hin).
  destruct (createDir env fs (output options)) as [[|] fs']; cbn [negb snd] in *.
  - match goal with
    | |- context [Sequential.walk ?f env options ?s] =>
        destruct (walk_files env options f s) as (more & Hmore & Hin')
    end.
    rewrite Hmore. cbn [Sequential.files]. rewrite Hfs.
    exists (more ++ added). rewrite app_assoc. split; [reflexivity|].
    apply Forall_app. now split.
  - cbn [Sequential.files]. now exists added.
Qed.

Lemma sequential_getTiles_returned (fs : FS) :
  let r := Sequential.getTiles env options fs in
  Sequential.returned r = [] \/
  exists p, Sequential.returned r = [Some (pathError p)] /\
            inside (output options) p = true.
Proof.
  cbv zeta.
  destruct (fst (createDir env fs (output options))) eqn:Hroot.
  - rewrite (sequential_getTiles_started env options fs Hroot).
    match goal with
    | |- context [Sequential.walk ?f env options ?s] =>
        destruct (walk_returned_error env options f s) as [H | (p & H & Hp & _)]
    end.
    + left. exact H.
    + right. exists p. now split.
  - rewrite (sequential_getTiles_aborted env options fs Hroot). right.
    exists (output options). split; [reflexivity|apply inside_refl].
Qed.

Lemma sequential_getTiles_no_error (fs : FS) :
  (forall fs' p, mkdirSync_throws env fs' p = None) ->
  Sequential.returned (Sequential.getTiles env options fs) = [].
Proof.
  intros Hgood.
  rewrite (sequential_getTiles_started env options fs
             (createDir_never_fails env fs (output options) Hgood)).
  now rewrite walk_no_error.
Qed.

End SequentialRun.

(** ** What a run writes and requests *)

(** A run never removes a path and writes only the output directory and
    paths under it: the file system after a run is the one before it with
    such paths added, in the cluster version under every schedule and in the
    sequential version. *)
Theorem runs_only_add_under_output {num : Type} {M : CoordinateMapper num}
  (env : Env) (options : Options num) (fs : FS) :
  (forall cpus schedule,
      exists added,
        Cluster.files (Cluster.run env (Cluster.numCPUs cpus) options fs schedule) =
        added ++ fs /\
        Forall (fun p => inside (output options) p = true) added) /\
  (exists added,
      Sequential.files (Sequential.getTiles env options fs) = added ++ fs /\
      Forall (fun p => inside (output options) p = true) added).
Proof.
  split.
  - intros cpus schedule. apply cluster_run_files.
  - apply sequential_getTiles_files.
Qed.

(** What [getTile] requests. A call of [getTile], in either version,
    requests nothing or the one URL resolved from its template and its tile;
    it requests nothing when it reports a path error and nothing when the
    file of the tile exists. Every job the master of a cluster run sends,
    under every schedule, is for an address of the iterator, and [getTile]
    on it, on whatever file system, requests nothing or the URL resolved
    from [options.url] and that address. *)
Theorem requests_are_tile_urls {num : Type} {M : CoordinateMapper num}
  (env : Env) (options : Options num) (fs : FS) :
  (forall fs' templateUrl output c referrer format,
      let out := Cluster.getTile env fs' templateUrl output c referrer format in
      (requested out = [] \/ requested out = [templateToUrl templateUrl c]) /\
      (callback_err out <> None -> requested out = []) /\
      (existsSync fs' (tile_path output c format) = true -> requested out = []) /\
      Sequential.getTile env fs' templateUrl output c = 
      Cluster.getTile env fs' templateUrl output c referrer "png") /\
  (forall cpus schedule e fs',
      In e (Cluster.sent (Cluster.run env (Cluster.numCPUs cpus) options fs schedule)) ->
      let job := snd e in
      let out := Cluster.getTile env fs' (Cluster.job_url job) (Cluster.job_output job)
                   (Cluster.job_coords job) (Cluster.job_referrer job)
                   (Cluster.job_format job) in
      In (Cluster.job_coords job) (Cluster.addresses options) /\
      (requested out = [] \/
       requested out = [templateToUrl (url options) (Cluster.job_coords job)])).
Proof.
  split.
  - intros fs' templateUrl output c referrer format out. subst out.
    pose proof (cluster_getTile_requested env fs' templateUrl output c referrer format)
      as Hreq. cbv zeta in Hreq.
    split; [|split; [|split]].
    + destruct Hreq as [H|[H _]]; [now left|now right].
    + intros Herr. destruct Hreq as [H|[_ H]]; [exact H|contradiction].
    + intros Hhas. now rewrite (cluster_getTile_has env fs' templateUrl output c referrer format Hhas).
    + reflexivity.
  - intros cpus schedule e fs' He job out. subst job out.
    destruct (fst (createDir env fs (output options))) eqn:Hroot.
    + pose proof (cluster_run_invariant env options _ fs schedule
                    (numCPUs_positive cpus) Hroot) as Hinv.
      pose proof (sent_known _ _ _ Hinv) as Hsent. rewrite Forall_forall in Hsent.
      destruct (job_known_fields options _ (Hsent e He)) as (Hu & _ & _ & Hc).
      split; [exact Hc|]. rewrite <- Hu.
      pose proof (cluster_getTile_requested env fs' (Cluster.job_url (snd e))
                    (Cluster.job_output (snd e)) (Cluster.job_coords (snd e))
                    (Cluster.job_referrer (snd e)) (Cluster.job_format (snd e))) as Hreq.
      cbv zeta in Hreq. destruct Hreq as [H|[H _]]; [now left|now right].
    + exfalso.
      rewrite (cluster_run_aborted env options _ fs schedule Hroot) in He.
      rewrite (cluster_getTiles_aborted env options _ fs Hroot) in He.
      exact He.
Qed.

(** Running over an area that is already downloaded touches neither the
    network nor the file system, whatever the environment: when the
    destination of every address of the iterator exists, a cluster run
    requests nothing, leaves the file system as it is and reports no error,
    under every schedule; so does the sequential run when the destinations
    are the png files and the zoom range is not empty. *)
Theorem downloaded_area_is_left_alone {num : Type} {M : CoordinateMapper num}
  (env : Env) (options : Options num) (fs : FS) :
  (forall c, In c (Cluster.addresses options) ->
             existsSync fs (tile_path (output options) c (Cluster.tile_format options))
             = true) ->
  (forall cpus schedule,
      let sys := Cluster.run env (Cluster.numCPUs cpus) options fs schedule in
      Cluster.files sys = fs /\ Cluster.requests sys = [] /\
      (Cluster.returned sys = [] \/ Cluster.returned sys = [None])) /\
  (Cluster.tile_format options = "png"%string ->
   zoom_min options <= zoom_max options ->
   let r := Sequential.getTiles env options fs in
   Sequential.files r = fs /\ Sequential.requests r = [] /\
   Sequential.returned r = [] /\ Sequential.ended r = true).
Proof.
  intros Hall. split.
  - intros cpus schedule sys. subst sys.
    destruct (cluster_run_present env options cpus fs schedule Hall) as (Hf & Hr & Hroot).
    split; [exact Hf|]. split; [exact Hr|].
    pose proof (cluster_run_invariant env options _ fs schedule
                  (numCPUs_positive cpus) Hroot) as Hinv.
    rewrite (inv_returned _ _ _ Hinv).
    destruct (Cluster.killed _); [now right|now left].
  - intros Hpng Hzoom r. subst r.
    assert (Hroot : createDir env fs (output options) = (true, fs)).
    { apply createDir_exists.
      pose proof (Hall (coords (initial_cursor options)) ltac:(now left)) as Hseed.
      apply tile_path_parents in Hseed. destruct Hseed as [Hz _].
      now apply existsSync_parent in Hz. }
    pose proof (sequential_getTiles_ends env options fs) as Hend.
    rewrite (sequential_getTiles_started env options fs ltac:(now rewrite Hroot)) in *.
    rewrite Hroot in *. cbn [snd] in *.
    destruct (budget_succ options (initial_cursor options)) as [n Hn]. rewrite Hn in *.
    destruct (walk_present env options n
                (Sequential.mkRun (initial_cursor options) fs [] [] [] false))
      as (H1 & H2 & H3).
    + exact Hzoom.
    + cbn [Sequential.cursor Sequential.files]. intros c Hc.
      rewrite <- Hpng. apply Hall.
      destruct Hc as [<- | Hc]; [now left|]. right.
      apply in_map_iff in Hc. destruct Hc as (job & <- & Hjob).
      apply in_map. now apply next_jobs_in_all with n.
    + now repeat split.
Qed.

Lemma example_addresses :
  Cluster.addresses example_options = [mkCoords 1 1 0; mkCoords 1 1 1].
Proof.
  unfold Cluster.addresses, Cluster.all_jobs. rewrite example_initial_cursor.
  vm_compute. reflexivity.
Qed.

Lemma downloaded_area_is_left_alone_witness :
  let fs := ["tiles/1/1/1.png"%string; "tiles/1/1/0.png"%string] in
  let sys := Cluster.run readonly_env (Cluster.numCPUs 2) example_options fs
               [1%nat; 2%nat; 1%nat] in
  Cluster.files sys = fs /\ Cluster.requests sys = [] /\
  (Cluster.returned sys = [] \/ Cluster.returned sys = [None]).
Proof.
  cbv zeta.
  apply (proj1 (downloaded_area_is_left_alone readonly_env example_options
                  ["tiles/1/1/1.png"%string; "tiles/1/1/0.png"%string]
                  ltac:(rewrite example_addresses;
                        intros c [<- | [<- | []]]; vm_compute; reflexivity))
           2%nat [1%nat; 2%nat; 1%nat]).
Defined.

(** ** The caller's callback *)

(** The sequential version calls the caller's callback only to report a path
    error, and at most once: a run always comes to its end, and it ends either
    without any call of the callback or with one call whose argument is the
    path error of the output directory or of a directory under it. When no
    directory fails to be created the callback is never called, so the caller
    is not told that the download is complete. *)
Theorem sequential_callback_only_on_path_error {num : Type} {M : CoordinateMapper num}
  (env : Env) (options : Options num) (fs : FS) :
  let r := Sequential.getTiles env options fs in
  Sequential.ended r = true /\
  (Sequential.returned r = [] \/
   exists p, Sequential.returned r = [Some (pathError p)] /\
             inside (output options) p = true) /\
  ((forall fs' p, mkdirSync_throws env fs' p = None) -> Sequential.returned r = []).
Proof.
  cbv zeta. split; [apply sequential_getTiles_ends|]. split.
  - apply sequential_getTiles_returned.
  - apply sequential_getTiles_no_error.
Qed.

(** The cluster version calls the caller's callback at most once, and a run
    is in one of three states under every schedule: the output directory
    could not be created and the callback was called with its path error;
    or the workers live, some worker holds a job and the callback was not
    called; or the workers were killed, every worker was counted by
    [stopChildProcesses], no worker holds a job, the iterator is past the last
    zoom level and the callback was called once, without an argument. An error
    of a tile is never passed to the caller. *)
Theorem cluster_callback_once {num : Type} {M : CoordinateMapper num}
  (env : Env) (cpus : nat) (options : Options num) (fs : FS) (schedule : list nat) :
  let sys := Cluster.run env (Cluster.numCPUs cpus) options fs schedule in
  (fst (createDir env fs (output options)) = false /\
   Cluster.returned sys = [Some (pathError (output options))] /\
   Cluster.killed sys = false /\ Cluster.pending sys = []) \/
  (fst (createDir env fs (output options)) = true /\
   Cluster.killed sys = false /\ Cluster.returned sys = [] /\
   Cluster.pending sys <> []) \/
  (fst (createDir env fs (output options)) = true /\
   Cluster.killed sys = true /\ Cluster.returned sys = [None] /\
   Cluster.pending sys = [] /\
   Cluster.stopped sys = Cluster.numCPUs cpus /\
   zoom_max options < cz (coords (Cluster.cursor sys))).
Proof.
  intros sys. subst sys.
  pose proof (numCPUs_positive cpus) as HW.
  destruct (fst (createDir env fs (output options))) eqn:Hroot.
  - right.
    pose proof (cluster_run_invariant env options _ fs schedule HW Hroot) as Hinv.
    pose proof (killed_iff_idle options _ HW _ Hinv) as Hidle.
    pose proof (inv_returned _ _ _ Hinv) as Hret.
    pose proof (inv_workers _ _ _ Hinv) as Hw.
    pose proof (inv_stopped _ _ _ Hinv) as Hs.
    destruct (Cluster.killed (Cluster.run env (Cluster.numCPUs cpus) options fs schedule))
      eqn:Hk.
    + right. destruct Hidle as [Hidle _]. specialize (Hidle eq_refl).
      rewrite Hidle in Hw. cbn [List.length] in Hw.
      repeat split; try assumption; lia.
    + left. repeat split; try assumption. intros Hp.
      destruct Hidle as [_ Hidle]. specialize (Hidle Hp). discriminate.
  - left. rewrite (cluster_run_aborted env options _ fs schedule Hroot).
    rewrite (cluster_getTiles_aborted env options _ fs Hroot). now repeat split.
Qed.

(** ** An empty zoom range *)

(** With [zoom.max < zoom.min] the two versions differ. The iterator of the
    cluster version has the first address only: every worker is sent the
    first tile, no other job is sent and the counter stays 0. The sequential
    version tests [zoom.max] only when it changes the zoom level, so it walks
    the whole rectangle of [zoom.min], as if [zoom.max] were [zoom.min]. *)
Theorem empty_zoom_range {num : Type} {M : CoordinateMapper num}
  (env : Env) (options : Options num) :
  zoom_max options < zoom_min options ->
  Cluster.addresses options = [coords (initial_cursor options)] /\
  (forall cpus fs schedule,
      fst (createDir env fs (output options)) = true ->
      let sys := Cluster.run env (Cluster.numCPUs cpus) options fs schedule in
      Cluster.sent sys = first_jobs options (Cluster.numCPUs cpus) /\
      count (Cluster.cursor sys) = 0) /\
  (forall fs,
      Sequential.getTiles env options fs =
      Sequential.getTiles env (with_zoom_max options (zoom_min options)) fs).
Proof.
  intros Hempty. split; [|split].
  - unfold Cluster.addresses, Cluster.all_jobs.
    now rewrite (next_jobs_empty_range options Hempty).
  - intros cpus fs schedule Hroot sys. subst sys.
    destruct (cluster_empty_range env options Hempty cpus fs schedule Hroot) as [Hs Hc].
    split; [exact Hs|]. now rewrite Hc.
  - intros fs. now apply sequential_empty_range.
Qed.

Lemma empty_zoom_range_witness :
  Cluster.addresses (with_zoom_max example_options 0) =
  [coords (initial_cursor (with_zoom_max example_options 0))].
Proof.
  apply (proj1 (empty_zoom_range example_env (with_zoom_max example_options 0)
                  ltac:(cbn; lia))).
Defined.

(** ** One worker *)

(** With a single worker the master of the cluster version does what the
    sequential walk does: when the format is png, the zoom range is not
    empty, every request is fulfilled and the sequential run meets no path
    error, the cluster run with one worker and one report per tile makes the
    same requests in the same order and ends with the same counter, the
    worker killed and the callback called once. *)
Theorem one_worker_is_sequential {num : Type} {M : CoordinateMapper num}
  (env : Env) (options : Options num) (fs : FS) :
  Cluster.tile_format options = "png"%string ->
  zoom_min options <= zoom_max options ->
  (forall u, axios_fulfils env u = true) ->
  let r := Sequential.getTiles env options fs in
  Sequential.returned r = [] ->
  let sys := Cluster.run env (Cluster.numCPUs 1) options fs
               (repeat 1%nat (List.length (Sequential.tiles r))) in
  Cluster.requests sys = Sequential.requests r /\
  Cluster.cursor sys = Sequential.cursor r /\
  Cluster.killed sys = true /\
  Cluster.returned sys = [None].
Proof.
  intros Hpng Hzoom _ r Hret sys. subst r sys.
  destruct (fst (createDir env fs (output options))) eqn:Hroot.
  2:{ rewrite (sequential_getTiles_aborted env options fs Hroot) in Hret. discriminate. }
  pose proof (sequential_getTiles_ends env options fs) as Hend.
  unfold Cluster.run. rewrite (cluster_getTiles_started env options _ fs Hroot).
  rewrite (sequential_getTiles_started env options fs Hroot) in *.
  change (Cluster.numCPUs 1) with 1%nat.
  change (first_jobs options 1)
    with [(1%nat, Cluster.job_of options (coords (initial_cursor options)) (Some 1%nat))].
  set (st := Sequential.mkRun (initial_cursor options)
               (snd (createDir env fs (output options))) [] [] [] false) in *.
  apply (one_worker_walk env options Hpng _ st (seq 1 1) (Some 1%nat)
           [(1%nat, Cluster.job_of options (coords (initial_cursor options)) (Some 1%nat))]
           [] _ Hzoom eq_refl Hend Hret).
  reflexivity.
Qed.

Lemma one_worker_is_sequential_witness :
  let r := Sequential.getTiles example_env example_options [] in
  let sys := Cluster.run example_env (Cluster.numCPUs 1) example_options []
               (repeat 1%nat (List.length (Sequential.tiles r))) in
  Cluster.requests sys = Sequential.requests r /\
  Cluster.cursor sys = Sequential.cursor r /\
  Cluster.killed sys = true /\
  Cluster.returned sys = [None].
Proof.
  cbv zeta.
  apply (one_worker_is_sequential example_env example_options [] eq_refl
           ltac:(cbn; lia) ltac:(reflexivity)).
  apply sequential_getTiles_no_error. reflexivity.
Defined.

(** ** The jobs *)

(** Every job the master sends is built from [options] for an address of the
    iterator: it carries [options.url] and [options.output], a format of
    [VALID_FORMATS] that is [options.format] or else png, and a referrer that
    is never the empty string. *)
Theorem sent_jobs_are_of_options {num : Type} {M : CoordinateMapper num}
  (env : Env) (cpus : nat) (options : Options num) (fs : FS) (schedule : list nat) :
  Forall (fun e =>
            let job := snd e in
            Cluster.job_url job = url options /\
            Cluster.job_output job = output options /\
            In (Cluster.job_format job) Cluster.VALID_FORMATS /\
            (format options = Some (Cluster.job_format job) \/
             Cluster.job_format job = "png"%string) /\
            Cluster.job_referrer job <> Some EmptyString /\
            In (Cluster.job_coords job) (Cluster.addresses options))
         (Cluster.sent (Cluster.run env (Cluster.numCPUs cpus) options fs schedule)).
Proof.
  destruct (fst (createDir env fs (output options))) eqn:Hroot.
  2:{ rewrite (cluster_run_aborted env options _ fs schedule Hroot).
      rewrite (cluster_getTiles_aborted env options _ fs Hroot). constructor. }
  pose proof (cluster_run_invariant env options _ fs schedule
                (numCPUs_positive cpus) Hroot) as Hinv.
  eapply Forall_impl; [|exact (sent_known options _ _ Hinv)].
  intros [w job] (c & worker & Hjob & Hc). cbn [snd] in *. subst job.
  cbn [Cluster.job_url Cluster.job_output Cluster.job_format Cluster.job_referrer
       Cluster.job_coords Cluster.job_of].
  repeat split; try assumption.
  - unfold Cluster.tile_format. destruct (format options) as [f|]; [|cbn; auto].
    destruct (existsb (String.eqb f) Cluster.VALID_FORMATS) eqn:Hf; [|cbn; auto].
    apply existsb_exists in Hf. destruct Hf as (g & Hg & Heq).
    apply String.eqb_eq in Heq. now subst g.
  - unfold Cluster.tile_format. destruct (format options) as [f|]; [|now right].
    destruct (existsb (String.eqb f) Cluster.VALID_FORMATS); [now left|now right].
  - destruct (referrer options) as [r|]; [|discriminate].
    destruct (String.eqb r EmptyString) eqn:Hr; [discriminate|].
    intros [= ->]. discriminate.
Qed.

(** ** The report of a worker *)

(** The report a worker sends carries the URL template of its job, not the
    resolved URL, and the error of [getTile]. Its field [success] is set to
    [!!err]: it is true exactly when [getTile] reported a path error, of the
    directory of the zoom level or of the column, and then nothing was
    requested; it is false exactly when there was no error. *)
Theorem worker_report_success_means_error (env : Env) (fs : FS) (job : Cluster.Job) :
  let report := fst (Cluster.worker_onMessage env fs job) in
  let out := snd (Cluster.worker_onMessage env fs job) in
  let dir_z := zoom_dir (Cluster.job_output job) (Cluster.job_coords job) in
  let dir_x := column_dir (Cluster.job_output job) (Cluster.job_coords job) in
  Cluster.msg_url report = Cluster.job_url job /\
  Cluster.msg_err report = callback_err out /\
  (Cluster.msg_success report = true <->
   Cluster.msg_err report = Some (pathError dir_z) \/
   Cluster.msg_err report = Some (pathError dir_x)) /\
  (Cluster.msg_success report = false <-> Cluster.msg_err report = None) /\
  (Cluster.msg_success report = true -> requested out = []).
Proof.
  cbv zeta. unfold Cluster.worker_onMessage.
  cbn [fst snd Cluster.msg_url Cluster.msg_err Cluster.msg_success].
  split; [reflexivity|]. split; [reflexivity|].
  pose proof (cluster_getTile_error env fs (Cluster.job_url job) (Cluster.job_output job)
                (Cluster.job_coords job) (Cluster.job_referrer job)
                (Cluster.job_format job)) as He.
  pose proof (cluster_getTile_requested env fs (Cluster.job_url job)
                (Cluster.job_output job) (Cluster.job_coords job)
                (Cluster.job_referrer job) (Cluster.job_format job)) as Hr.
  cbv zeta in He, Hr.
  destruct (callback_err _) as [e|] eqn:Herr.
  - split; [|split].
    + split; [intros _|reflexivity].
      destruct He as [He|[He|He]]; [discriminate|now left|now right].
    + split; discriminate.
    + intros _. destruct Hr as [Hr|[_ Hn]]; [exact Hr|discriminate].
  - split; [|split].
    + split; [discriminate|]. intros [H|H]; discriminate.
    + split; reflexivity.
    + discriminate.
Qed.

(** ** Every address is sent *)

Section Completeness.
Context {num : Type} {M : CoordinateMapper num}.
Variable env : Env.
Variable options : Options num.

(** When the workers are killed the master has sent every job of the
    iterator. *)
Lemma cluster_sent_at_end (cpus : nat) (fs : FS) (schedule : list nat) :
  let sys := Cluster.run env (Cluster.numCPUs cpus) options fs schedule in
  Cluster.killed sys = true ->
  map snd (Cluster.sent sys) =
  map snd (first_jobs options (Cluster.numCPUs cpus)) ++ fst (Cluster.all_jobs options).
Proof.
  intros sys Hk. subst sys.
  pose proof (numCPUs_positive cpus) as HW.
  destruct (fst (createDir env fs (output options))) eqn:Hroot.
  2:{ rewrite (cluster_run_aborted env options _ fs schedule Hroot) in Hk.
      rewrite (cluster_getTiles_aborted env options _ fs Hroot) in Hk. discriminate. }
  pose proof (cluster_run_invariant env options _ fs schedule HW Hroot) as Hinv.
  destruct Hinv as [(k & later & Hsent & Hlater & Hcur) _ _ Hkilled Hstopped _].
  rewrite Hk in Hkilled. symmetry in Hkilled.
  apply negb_true_iff, Nat.ltb_ge in Hkilled.
  specialize (Hstopped ltac:(lia)). rewrite Hcur in Hstopped.
  rewrite Hsent, map_app, Hlater. f_equal.
  unfold Cluster.all_jobs.
  set (b := budget options (initial_cursor options)).
  rewrite <- (next_jobs_stable options k (Nat.max k b)) by (try assumption; lia).
  rewrite (next_jobs_stable options b (Nat.max k b)); [reflexivity| |lia].
  now destruct (next_jobs_complete options b (initial_cursor options) (le_n _)).
Qed.

Lemma repeat_snoc {A : Type} (a : A) (n : nat) : repeat a (S n) = repeat a n ++ [a].
Proof. induction n as [|n IH]; [reflexivity|]. cbn [repeat app] in *. now rewrite <- IH. Qed.

Lemma cluster_issued_at_end (cpus : nat) (fs : FS) (schedule : list nat) :
  let sys := Cluster.run env (Cluster.numCPUs cpus) options fs schedule in
  Cluster.killed sys = true ->
  map (fun e => Cluster.job_coords (snd e)) (Cluster.sent sys) =
  repeat (coords (initial_cursor options)) (Cluster.numCPUs cpus - 1)
  ++ Cluster.addresses options.
Proof.
  intros sys Hk. rewrite <- (map_map snd Cluster.job_coords).
  subst sys. rewrite (cluster_sent_at_end cpus fs schedule Hk).
  rewrite map_app, map_map, first_jobs_coords.
  pose proof (numCPUs_positive cpus) as HW.
  destruct (Cluster.numCPUs cpus) as [|W]; [lia|].
  replace (S W - 1)%nat with W by lia.
  rewrite repeat_snoc, <- app_assoc. reflexivity.
Qed.

End Completeness.

(** The cluster version sends every address of the iterator. By the time
    the workers are killed, under whatever schedule, the jobs sent are the
    first address once per worker followed by every further address of the
    iterator in its order, and no worker holds a job any more. *)
Theorem every_address_is_sent {num : Type} {M : CoordinateMapper num}
  (env : Env) (options : Options num) (fs : FS) (cpus : nat) (schedule : list nat) :
  let sys := Cluster.run env (Cluster.numCPUs cpus) options fs schedule in
  Cluster.killed sys = true ->
  map (fun e => Cluster.job_coords (snd e)) (Cluster.sent sys) =
  repeat (coords (initial_cursor options)) (Cluster.numCPUs cpus - 1)
  ++ Cluster.addresses options /\
  Cluster.pending sys = [].
Proof.
  intros sys Hk. split; [now apply cluster_issued_at_end|].
  subst sys. pose proof (numCPUs_positive cpus) as HW.
  destruct (fst (createDir env fs (output options))) eqn:Hroot.
  - pose proof (cluster_run_invariant env options _ fs schedule HW Hroot) as Hinv.
    now apply (killed_iff_idle options _ HW _ Hinv).
  - rewrite (cluster_run_aborted env options _ fs schedule Hroot) in Hk.
    rewrite (cluster_getTiles_aborted env options _ fs Hroot) in Hk. discriminate.
Qed.

Lemma every_address_is_sent_witness :
  let sys := Cluster.run example_env (Cluster.numCPUs 2) example_options []
               [1%nat; 2%nat; 1%nat] in
  map (fun e => Cluster.job_coords (snd e)) (Cluster.sent sys) =
  [mkCoords 1 1 0; mkCoords 1 1 0; mkCoords 1 1 1] /\
  Cluster.pending sys = [].
Proof.
  cbv zeta.
  assert (Hk : Cluster.killed (Cluster.run example_env (Cluster.numCPUs 2) example_options []
                                 [1%nat; 2%nat; 1%nat]) = true).
  { unfold Cluster.run, Cluster.getTiles. rewrite example_initial_cursor.
    vm_compute. reflexivity. }
  pose proof (every_address_is_sent example_env example_options [] 2
                [1%nat; 2%nat; 1%nat] Hk) as [Hs Hp].
  split; [|exact Hp].
  rewrite Hs, example_addresses, example_initial_cursor. reflexivity.
Defined.
